(** * TGGame: the gesture-driven menu cursor and the Saber rhythm engine

    A shallow embedding of [src/App.tsx] (menu cursor, dwell selection) and
    [src/games/SaberGame.tsx] (beat scheduler, note life cycle, hit judgement,
    energy, combo, grade), followed by the properties of the specification
    stated over it.

    Conventions of the embedding.
    - A JavaScript [number] that only ever holds an integer (score, combo,
      energy, the note counters, the 16th-note counter, grid coordinates) is a
      [Z].  The audio clock and the note times of the scheduler are IEEE
      binary64 numbers ([float]), added and compared as the browser does.
      Every other [number] (depths, screen coordinates, frame timestamps,
      landmark coordinates, confidences) is a rational [Q], with exact
      arithmetic.  The grade is computed both ways, to compare.
    - A [useRef] cell is a record field; a function that mutates cells takes
      the record and returns the new one.
    - [Math.random()], the audio clock, [performance.now()], the pose
      detector's result and the canvas size are inputs of the functions that
      read them.
    - Canvas drawing, particles, debris and sound effects do not feed back
      into the session state and are left out. *)

From Stdlib Require Import ZArith QArith Qround Qminmax List String Bool.
From Stdlib Require Import Lia Lqa.
From Stdlib Require Import Floats Uint63.
Import ListNotations.

Local Open Scope Z_scope.

(** ** Comparisons on [number] *)

Definition Qlt_bool (a b : Q) : bool := negb (Qle_bool b a).
Definition Qgt_bool (a b : Q) : bool := Qlt_bool b a.
Definition Qge_bool (a b : Q) : bool := Qle_bool b a.

(** [x ** 2] *)
Definition Qsq (a : Q) : Q := (a * a)%Q.

(** ** Pose landmarks (MediaPipe's [NormalizedLandmark]) *)

Record Landmark := mkLandmark {
  lm_x : Q;
  lm_y : Q;
  (* [visibility?: number] *)
  lm_visibility : option Q
}.

(** [l.visibility > 0.5]; an absent visibility compares false. *)
Definition visible (l : Landmark) : bool :=
  match lm_visibility l with
  | Some v => Qgt_bool v (5 # 10)
  | None => false
  end.

Module Saber.

(** ** Types of [SaberGame.tsx] *)

Inductive BlockDirection := UP | DOWN | LEFT | RIGHT | DOT.
Inductive BlockColor := red | blue.
Inductive BlockType := normal | bomb.
Inductive ObstacleType := WALL_TOP | WALL_LEFT | WALL_RIGHT.
Inductive TrackType := GENERATED | UPLOAD.
Inductive Grade := SSS | SS | S | A | B | C | D.

Record SaberBlock := mkBlock {
  id : string;
  gridX : Z;
  gridY : Z;
  z : Q;
  color : BlockColor;
  type : BlockType;
  direction : BlockDirection;
  hit : bool;
  (* [Math.atan2(v.y, v.x)] of the cutting hand's velocity [v]; the vector
     itself is stored, the angle is never read back by the game logic *)
  cutAngle : option (Q * Q);
  remove : bool
}.

Record Obstacle := mkObstacle {
  o_id : string;
  o_type : ObstacleType;
  o_z : Q;
  o_duration : Q;
  o_hit : bool;
  o_remove : bool
}.

Record SaberState := mkHand {
  x : Q;
  y : Q;
  history : list (Q * Q);
  velocityVector : Q * Q;
  (* the square of [velocityMagnitude] (the source stores its square root) *)
  velocityMagnitudeSq : Q
}.

Record Track := mkTrack {
  t_id : string;
  t_name : string;
  t_bpm : Z;
  t_type : TrackType
}.

Record Canvas := mkCanvas { width : Q; height : Q }.

(** ** Constants *)

Definition FOCAL_LENGTH : Q := 350.
Definition BLOCK_SIZE : Q := 200.
Definition GAME_SPEED : Q := 22.
Definition SPAWN_Z : Q := 3500.
Definition HIT_WINDOW_Z_NEAR : Q := -150.
Definition HIT_WINDOW_Z_FAR : Q := 350.
Definition GRID_X_SPACING : Q := 1000.
Definition GRID_Y_SPACING : Q := 240.

(** The display names are cut down to their ASCII part; the [difficulty]
    field, which only picks a colour, is left out. *)
Definition TRACK_LIST : list Track :=
  [ mkTrack "track_1" "Neon Pulse" 105 GENERATED;
    mkTrack "track_2" "Cyber Storm" 130 GENERATED;
    mkTrack "track_3" "Void Walker" 150 GENERATED;
    mkTrack "upload" "MP3" 120 UPLOAD ].

(** ** The refs of the component *)

Record Game := mkGame {
  scoreRef : Z;
  comboRef : Z;
  energyRef : Z;
  hitNotesRef : Z;
  totalNotesRef : Z;
  blocksRef : list SaberBlock;
  obstaclesRef : list Obstacle;
  leftHandRef : SaberState;
  rightHandRef : SaberState;
  headRef : Q * Q;
  bodyRef : Q;
  (* [audioCtxRef.current !== null] *)
  audioCtxRef : bool;
  (* [analyserRef.current !== null] (the data array is allocated with it) *)
  analyserRef : bool;
  nextNoteTimeRef : float;
  current16thNoteRef : Z;
  (* the bpm captured by the running [setInterval] closure, if any *)
  timerIDRef : option Z;
  (* a buffer source has been started and not replaced *)
  userSourceRef : bool;
  (* [userAudioBufferRef.current !== null] *)
  userAudioBufferRef : bool;
  lastSpawnTimeRef : Q;
  bassHistoryRef : list Q;
  isPlayingRef : bool;
  hoverStartTimeRef : Q;
  hoveredTrackIdRef : option string;
  currentTrackName : string;
  (* the calls [onGameOver(score, grade)] made so far, latest first *)
  gameOverCalls : list (Z * Grade);
  (* the number of calls [fileInputRef.current?.click()] made so far *)
  fileClicks : nat
}.

Definition initialHand : SaberState := mkHand 0 0 [] (0, 0)%Q 0.

Definition initialGame : Game :=
  mkGame 0 0 50 0 0 [] [] initialHand initialHand (1 # 2, 1 # 2)%Q (1 # 2)
         false false 0 0 None false false 0 [] false 0 None EmptyString [] 0.

(** Updates of groups of refs. *)

Definition set_session (g : Game) (score : Z) (combo : Z) (energy : Z)
  (hitNotes : Z) : Game :=
  mkGame score combo energy hitNotes (totalNotesRef g) (blocksRef g)
         (obstaclesRef g) (leftHandRef g) (rightHandRef g) (headRef g)
         (bodyRef g) (audioCtxRef g) (analyserRef g) (nextNoteTimeRef g)
         (current16thNoteRef g) (timerIDRef g) (userSourceRef g)
         (userAudioBufferRef g) (lastSpawnTimeRef g) (bassHistoryRef g)
         (isPlayingRef g) (hoverStartTimeRef g) (hoveredTrackIdRef g)
         (currentTrackName g) (gameOverCalls g) (fileClicks g).

Definition set_entities (g : Game) (total : Z) (bs : list SaberBlock)
  (os : list Obstacle) : Game :=
  mkGame (scoreRef g) (comboRef g) (energyRef g) (hitNotesRef g) total bs os
         (leftHandRef g) (rightHandRef g) (headRef g) (bodyRef g)
         (audioCtxRef g) (analyserRef g) (nextNoteTimeRef g)
         (current16thNoteRef g) (timerIDRef g) (userSourceRef g)
         (userAudioBufferRef g) (lastSpawnTimeRef g) (bassHistoryRef g)
         (isPlayingRef g) (hoverStartTimeRef g) (hoveredTrackIdRef g)
         (currentTrackName g) (gameOverCalls g) (fileClicks g).

Definition set_tracking (g : Game) (l : SaberState) (r : SaberState)
  (hd : Q * Q) (bd : Q) : Game :=
  mkGame (scoreRef g) (comboRef g) (energyRef g) (hitNotesRef g)
         (totalNotesRef g) (blocksRef g) (obstaclesRef g) l r hd bd
         (audioCtxRef g) (analyserRef g) (nextNoteTimeRef g)
         (current16thNoteRef g) (timerIDRef g) (userSourceRef g)
         (userAudioBufferRef g) (lastSpawnTimeRef g) (bassHistoryRef g)
         (isPlayingRef g) (hoverStartTimeRef g) (hoveredTrackIdRef g)
         (currentTrackName g) (gameOverCalls g) (fileClicks g).

Definition set_audio (g : Game) (ctx : bool) (analyser : bool)
  (timer : option Z) (source : bool) (buffer : bool) : Game :=
  mkGame (scoreRef g) (comboRef g) (energyRef g) (hitNotesRef g)
         (totalNotesRef g) (blocksRef g) (obstaclesRef g) (leftHandRef g)
         (rightHandRef g) (headRef g) (bodyRef g) ctx analyser
         (nextNoteTimeRef g) (current16thNoteRef g) timer source buffer
         (lastSpawnTimeRef g) (bassHistoryRef g) (isPlayingRef g)
         (hoverStartTimeRef g) (hoveredTrackIdRef g) (currentTrackName g)
         (gameOverCalls g) (fileClicks g).

Definition set_clock (g : Game) (next : float) (beat : Z) : Game :=
  mkGame (scoreRef g) (comboRef g) (energyRef g) (hitNotesRef g)
         (totalNotesRef g) (blocksRef g) (obstaclesRef g) (leftHandRef g)
         (rightHandRef g) (headRef g) (bodyRef g) (audioCtxRef g)
         (analyserRef g) next beat (timerIDRef g) (userSourceRef g)
         (userAudioBufferRef g) (lastSpawnTimeRef g) (bassHistoryRef g)
         (isPlayingRef g) (hoverStartTimeRef g) (hoveredTrackIdRef g)
         (currentTrackName g) (gameOverCalls g) (fileClicks g).

Definition set_analysis (g : Game) (last : Q) (bass : list Q) : Game :=
  mkGame (scoreRef g) (comboRef g) (energyRef g) (hitNotesRef g)
         (totalNotesRef g) (blocksRef g) (obstaclesRef g) (leftHandRef g)
         (rightHandRef g) (headRef g) (bodyRef g) (audioCtxRef g)
         (analyserRef g) (nextNoteTimeRef g) (current16thNoteRef g)
         (timerIDRef g) (userSourceRef g) (userAudioBufferRef g) last bass
         (isPlayingRef g) (hoverStartTimeRef g) (hoveredTrackIdRef g)
         (currentTrackName g) (gameOverCalls g) (fileClicks g).

Definition set_playing (g : Game) (playing : bool)
  (calls : list (Z * Grade)) : Game :=
  mkGame (scoreRef g) (comboRef g) (energyRef g) (hitNotesRef g)
         (totalNotesRef g) (blocksRef g) (obstaclesRef g) (leftHandRef g)
         (rightHandRef g) (headRef g) (bodyRef g) (audioCtxRef g)
         (analyserRef g) (nextNoteTimeRef g) (current16thNoteRef g)
         (timerIDRef g) (userSourceRef g) (userAudioBufferRef g)
         (lastSpawnTimeRef g) (bassHistoryRef g) playing
         (hoverStartTimeRef g) (hoveredTrackIdRef g) (currentTrackName g)
         calls (fileClicks g).

Definition set_menu (g : Game) (start : Q) (hovered : option string)
  (clicks : nat) : Game :=
  mkGame (scoreRef g) (comboRef g) (energyRef g) (hitNotesRef g)
         (totalNotesRef g) (blocksRef g) (obstaclesRef g) (leftHandRef g)
         (rightHandRef g) (headRef g) (bodyRef g) (audioCtxRef g)
         (analyserRef g) (nextNoteTimeRef g) (current16thNoteRef g)
         (timerIDRef g) (userSourceRef g) (userAudioBufferRef g)
         (lastSpawnTimeRef g) (bassHistoryRef g) (isPlayingRef g) start
         hovered (currentTrackName g) (gameOverCalls g) clicks.

Definition set_trackName (g : Game) (name : string) : Game :=
  mkGame (scoreRef g) (comboRef g) (energyRef g) (hitNotesRef g)
         (totalNotesRef g) (blocksRef g) (obstaclesRef g) (leftHandRef g)
         (rightHandRef g) (headRef g) (bodyRef g) (audioCtxRef g)
         (analyserRef g) (nextNoteTimeRef g) (current16thNoteRef g)
         (timerIDRef g) (userSourceRef g) (userAudioBufferRef g)
         (lastSpawnTimeRef g) (bassHistoryRef g) (isPlayingRef g)
         (hoverStartTimeRef g) (hoveredTrackIdRef g) name (gameOverCalls g)
         (fileClicks g).

(** ** [finishGame] *)

Definition accuracy (hitNotes totalNotes : Z) : Q :=
  (inject_Z hitNotes / inject_Z totalNotes)%Q.

Definition gradeOf (hitNotes totalNotes : Z) : Grade :=
  if totalNotes >? 0 then
    let accuracy := accuracy hitNotes totalNotes in
    if Qge_bool accuracy (90 # 100) then SSS
    else if Qge_bool accuracy (85 # 100) then SS
    else if Qge_bool accuracy (75 # 100) then S
    else if Qge_bool accuracy (60 # 100) then A
    else if Qge_bool accuracy (45 # 100) then B
    else C
  else D.

(** The same computation on IEEE binary64 numbers, as the browser does
    it: the counters are converted exactly, the division rounds to nearest
    and the thresholds are the doubles nearest to the decimal literals. *)
Definition number_of_Z (n : Z) : float := PrimFloat.of_uint63 (Uint63.of_Z n).

Definition gradeOfFloat (hitNotes totalNotes : Z) : Grade :=
  if totalNotes >? 0 then
    let accuracy := (number_of_Z hitNotes / number_of_Z totalNotes)%float in
    if PrimFloat.leb 0x1.ccccccccccccdp-1%float accuracy then SSS
    else if PrimFloat.leb 0x1.b333333333333p-1%float accuracy then SS
    else if PrimFloat.leb 0.75%float accuracy then S
    else if PrimFloat.leb 0x1.3333333333333p-1%float accuracy then A
    else if PrimFloat.leb 0x1.ccccccccccccdp-2%float accuracy then B
    else C
  else D.

Definition finishGame (g : Game) : Game :=
  let grade := gradeOf (hitNotesRef g) (totalNotesRef g) in
  let g1 := set_playing g false ((scoreRef g, grade) :: gameOverCalls g) in
  set_audio g1 (audioCtxRef g1) (analyserRef g1) (timerIDRef g1)
            (userSourceRef g1) false.

(** ** Spawning *)

(** What [Math.random()] yields at the call sites one scheduler iteration
    (or one analysis step) can reach.  An id string stands for
    [Math.random().toString(36).substr(2, 9)]. *)
Record Draws := mkDraws {
  r_id1 : string;
  r_dir1 : Q;
  r_chance : Q;
  r_id2 : string;
  r_dir2 : Q;
  r_wall : Q;
  r_side : Q;
  r_wall_id : string
}.

Definition dirs : list BlockDirection := [UP; DOWN; LEFT; RIGHT; DOT].

Definition spawnBlock (g : Game) (rid : string) (rdir : Q)
  (gridX gridY : Z) (color : BlockColor) (type : BlockType) : Game :=
  let direction :=
    match type with
    | bomb => DOT
    | normal =>
        nth (Z.to_nat (Qfloor (rdir * inject_Z (Z.of_nat (List.length dirs)))))
            dirs DOT
    end in
  let block :=
    mkBlock rid gridX gridY SPAWN_Z color type direction false None false in
  set_entities g
    (match type with
     | normal => totalNotesRef g + 1
     | bomb => totalNotesRef g
     end)
    (blocksRef g ++ [block]) (obstaclesRef g).

Definition spawnWall (g : Game) (rid : string) (type : ObstacleType) : Game :=
  set_entities g (totalNotesRef g) (blocksRef g)
    (obstaclesRef g ++ [mkObstacle rid type SPAWN_Z 400 false false]).

(** ** [scheduler] *)

Inductive Synth :=
| HiHat (time : float)
| Kick (time : float)
| Snare (time : float)
| Bass (time : float) (freq : Q).

(** One pass through the body of the [while] loop: the subdivision it
    handled, the time it handled it for, and what it sent to the
    synthesizer. *)
Record Emitted := mkEmitted {
  e_beat : Z;
  e_time : float;
  e_sounds : list Synth
}.

(** [0.1], as the double nearest to it. *)
Definition scheduleAhead : float := 0x1.999999999999ap-4%float.

(** [60.0 / bpm]; the tempo is an integer in every call (105, 130, 150 in
    the track list, 120 for an uploaded track), converted exactly. *)
Definition secondsPerBeat (bpm : Z) : float := (60 / number_of_Z bpm)%float.

(** [0.25 * secondsPerBeat], the increment of the note time. *)
Definition subdivision (bpm : Z) : float := (0.25 * secondsPerBeat bpm)%float.

Definition schedulerSounds (beat : Z) (time : float) : list Synth :=
  [HiHat time]
  ++ (if (beat =? 0) || (beat =? 8) then [Kick time] else [])
  ++ (if (beat =? 4) || (beat =? 12) then [Snare time] else [])
  ++ (if (beat =? 0) || (beat =? 3) || (beat =? 8) || (beat =? 10)
      then [Bass time (if beat <? 8 then 55 else 65)] else []).

Definition schedulerSpawns (beat : Z) (d : Draws) (g : Game) : Game :=
  let g := if beat =? 0 then spawnBlock g (r_id1 d) (r_dir1 d) 2 0 blue normal
           else g in
  let g := if beat =? 8 then spawnBlock g (r_id1 d) (r_dir1 d) 2 1 blue normal
           else g in
  let g := if beat =? 4 then spawnBlock g (r_id1 d) (r_dir1 d) 1 0 red normal
           else g in
  let g := if beat =? 12 then spawnBlock g (r_id1 d) (r_dir1 d) 1 1 red normal
           else g in
  let g := if (beat =? 14) && Qgt_bool (r_chance d) (5 # 10)
           then spawnBlock g (r_id2 d) (r_dir2 d) 2 2 blue normal else g in
  let g := if (beat =? 2) && Qgt_bool (r_chance d) (6 # 10)
           then spawnBlock g (r_id2 d) (r_dir2 d) 1 2 red normal else g in
  if Qlt_bool (r_wall d) (2 # 100) && (beat =? 0)
  then spawnWall g (r_wall_id d)
         (if Qgt_bool (r_side d) (5 # 10) then WALL_LEFT else WALL_RIGHT)
  else g.

Definition schedulerBody (bpm : Z) (d : Draws) (g : Game) : Game * Emitted :=
  let beat := current16thNoteRef g in
  let time := nextNoteTimeRef g in
  let g1 := schedulerSpawns beat d g in
  (set_clock g1 (nextNoteTimeRef g1 + subdivision bpm)%float
                ((current16thNoteRef g1 + 1) mod 16),
   mkEmitted beat time (schedulerSounds beat time)).

(** The [while] loop.  [fuel] bounds the number of passes; [None] means the
    bound was reached with the loop condition still true.  [draws i] are
    the random values of pass [i] of this call. *)
Fixpoint schedulerLoop (fuel : nat) (now : float) (bpm : Z)
  (draws : nat -> Draws) (i : nat) (g : Game)
  : option (Game * list Emitted) :=
  if PrimFloat.ltb (nextNoteTimeRef g) (now + scheduleAhead)%float then
    match fuel with
    | O => None
    | Datatypes.S fuel' =>
        let (g1, e) := schedulerBody bpm (draws i) g in
        match schedulerLoop fuel' now bpm draws (Datatypes.S i) g1 with
        | Some (g2, es) => Some (g2, e :: es)
        | None => None
        end
    end
  else Some (g, []).

Definition scheduler := schedulerLoop.

(** ** [startLevel] *)

(** [initAudioContext]: [supported] says whether constructing an
    [AudioContext] succeeds in this browser.  The result is whether a
    context is returned. *)
Definition initAudioContext (supported : bool) (g : Game) : Game * bool :=
  if audioCtxRef g then (g, true)
  else if supported
       then (set_audio g true (analyserRef g) (timerIDRef g)
                       (userSourceRef g) (userAudioBufferRef g), true)
       else (g, false).

(** [currentTime] is [ctx.currentTime] at the call. *)
Definition startLevel (supported : bool) (currentTime : float)
  (bpm : Z) (trackName : string) (g : Game) : Game :=
  let g := set_trackName g trackName in
  let (g, ctx) := initAudioContext supported g in
  if negb ctx then g
  else
    let g := set_audio g (audioCtxRef g) true (timerIDRef g)
                       (userSourceRef g) (userAudioBufferRef g) in
    let g := set_session g 0 0 50 (hitNotesRef g) in
    let g := set_entities g (totalNotesRef g) [] [] in
    let g := set_session g (scoreRef g) (comboRef g) (energyRef g) 0 in
    let g := set_entities g 0 (blocksRef g) (obstaclesRef g) in
    (* clearInterval(timerIDRef.current); a playing user source is stopped,
       its ref keeps pointing at it *)
    let g := set_audio g (audioCtxRef g) (analyserRef g) None
                       (userSourceRef g) (userAudioBufferRef g) in
    let g :=
      if userAudioBufferRef g
      then set_audio g (audioCtxRef g) (analyserRef g) (timerIDRef g)
                     true (userAudioBufferRef g)
      else
        let g := set_clock g (currentTime + 0.5)%float 0 in
        set_audio g (audioCtxRef g) (analyserRef g) (Some bpm)
                  (userSourceRef g) (userAudioBufferRef g) in
    set_playing g true (gameOverCalls g).

(** [handleFileUpload], once a file was chosen; [decoded] says whether
    [decodeAudioData] succeeded. *)
Definition handleFileUpload (supported decoded : bool)
  (currentTime : float) (fileName : string) (g : Game) : Game :=
  let (g, ctx) := initAudioContext supported g in
  if negb ctx then g
  else if decoded
       then
         let g := set_audio g (audioCtxRef g) (analyserRef g) (timerIDRef g)
                            (userSourceRef g) true in
         startLevel supported currentTime 120 (substring 0 15 fileName) g
       else g.

(** ** [analyzeAndSpawn] *)

Definition Qsum (l : list Q) : Q := fold_left Qplus l 0%Q.

Definition analyzeAndSpawn (freq : list Q) (perfNow : Q) (d : Draws)
  (g : Game) : Game :=
  if negb (analyserRef g) then g
  else
    let bass := (Qsum (map (fun i => nth i freq 0%Q) (seq 0 10)) / 10)%Q in
    let hist := bassHistoryRef g ++ [bass] in
    let hist := if (30 <? List.length hist)%nat then tl hist else hist in
    let avg := (Qsum hist / inject_Z (Z.of_nat (List.length hist)))%Q in
    let g := set_analysis g (lastSpawnTimeRef g) hist in
    if Qgt_bool (perfNow - lastSpawnTimeRef g)%Q 600 then
      if Qgt_bool bass (avg * (13 # 10))%Q && Qgt_bool bass 120 then
        let g := spawnBlock g (r_id1 d) (r_dir1 d) 2 0 blue normal in
        let g := if Qgt_bool (r_chance d) (6 # 10)
                 then spawnBlock g (r_id2 d) (r_dir2 d) 1 0 red normal
                 else g in
        set_analysis g perfNow (bassHistoryRef g)
      else g
    else g.

(** ** Tracking: [updateHand] and the head and body points *)

Definition updateHand (cv : Canvas) (lm : list Landmark) (idx : nat)
  (ref : SaberState) : SaberState :=
  match nth_error lm idx with
  | Some l =>
      if visible l then
        let x' := ((1 - lm_x l) * width cv)%Q in
        let y' := (lm_y l * height cv)%Q in
        let v := (x' - x ref, y' - y ref)%Q in
        let h := history ref ++ [(x', y')] in
        mkHand x' y'
               (if (6 <? List.length h)%nat then tl h else h)
               v (Qsq (fst v) + Qsq (snd v))%Q
      else ref
  | None => ref
  end.

(** The pose part of [updateGame]; [pose] is [result.landmarks[0]] when the
    video plays and a pose was found. *)
Definition updateTracking (cv : Canvas) (pose : option (list Landmark))
  (g : Game) : Game :=
  match pose with
  | None => g
  | Some lm =>
      let l := updateHand cv lm 19 (leftHandRef g) in
      let r := updateHand cv lm 20 (rightHandRef g) in
      let hd := match nth_error lm 0 with
                | Some l0 => ((1 - lm_x l0)%Q, lm_y l0)
                | None => headRef g
                end in
      let bd := match nth_error lm 11, nth_error lm 12 with
                | Some l11, Some l12 => (1 - (lm_x l11 + lm_x l12) / 2)%Q
                | _, _ => bodyRef g
                end in
      set_tracking g l r hd bd
  end.

(** ** [updateLevel]: notes *)

Record Projection := mkProjection { p_x : Q; p_y : Q; p_scale : Q }.

Definition project (x y z cx cy : Q) : Projection :=
  let scale := (FOCAL_LENGTH / (FOCAL_LENGTH + z))%Q in
  mkProjection (cx + x * scale)%Q (cy + y * scale)%Q scale.

Definition blockProjection (cv : Canvas) (block : SaberBlock) : Projection :=
  let cx := (width cv / 2)%Q in
  let cy := (height cv / 2)%Q in
  let xOffset := ((inject_Z (gridX block) - (15 # 10)) * GRID_X_SPACING)%Q in
  let yOffset := ((1 - inject_Z (gridY block)) * GRID_Y_SPACING)%Q in
  project xOffset yOffset (z block) cx cy.

(** [Math.sqrt(dx**2 + dy**2) < size * 1.5], decided on the squares: the
    inequality holds exactly when the bound is positive and the squared
    distance is below the squared bound. *)
Definition hitCheck (proj : Projection) (size : Q) (hand : SaberState) : bool :=
  let bound := (size * (15 # 10))%Q in
  Qlt_bool 0 bound
  && Qlt_bool (Qsq (x hand - p_x proj) + Qsq (y hand - p_y proj))%Q (Qsq bound).

Definition with_z (b : SaberBlock) (z' : Q) : SaberBlock :=
  mkBlock (id b) (gridX b) (gridY b) z' (color b) (type b) (direction b)
          (hit b) (cutAngle b) (remove b).

Definition with_hit (b : SaberBlock) (angle : option (Q * Q)) : SaberBlock :=
  mkBlock (id b) (gridX b) (gridY b) (z b) (color b) (type b) (direction b)
          true angle (remove b).

Definition with_remove (b : SaberBlock) : SaberBlock :=
  mkBlock (id b) (gridX b) (gridY b) (z b) (color b) (type b) (direction b)
          (hit b) (cutAngle b) true.

Definition is_red (c : BlockColor) : bool :=
  match c with red => true | blue => false end.

Definition is_blue (c : BlockColor) : bool :=
  match c with blue => true | red => false end.

Definition is_bomb (t : BlockType) : bool :=
  match t with bomb => true | normal => false end.

(** The hit-window part of the per-block callback; [block] already has its
    depth advanced. *)
Definition judgeBlock (cv : Canvas) (g : Game) (block : SaberBlock)
  : Game * SaberBlock :=
  if negb (hit block) && Qlt_bool (z block) HIT_WINDOW_Z_FAR
     && Qgt_bool (z block) HIT_WINDOW_Z_NEAR
  then
    let proj := blockProjection cv block in
    let size := (BLOCK_SIZE * p_scale proj)%Q in
    let leftHit := hitCheck proj size (leftHandRef g) in
    let rightHit := hitCheck proj size (rightHandRef g) in
    if is_bomb (type block) then
      if leftHit || rightHit then
        let g1 := set_session g (scoreRef g) 0 (Z.max 0 (energyRef g - 15))
                              (hitNotesRef g) in
        (if energyRef g1 <=? 0 then finishGame g1 else g1,
         with_hit block (cutAngle block))
      else (g, block)
    else
      let usedHand := if is_red (color block) && leftHit
                      then Some (leftHandRef g) else None in
      let usedHand := if is_blue (color block) && rightHit
                      then Some (rightHandRef g) else usedHand in
      match usedHand with
      | Some hand =>
          (set_session g
             (scoreRef g + (100 + (if comboRef g >? 10 then 10 else 0)))
             (comboRef g + 1)
             (Z.min 100 (energyRef g + 4))
             (hitNotesRef g + 1),
           with_hit block (Some (velocityVector hand)))
      | None => (g, block)
      end
  else (g, block).

(** The final part of the callback: a note far behind the player is marked
    for removal, and counts as missed when it is an uncut regular note. *)
Definition expireBlock (g : Game) (block : SaberBlock) : Game * SaberBlock :=
  if Qlt_bool (z block) (-250) then
    if negb (hit block) && negb (is_bomb (type block)) then
      let g1 := set_session g (scoreRef g) 0 (Z.max 0 (energyRef g - 8))
                            (hitNotesRef g) in
      (if energyRef g1 <=? 0 then finishGame g1 else g1, with_remove block)
    else (g, with_remove block)
  else (g, block).

Definition processBlock (cv : Canvas) (g : Game) (block : SaberBlock)
  : Game * SaberBlock :=
  if remove block then (g, block)
  else
    let block := with_z block (z block - GAME_SPEED)%Q in
    let (g1, block1) := judgeBlock cv g block in
    expireBlock g1 block1.

(** [blocksRef.current.forEach(...)]: the callbacks run in order, each on
    the refs the previous one left. *)
Fixpoint forEachBlock (cv : Canvas) (g : Game) (blocks : list SaberBlock)
  : Game * list SaberBlock :=
  match blocks with
  | [] => (g, [])
  | block :: rest =>
      let (g1, block1) := processBlock cv g block in
      let (g2, rest1) := forEachBlock cv g1 rest in
      (g2, block1 :: rest1)
  end.

(** ** [updateLevel]: obstacles *)

Definition obstacleCollides (g : Game) (obs : Obstacle) : bool :=
  match o_type obs with
  | WALL_TOP => Qlt_bool (snd (headRef g)) (45 # 100)
  | WALL_LEFT => Qlt_bool (bodyRef g) (4 # 10)
  | WALL_RIGHT => Qgt_bool (bodyRef g) (6 # 10)
  end.

Definition processObstacle (g : Game) (obs : Obstacle) : Game * Obstacle :=
  let z' := (o_z obs - GAME_SPEED)%Q in
  let collide := negb (o_hit obs) && Qlt_bool z' 250 && Qgt_bool z' (-100)
                 && obstacleCollides g obs in
  let g1 := if collide
            then set_session g (scoreRef g) 0 (energyRef g - 10)
                             (hitNotesRef g)
            else g in
  (g1, mkObstacle (o_id obs) (o_type obs) z' (o_duration obs)
                  (if collide then true else o_hit obs)
                  (if Qlt_bool z' (-500) then true else o_remove obs)).

Fixpoint forEachObstacle (g : Game) (obstacles : list Obstacle)
  : Game * list Obstacle :=
  match obstacles with
  | [] => (g, [])
  | obs :: rest =>
      let (g1, obs1) := processObstacle g obs in
      let (g2, rest1) := forEachObstacle g1 rest in
      (g2, obs1 :: rest1)
  end.

(** ** [updateLevel] *)

Definition updateLevel (cv : Canvas) (freq : list Q) (perfNow : Q)
  (d : Draws) (g : Game) : Game :=
  let g := if userAudioBufferRef g then analyzeAndSpawn freq perfNow d g
           else g in
  let (g, blocks) := forEachBlock cv g (blocksRef g) in
  let g := set_entities g (totalNotesRef g)
                        (filter (fun b => negb (remove b)) blocks)
                        (obstaclesRef g) in
  let (g, obstacles) := forEachObstacle g (obstaclesRef g) in
  set_entities g (totalNotesRef g) (blocksRef g)
               (filter (fun o => negb (o_remove o)) obstacles).

(** ** [updateMenu] *)

Definition hoverDuration : Q := 1500.

(** [Math.min(elapsed / duration, 1.0)] *)
Definition menuProgress (elapsed : Q) : Q := Qmin (elapsed / hoverDuration) 1.

Definition cardHovered (cv : Canvas) (idx : nat) (hand : SaberState) : bool :=
  let cx := (width cv / 2)%Q in
  let cardW := 600%Q in
  let cardH := 90%Q in
  let cy := (220 + inject_Z (Z.of_nat idx) * (cardH + 25))%Q in
  let cx0 := (cx - cardW / 2)%Q in
  Qgt_bool (x hand) cx0 && Qlt_bool (x hand) (cx0 + cardW)%Q
  && Qgt_bool (y hand) cy && Qlt_bool (y hand) (cy + cardH)%Q.

Definition same_id (current : option string) (tid : string) : bool :=
  match current with
  | Some s => String.eqb s tid
  | None => false
  end.

(** The callback of [TRACK_LIST.forEach]; the second component is the local
    [hoveredItem]. *)
Definition menuCard (cv : Canvas) (timestamp : Q) (supported : bool)
  (currentTime : float) (idx : nat) (track : Track)
  (st : Game * option string)
  : Game * option string :=
  let (g, hoveredItem) := st in
  let isHovered := cardHovered cv idx (leftHandRef g)
                   || cardHovered cv idx (rightHandRef g) in
  let hoveredItem := if isHovered then Some (t_id track) else hoveredItem in
  if isHovered && same_id (hoveredTrackIdRef g) (t_id track) then
    let elapsed := (timestamp - hoverStartTimeRef g)%Q in
    let progress := menuProgress elapsed in
    if Qge_bool progress 1 then
      let (g, _) := initAudioContext supported g in
      if Qgt_bool elapsed 1600 then (g, hoveredItem)
      else
        match t_type track with
        | UPLOAD =>
            (set_menu g (timestamp - 20000)%Q (hoveredTrackIdRef g)
                      (Datatypes.S (fileClicks g)), hoveredItem)
        | GENERATED =>
            (startLevel supported currentTime (t_bpm track) (t_name track) g,
             hoveredItem)
        end
    else (g, hoveredItem)
  else (g, hoveredItem).

Fixpoint forEachTrack (cv : Canvas) (timestamp : Q) (supported : bool)
  (currentTime : float) (idx : nat) (tracks : list Track)
  (st : Game * option string) : Game * option string :=
  match tracks with
  | [] => st
  | track :: rest =>
      forEachTrack cv timestamp supported currentTime (Datatypes.S idx) rest
        (menuCard cv timestamp supported currentTime idx track st)
  end.

Definition updateMenu (cv : Canvas) (timestamp : Q) (supported : bool)
  (currentTime : float) (g : Game) : Game :=
  let (g, hoveredItem) :=
    forEachTrack cv timestamp supported currentTime 0 TRACK_LIST (g, None) in
  match hoveredItem with
  | Some item =>
      if same_id (hoveredTrackIdRef g) item then g
      else set_menu g timestamp (Some item) (fileClicks g)
  | None => set_menu g 0 None (fileClicks g)
  end.

(** ** [updateGame] and the events of the component *)

Record FrameInput := mkFrame {
  f_canvas : Canvas;
  f_timestamp : Q;
  f_perfNow : Q;
  (* [result.landmarks[0]], when the video plays and a pose was found *)
  f_pose : option (list Landmark);
  f_freq : list Q;
  f_draws : Draws;
  f_audioSupported : bool;
  f_currentTime : float
}.

Definition updateGame (f : FrameInput) (g : Game) : Game :=
  let g := updateTracking (f_canvas f) (f_pose f) g in
  if isPlayingRef g
  then updateLevel (f_canvas f) (f_freq f) (f_perfNow f) (f_draws f) g
  else updateMenu (f_canvas f) (f_timestamp f) (f_audioSupported f)
                  (f_currentTime f) g.

(** One firing of the interval timer.  [passes] bounds the passes of the
    loop; [None]: the loop has not ended within the bound. *)
Definition schedulerTick (passes : nat) (now : float) (draws : nat -> Draws)
  (g : Game) : option Game :=
  match timerIDRef g with
  | None => Some g
  | Some bpm =>
      match scheduler passes now bpm draws 0%nat g with
      | Some (g1, _) => Some g1
      | None => None
      end
  end.

Inductive Event :=
| Frame (f : FrameInput)
| Timer (passes : nat) (now : float) (draws : nat -> Draws)
| FileChosen (supported decoded : bool) (currentTime : float)
             (fileName : string)
| SourceEnded
| Activate
| Deactivate.

Definition step (e : Event) (g : Game) : option Game :=
  match e with
  | Frame f => Some (updateGame f g)
  | Timer passes now draws => schedulerTick passes now draws g
  | FileChosen supported decoded currentTime fileName =>
      Some (handleFileUpload supported decoded currentTime fileName g)
  | SourceEnded => Some (if userSourceRef g then finishGame g else g)
  | Activate =>
      Some (set_playing (set_session g 0 (comboRef g) (energyRef g)
                                     (hitNotesRef g))
                        false (gameOverCalls g))
  | Deactivate =>
      Some (set_audio g false (analyserRef g) None (userSourceRef g)
                      (userAudioBufferRef g))
  end.

Fixpoint run (events : list Event) (g : Game) : option Game :=
  match events with
  | [] => Some g
  | e :: rest =>
      match step e g with
      | Some g1 => run rest g1
      | None => None
      end
  end.

Definition reachable (g : Game) : Prop :=
  exists events, run events initialGame = Some g.

End Saber.

(** * The menu cursor of [App.tsx] *)

Module App.

Record Window := mkWindow { innerWidth : Q; innerHeight : Q }.

(** [cursorSmoothRef] *)
Record Cursor := mkCursor { c_x : Q; c_y : Q }.

Definition initialCursor : Cursor := mkCursor (5 # 10) (5 # 10).

(** The choice of the hand: the right index when it is visible, else the
    left index when that one is. *)
Definition activeHand (l20 l19 : Landmark) : option Landmark :=
  if visible l20 then Some l20
  else if visible l19 then Some l19
  else None.

Definition smoothing : Q := 2 # 10.

Definition smoothCursor (w : Window) (hand : Landmark) (c : Cursor) : Cursor :=
  let targetX := ((1 - lm_x hand) * innerWidth w)%Q in
  let targetY := (lm_y hand * innerHeight w)%Q in
  mkCursor (c_x c + (targetX - c_x c) * smoothing)%Q
           (c_y c + (targetY - c_y c) * smoothing)%Q.

(** The cursor part of [updateMotionControl]; [pose] is
    [(landmarks[20], landmarks[19])] when a pose was found. *)
Definition updateCursor (w : Window) (pose : option (Landmark * Landmark))
  (c : Cursor) : Cursor :=
  match pose with
  | Some (l20, l19) =>
      match activeHand l20 l19 with
      | Some hand => smoothCursor w hand c
      | None => c
      end
  | None => c
  end.

Section Hover.

(** The type of targets: a game type on the menu, an action on the
    game-over screen. *)
Variable T : Type.
Variable T_eqb : T -> T -> bool.

(** The hovered item ([hoveredGame] or [hoveredAction]), the shared
    [hoverStartTimeRef] and the [hoverProgress] shown on the cursor. *)
Record Hover := mkHover {
  currentItem : option T;
  hoverStartTimeRef : option Q;
  hoverProgress : Q
}.

Definition idle : Hover := mkHover None None 0.

Definition dwell : Q := 1500.

(** [Math.min((elapsed / 1500) * 100, 100)] *)
Definition progressOf (elapsed : Q) : Q := Qmin ((elapsed / dwell) * 100) 100.

Definition same_item (newItem : T) (current : option T) : bool :=
  match current with
  | Some c => T_eqb newItem c
  | None => false
  end.

(** [if (hoverStartTimeRef.current)]: [null] and [0] are falsy. *)
Definition started (h : Hover) : option Q :=
  match hoverStartTimeRef h with
  | Some t => if Qeq_bool t 0 then None else Some t
  | None => None
  end.

(** What one call of [handleHoverLogic] does: the state it leaves, the
    argument of the [onComplete] call if it made one, and the values it
    passed to [setHoverProgress], in order. *)
Record HoverStep := mkStep {
  after : Hover;
  completed : option T;
  shown : list Q
}.

(** [handleHoverLogic]; [now] is [performance.now()]. *)
Definition handleHoverLogic (now : Q) (newItem : T) (h : Hover) : HoverStep :=
  if same_item newItem (currentItem h) then
    match started h with
    | Some start =>
        let elapsed := (now - start)%Q in
        let progress := progressOf elapsed in
        if Qge_bool progress 100
        then mkStep (mkHover None None 0) (Some newItem) [progress; 0%Q]
        else mkStep (mkHover (currentItem h) (hoverStartTimeRef h) progress)
                    None [progress]
    | None => mkStep h None []
    end
  else mkStep (mkHover (Some newItem) (Some now) 0) None [0%Q].

Definition resetHoverLogic (h : Hover) : Hover :=
  match currentItem h with
  | Some _ => mkHover None None 0
  | None => h
  end.

(** A hover run: successive calls with one candidate at the given clock
    values.  The trace has the final state and, in order, the completions
    and the progress values shown. *)
Record HoverTrace := mkTrace {
  final : Hover;
  commits : list T;
  progresses : list Q
}.

Fixpoint hoverRun (c : T) (times : list Q) (h : Hover) : HoverTrace :=
  match times with
  | [] => mkTrace h [] []
  | now :: rest =>
      let s := handleHoverLogic now c h in
      let t := hoverRun c rest (after s) in
      mkTrace (final t)
              (match completed s with
               | Some d => d :: commits t
               | None => commits t
               end)
              (shown s ++ progresses t)
  end.

(** What one pass of [updateMotionControl] finds on a screen: no pose at
    all (or a video that has not started), a pose without a visible index
    finger, or a cursor, with the target it lies over, if any. *)
Inductive Pointing :=
| NoPose
| NoHand
| Over (target : option T).

(** The hover part of one pass, on a screen whose other hover state is
    [null]. *)
Definition pointStep (now : Q) (p : Pointing) (h : Hover) : HoverStep :=
  match p with
  | NoPose => mkStep h None []
  | Over (Some target) => handleHoverLogic now target h
  | Over None | NoHand =>
      mkStep (resetHoverLogic h) None
             (match currentItem h with
              | Some _ => [0%Q]
              | None => []
              end)
  end.

(** Successive passes; the completions come with their clock values. *)
Fixpoint pointRun (passes : list (Q * Pointing)) (h : Hover)
  : Hover * list (Q * T) :=
  match passes with
  | [] => (h, [])
  | (now, p) :: rest =>
      let s := pointStep now p h in
      let (h', cs) := pointRun rest (after s) in
      (h', match completed s with
           | Some d => (now, d) :: cs
           | None => cs
           end)
  end.

End Hover.

End App.

(** * Definitions used to state the properties *)

Import Saber.

Local Open Scope Q_scope.

(** The table of the specification, read as a function of the accuracy. *)
Definition gradeByAccuracy (a : Q) : Grade :=
  if Qle_bool (90 # 100) a then SSS
  else if Qle_bool (85 # 100) a then SS
  else if Qle_bool (75 # 100) a then S
  else if Qle_bool (60 # 100) a then A
  else if Qle_bool (45 # 100) a then B
  else C.

(** The refs a level start is meant to reset. *)
Definition freshSession (g : Game) : Prop :=
  scoreRef g = 0%Z /\ comboRef g = 0%Z /\ energyRef g = 50%Z
  /\ hitNotesRef g = 0%Z /\ totalNotesRef g = 0%Z
  /\ blocksRef g = [] /\ obstaclesRef g = [].

(** Refs as a finished session can leave them: a score, little energy,
    twelve notes cut out of twenty. *)
Definition afterSession : Game :=
  set_session (set_entities initialGame 20 [] []) 1200 0 2 12.

Definition Grade_eqb (a b : Grade) : bool :=
  match a, b with
  | SSS, SSS | SS, SS | S, S | A, A | B, B | C, C | D, D => true
  | _, _ => false
  end.

(** The rational and the binary64 grade agree for all counters
    [hitNotes <= totalNotes <= n]. *)
Definition gradesAgreeUpTo (n : nat) : bool :=
  forallb (fun t =>
    forallb (fun h =>
      Grade_eqb (gradeOfFloat (Z.of_nat h) (Z.of_nat t))
                (gradeOf (Z.of_nat h) (Z.of_nat t)))
      (seq 0 (Datatypes.S t)))
    (seq 0 (Datatypes.S n)).

(** A pose of 33 landmarks, all equal to [l]. *)
Definition uniformPose (l : Landmark) : list Landmark := repeat l 33.

(** The hand a regular note has to be cut with: red is the left one. *)
Definition requiredHand (c : BlockColor) (g : Game) : SaberState :=
  match c with
  | red => leftHandRef g
  | blue => rightHandRef g
  end.

(** Whether [hand] is within reach of [block] (depth already advanced). *)
Definition withinReach (cv : Canvas) (block : SaberBlock) (hand : SaberState)
  : bool :=
  let proj := blockProjection cv block in
  hitCheck proj (BLOCK_SIZE * p_scale proj) hand.

(** A note after its depth advanced by one tick. *)
Definition advanced (block : SaberBlock) : SaberBlock :=
  with_z block (z block - GAME_SPEED).

(** What one callback of the note loop did to its note, read off the flags
    of the note before and after. *)
Inductive Outcome := RegularHit | HazardHit | Missed | Untouched.

Definition outcome (before after : SaberBlock) : Outcome :=
  if negb (hit before) && hit after then
    if is_bomb (type before) then HazardHit else RegularHit
  else if negb (remove before) && remove after
          && negb (hit after) && negb (is_bomb (type before))
       then Missed
       else Untouched.

(** A session on a 1920 x 1080 canvas whose left hand point is at the
    given place, the right one still at its initial place. *)
Definition hd : Canvas := mkCanvas 1920 1080.

Definition withLeftHand (g : Game) (hx hy : Q) : Game :=
  set_tracking g (mkHand hx hy [(hx, hy)] (0, 0) 0) (rightHandRef g)
               (headRef g) (bodyRef g).

(** A note of the given colour and type on lane (2, 0) at depth [depth]. *)
Definition noteAt (c : BlockColor) (t : BlockType) (depth : Q) : SaberBlock :=
  mkBlock "n" 2 0 depth c t DOT false None false.

(** The effect on the refs of a penalty (hazard hit, miss) and of a cut. *)
Definition penalised (g : Game) (penalty : Z) : Game :=
  let g1 := set_session g (scoreRef g) 0 (Z.max 0 (energyRef g - penalty))
                        (hitNotesRef g) in
  if (energyRef g1 <=? 0)%Z then finishGame g1 else g1.

Definition rewarded (g : Game) : Game :=
  set_session g
    (scoreRef g + (100 + (if comboRef g >? 10 then 10 else 0)))%Z
    (comboRef g + 1)%Z (Z.min 100 (energyRef g + 4)) (hitNotesRef g + 1)%Z.

(** The regular notes of a list that have not been cut yet. *)
Definition pendingNote (b : SaberBlock) : Z :=
  if negb (hit b) && negb (is_bomb (type b)) then 1%Z else 0%Z.

Fixpoint pendingNotes (bs : list SaberBlock) : Z :=
  match bs with
  | [] => 0%Z
  | b :: rest => (pendingNote b + pendingNotes rest)%Z
  end.

(** Every cut note and every regular note still in flight has been
    counted in [totalNotesRef]. *)
Definition notesAccounted (g : Game) : Prop :=
  (0 <= hitNotesRef g)%Z
  /\ (hitNotesRef g + pendingNotes (blocksRef g) <= totalNotesRef g)%Z.

(** ** The subdivisions of a run *)

(** The nominal time of subdivision number [k] of a run whose first note
    time was [t0], on the exact grid [t0 + k * 0.25 * 60 / bpm]. *)
Definition nominal (t0 : Q) (bpm : Z) (k : nat) : Q :=
  t0 + inject_Z (Z.of_nat k) * ((25 # 100) * (60 / inject_Z bpm)).

(** The note time of subdivision number [k] as the loop computes it: [k]
    additions of the increment to [t0], each rounded to binary64. *)
Fixpoint noteTime (t0 : float) (bpm : Z) (k : nat) : float :=
  match k with
  | O => t0
  | Datatypes.S k' => (noteTime t0 bpm k' + subdivision bpm)%float
  end.

(** Subdivision number [j] is due at the clock value [now]: its note time
    is below [now + scheduleAhead], a binary64 sum. *)
Definition due (t0 : float) (bpm : Z) (now : float) (j : nat) : bool :=
  PrimFloat.ltb (noteTime t0 bpm j) (now + scheduleAhead)%float.

(** At [now] the [n] subdivisions from number [k] on are due and the next
    one is not. *)
Definition drains (t0 : float) (bpm : Z) (now : float) (k n : nat) : Prop :=
  (forall j, (j < n)%nat -> due t0 bpm now (k + j) = true)
  /\ due t0 bpm now (k + n) = false.

(** The scheduler clock stands at subdivision number [k]. *)
Definition onGrid (t0 : float) (bpm : Z) (k : nat) (g : Game) : Prop :=
  nextNoteTimeRef g = noteTime t0 bpm k
  /\ current16thNoteRef g = (Z.of_nat k mod 16)%Z.

(** [e] is what the loop emits for subdivision number [k]. *)
Definition isInstance (t0 : float) (bpm : Z) (k : nat) (e : Emitted) : Prop :=
  e_beat e = (Z.of_nat k mod 16)%Z
  /\ e_time e = noteTime t0 bpm k
  /\ e_sounds e = schedulerSounds (e_beat e) (e_time e).

(** [es] are the subdivisions number [k], [k + 1], ... in this order, each
    once. *)
Fixpoint instancesFrom (t0 : float) (bpm : Z) (k : nat) (es : list Emitted)
  : Prop :=
  match es with
  | [] => True
  | e :: rest =>
      isInstance t0 bpm k e /\ instancesFrom t0 bpm (Datatypes.S k) rest
  end.

(** A firing of the interval timer: a bound on the passes of its loop, the
    audio clock value it reads and its random draws. *)
Definition Firing : Type := nat * float * (nat -> Draws).

(** Successive firings; the emissions are collected in order.  [None]: the
    loop of some firing has not ended within its bound. *)
Fixpoint schedulerCalls (bpm : Z) (calls : list Firing) (g : Game)
  : option (Game * list Emitted) :=
  match calls with
  | [] => Some (g, [])
  | (passes, now, draws) :: rest =>
      match scheduler passes now bpm draws 0%nat g with
      | Some (g1, es1) =>
          match schedulerCalls bpm rest g1 with
          | Some (g2, es2) => Some (g2, es1 ++ es2)
          | None => None
          end
      | None => None
      end
  end.

(** From subdivision number [k] on, the firings drain [ns] subdivisions
    each, every loop ending within its bound. *)
Fixpoint callsDrain (t0 : float) (bpm : Z) (k : nat) (calls : list Firing)
  (ns : list nat) : Prop :=
  match calls, ns with
  | [], [] => True
  | (passes, now, _) :: rest, n :: ns' =>
      (n <= passes)%nat /\ drains t0 bpm now k n
      /\ callsDrain t0 bpm (k + n) rest ns'
  | _, _ => False
  end.

(** ** Hover runs *)

(** The state of a cursor that has been dwelling on [c] since [s], with
    progress [p] shown. *)
Definition tracking {T : Type} (c : T) (s p : Q) : App.Hover T :=
  App.mkHover T (Some c) (Some s) p.

(** Clock values that never go back: [t <= t1 <= t2 <= ...]. *)
Fixpoint nondecreasingFrom (t : Q) (ts : list Q) : Prop :=
  match ts with
  | [] => True
  | u :: rest => t <= u /\ nondecreasingFrom u rest
  end.

(** The targets of the game-over screen. *)
Inductive Action := RETRY | MENU.

Definition Action_eqb (a b : Action) : bool :=
  match a, b with
  | RETRY, RETRY | MENU, MENU => true
  | _, _ => false
  end.

(** ** Concrete inputs *)

(** Random draws that spawn nothing optional: no extra note, no wall. *)
Definition quietDraws : Draws := mkDraws "a" 0 0 "b" 0 1 0 "w".

(** A pose whose landmarks all sit at (1/2, 1/4) with full visibility: on
    the 1920 x 1080 canvas both index fingers are at (960, 270), over the
    first track card. *)
Definition hoverPose : list Landmark :=
  uniformPose (mkLandmark (1 # 2) (1 # 4) (Some 1)).

(** An animation frame at [t] ms on that canvas. *)
Definition frameAt (t : Q) (pose : option (list Landmark)) : Event :=
  Frame (mkFrame hd t t pose [] quietDraws true 0).

(** The menu is still dwelling on the first track since 1000 ms and no
    level was started nor the file dialog opened. *)
Definition stillDwelling (g : option Game) : bool :=
  match g with
  | Some g =>
      same_id (hoveredTrackIdRef g) "track_1"
      && Qeq_bool (hoverStartTimeRef g) 1000
      && negb (isPlayingRef g)
      && String.eqb (currentTrackName g) ""
      && Nat.eqb (fileClicks g) 0
  | None => false
  end.

(** Random draws that add a wall on the left at the first subdivision of a
    bar, and nothing else optional. *)
Definition wallDraws : Draws := mkDraws "a" 0 0 "b" 0 (1 # 100) 1 "w".

(** A pose leaning to one side: shoulders at 0.7, so the mirrored body
    position is 0.3; the hands are not visible. *)
Definition leanPose : list Landmark :=
  uniformPose (mkLandmark (7 # 10) (1 # 4) (Some 0)).

(** A session on the first track.  The track is chosen by dwelling on its
    card; a late timer firing spawns six notes at once; ten frames later
    another firing spawns three more notes and a wall; nobody cuts
    anything; in the frame in which the first six notes expire the player
    leans into the wall. *)
Definition wallAfterMisses : list Event :=
  [Activate; frameAt 1000 (Some hoverPose); frameAt 2500 (Some hoverPose);
   Timer 30 3.5 (fun _ => quietDraws)]
  ++ repeat (frameAt 3000 None) 10
  ++ [Timer 30 5 (fun _ => wallDraws)]
  ++ repeat (frameAt 3000 None) 160
  ++ [frameAt 3000 (Some leanPose)].

(** A pose with both index fingers at (1280, 691.2) on the 1920 x 1080
    canvas, where the note of lane (2, 0) is drawn at depth 200. *)
Definition cutPose : list Landmark :=
  uniformPose (mkLandmark (1 # 3) (16 # 25) (Some 1)).

(** A session in which the first note of the first track is cut. *)
Definition cutOneNote : list Event :=
  [Activate; frameAt 1000 (Some hoverPose); frameAt 2500 (Some hoverPose);
   Timer 30 0x1.ccccccccccccdp-2 (fun _ => quietDraws)]
  ++ repeat (frameAt 3000 None) 149
  ++ [frameAt 3000 (Some cutPose)].

(** A session on an uploaded track in which the analysis never triggers a
    note (no frame is even drawn) and the track plays to its end. *)
Definition silentUpload : list Event :=
  [Activate; FileChosen true true 0 "song.mp3"; SourceEnded].

(** An animation frame at [t] ms in a browser that cannot give a new audio
    context. *)
Definition frameWithoutAudio (t : Q) (pose : option (list Landmark)) : Event :=
  Frame (mkFrame hd t t pose [] quietDraws false 0).

(** Both index fingers at (960, 380), over the second track card. *)
Definition hoverPose2 : list Landmark :=
  uniformPose (mkLandmark (1 # 2) (19 # 54) (Some 1)).

(** A session in a browser that never gives an audio context: the player
    dwells on the first track card, then on the second. *)
Definition neverAudio : list Event :=
  [Activate; frameWithoutAudio 1000 (Some hoverPose);
   frameWithoutAudio 2500 (Some hoverPose);
   frameWithoutAudio 3000 (Some hoverPose2);
   frameWithoutAudio 4500 (Some hoverPose2)].

(** The component is never deactivated in [events]. *)
Definition noDeactivate (events : list Event) : bool :=
  forallb (fun e => match e with
                    | Deactivate => false
                    | _ => true
                    end) events.

(** Either an audio context exists, or nothing has touched the session
    yet: no level was started, no timer armed, no track loaded. *)
Definition audioOrPristine (g : Game) : Prop :=
  audioCtxRef g = true
  \/ (freshSession g /\ timerIDRef g = None /\ userAudioBufferRef g = false).

(** * Definitions used to state further properties *)

(** ** Invariants of a session *)

(** Energy never above 100, combo between 0 and the notes cut, score
    between 0 and 110 per note cut. *)
Definition sessionBounds (g : Game) : Prop :=
  (energyRef g <= 100)%Z
  /\ (0 <= comboRef g <= hitNotesRef g)%Z
  /\ (0 <= scoreRef g <= 110 * hitNotesRef g)%Z.

(** An active note as the game makes them: a regular note, red on column
    1 or blue on column 2, on row 0 to 2, not marked for removal, between
    the removal depth and the spawn depth. *)
Definition noteOK (b : SaberBlock) : Prop :=
  remove b = false
  /\ type b = normal
  /\ ((gridX b = 1%Z /\ color b = red) \/ (gridX b = 2%Z /\ color b = blue))
  /\ (0 <= gridY b <= 2)%Z
  /\ -250 <= z b /\ z b <= SPAWN_Z.

(** An active obstacle as the game makes them: a side wall, not marked for
    removal, between its removal depth and the spawn depth. *)
Definition obstacleOK (o : Obstacle) : Prop :=
  o_remove o = false
  /\ o_type o <> WALL_TOP
  /\ -500 <= o_z o /\ o_z o <= SPAWN_Z.

Definition historyBounded (h : SaberState) : Prop :=
  (List.length (history h) <= 6)%nat.

(** The timer, when it runs, runs at a positive tempo, and the 16th-note
    counter is a position in the bar. *)
Definition clockOK (g : Game) : Prop :=
  (0 <= current16thNoteRef g < 16)%Z
  /\ forall bpm, timerIDRef g = Some bpm -> (0 < bpm)%Z.

Definition sane (g : Game) : Prop :=
  sessionBounds g
  /\ Forall noteOK (blocksRef g)
  /\ Forall obstacleOK (obstaclesRef g)
  /\ historyBounded (leftHandRef g)
  /\ historyBounded (rightHandRef g)
  /\ (List.length (bassHistoryRef g) <= 30)%nat
  /\ clockOK g.

(** The refs other than the session counters and the bookkeeping of
    audio, menu and game-over calls. *)
Definition rest (g : Game) :=
  (blocksRef g, obstaclesRef g, leftHandRef g, rightHandRef g,
   bassHistoryRef g, current16thNoteRef g, timerIDRef g).

(** ** The life of one note *)

(** The note after the callbacks of successive frames, each frame with its
    own canvas and its own state of the refs. *)
Fixpoint afterFrames (ctxs : list (Canvas * Game)) (b : SaberBlock)
  : SaberBlock :=
  match ctxs with
  | [] => b
  | (cv, g) :: rest => afterFrames rest (snd (processBlock cv g b))
  end.

(** Depth of a note that has seen [j] frames since it was spawned. *)
Definition depthAfter (j : nat) : Q :=
  SPAWN_Z - GAME_SPEED * inject_Z (Z.of_nat j).

(** ** Counting *)

(** The obstacles run into during one pass of the obstacle loop: those
    whose flag went from unhit to hit. *)
Fixpoint newCollisions (before after : list Obstacle) : Z :=
  match before, after with
  | b :: bs, a :: rest =>
      ((if negb (o_hit b) && o_hit a then 1 else 0)
       + newCollisions bs rest)%Z
  | _, _ => 0%Z
  end.

(** The subdivisions of a list that carry a note for sure, that may carry
    an extra note, and that may carry a wall. *)
Definition countBeats (p : Z -> bool) (es : list Emitted) : Z :=
  Z.of_nat (List.length (filter (fun e => p (e_beat e)) es)).

Definition noteBeat (beat : Z) : bool :=
  (beat =? 0)%Z || (beat =? 4)%Z || (beat =? 8)%Z || (beat =? 12)%Z.

Definition extraBeat (beat : Z) : bool := (beat =? 2)%Z || (beat =? 14)%Z.

Definition wallBeat (beat : Z) : bool := (beat =? 0)%Z.

(** ** Audio analysis *)

(** The mean of the ten lowest frequency bins. *)
Definition bassOf (freq : list Q) : Q :=
  Qsum (map (fun i => nth i freq 0) (seq 0 10)) / 10.

(** An uploaded track has started and one silent spectrum was analysed. *)
Definition afterSilence : Game :=
  analyzeAndSpawn [] 0 quietDraws
    (handleFileUpload true true 0 "song.mp3" initialGame).

(** A spectrum whose ten lowest bins are at 200. *)
Definition loud : list Q := repeat 200 10.

(** ** The track menu *)

(** The card the menu takes as hovered: the last one, in list order, that
    lies under either hand. *)
Fixpoint lastHovered (cv : Canvas) (l r : SaberState) (idx : nat)
  (tracks : list Track) (acc : option string) : option string :=
  match tracks with
  | [] => acc
  | t :: rest =>
      lastHovered cv l r (Datatypes.S idx) rest
        (if cardHovered cv idx l || cardHovered cv idx r
         then Some (t_id t) else acc)
  end.

(** What a card callback leaves alone when it commits nothing. *)
Definition untouched (g g' : Game) : Prop :=
  fileClicks g' = fileClicks g
  /\ hoverStartTimeRef g' = hoverStartTimeRef g
  /\ isPlayingRef g' = isPlayingRef g
  /\ currentTrackName g' = currentTrackName g.

(** The states after each of a series of animation frames. *)
Fixpoint framesFrom (fs : list FrameInput) (g : Game) : list Game :=
  match fs with
  | [] => []
  | f :: rest => let g' := updateGame f g in g' :: framesFrom rest g'
  end.

(** Both index fingers at (960, 610), over the upload card. *)
Definition uploadPose : list Landmark :=
  uniformPose (mkLandmark (1 # 2) (61 # 108) (Some 1)).

Definition menuFrame (t : Q) (pose : list Landmark) : FrameInput :=
  mkFrame hd t t (Some pose) [] quietDraws true 0.

(** The menu after the hands came to rest on the upload card at 1000 ms. *)
Definition overUpload : Game :=
  updateGame (menuFrame 1000 uploadPose) initialGame.

(** The menu after the hands came to rest on the first card at 1000 ms. *)
Definition overFirstCard : Game :=
  updateGame (menuFrame 1000 hoverPose) initialGame.

(** The menu after the file dialog was opened at 2500 ms. *)
Definition afterFileDialog : Game :=
  updateGame (menuFrame 2500 uploadPose) overUpload.

(** The hands stay on the upload card afterwards. *)
Definition lingering : list FrameInput :=
  [menuFrame 2600 uploadPose; menuFrame 3000 uploadPose;
   menuFrame 5000 uploadPose].

(** A red note on the left lane, bottom row, at depth [depth]. *)
Definition leftNote (depth : Q) : SaberBlock :=
  mkBlock "n" 1 0 depth red normal DOT false None false.

(** ** Within a level *)

(** From [g] to [g'] the interval timer is the same one, no audio buffer
    was loaded, and the score and the note counters did not go down. *)
Definition levelKept (g g' : Game) : Prop :=
  timerIDRef g' = timerIDRef g
  /\ (userAudioBufferRef g' = true -> userAudioBufferRef g = true)
  /\ (scoreRef g <= scoreRef g')%Z
  /\ (hitNotesRef g <= hitNotesRef g')%Z
  /\ (totalNotesRef g <= totalNotesRef g')%Z.

(** An uploaded track and the beat scheduler are not both in charge. *)
Definition exclusive (g : Game) : Prop :=
  userAudioBufferRef g = true -> timerIDRef g = None.

(** The events that do not start a level or reset the score. *)
Definition inLevel (e : Event) : bool :=
  match e with
  | Frame _ | Timer _ _ _ | SourceEnded | Deactivate => true
  | FileChosen _ _ _ _ | Activate => false
  end.

(** ** The menu cursor between targets *)

(** A pass that lets a dwell on [c0] go on: the cursor over [c0] again, or
    no pose found at all. *)
Definition keepsDwell (T : Type) (T_eqb : T -> T -> bool) (c0 : T)
  (pass : Q * App.Pointing T) : Prop :=
  match snd pass with
  | App.NoPose _ => True
  | App.Over _ (Some m) => T_eqb m c0 = true
  | App.Over _ None | App.NoHand _ => False
  end.

(** The passes end in an unbroken dwell on [c0] that began at [s]. *)
Definition dwellingSince (T : Type) (T_eqb : T -> T -> bool)
  (passes : list (Q * App.Pointing T)) (s : Q) (c0 : T) : Prop :=
  exists before during,
    passes = before ++ (s, App.Over T (Some c0)) :: during
    /\ Forall (keepsDwell T T_eqb c0) during.

(** The hover state agrees with the passes made so far: when it holds an
    item and a start time, the passes end in an unbroken dwell on that item
    since that time. *)
Definition tracksDwell (T : Type) (T_eqb : T -> T -> bool)
  (passes : list (Q * App.Pointing T)) (h : App.Hover T) : Prop :=
  forall c0 s,
    App.currentItem T h = Some c0 -> App.hoverStartTimeRef T h = Some s ->
    dwellingSince T T_eqb passes s c0.

(** On the game-over screen: the cursor comes to rest on RETRY, the pose
    is lost for a moment, and the cursor is found on RETRY again. *)
Definition retryPasses : list (Q * App.Pointing Action) :=
  [(1000, App.Over Action (Some RETRY)); (1800, App.NoPose Action);
   (2600, App.Over Action (Some RETRY))].

(** ** The smoothed cursor *)

(** The cursor after [n] passes of the motion loop that all find the same
    pose. *)
Fixpoint cursorAfter (n : nat) (w : App.Window)
  (pose : Landmark * Landmark) (c : App.Cursor) : App.Cursor :=
  match n with
  | O => c
  | Datatypes.S n' => App.updateCursor w (Some pose) (cursorAfter n' w pose c)
  end.

(** (4/5)^n *)
Fixpoint shrink (n : nat) : Q :=
  match n with
  | O => 1
  | Datatypes.S n' => (4 # 5) * shrink n'
  end.

(** The point of the window a hand landmark stands for (mirrored). *)
Definition targetOf (w : App.Window) (hand : Landmark) : Q * Q :=
  ((1 - lm_x hand) * App.innerWidth w, lm_y hand * App.innerHeight w).

(** A right index finger in full view at (1/4, 1/2), the left one hidden. *)
Definition steadyPose : Landmark * Landmark :=
  (mkLandmark (1 # 4) (1 # 2) (Some 1), mkLandmark 0 0 None).


(** * Properties *)

(** ** Boolean comparisons *)

Lemma Qlt_bool_iff (a b : Q) : Qlt_bool a b = true <-> a < b.
Proof.
  unfold Qlt_bool. rewrite negb_true_iff.
  split; intro H.
  - apply Qnot_le_lt. intro Hle. apply Qle_bool_iff in Hle. congruence.
  - destruct (Qle_bool b a) eqn:E; [|reflexivity].
    apply Qle_bool_iff in E. exfalso. apply (Qlt_not_le a b); assumption.
Qed.

Lemma Qlt_bool_false (a b : Q) : Qlt_bool a b = false <-> b <= a.
Proof.
  unfold Qlt_bool. rewrite negb_false_iff. apply Qle_bool_iff.
Qed.

Lemma Qgt_bool_iff (a b : Q) : Qgt_bool a b = true <-> b < a.
Proof. apply Qlt_bool_iff. Qed.

Lemma Qgt_bool_false (a b : Q) : Qgt_bool a b = false <-> a <= b.
Proof. apply Qlt_bool_false. Qed.

Lemma Qge_bool_iff (a b : Q) : Qge_bool a b = true <-> b <= a.
Proof. apply Qle_bool_iff. Qed.

Lemma Qge_bool_false (a b : Q) : Qge_bool a b = false <-> a < b.
Proof.
  unfold Qge_bool. split; intro H.
  - apply Qnot_le_lt. intro Hle. apply Qle_bool_iff in Hle. congruence.
  - destruct (Qle_bool b a) eqn:E; [|reflexivity].
    apply Qle_bool_iff in E. exfalso. apply (Qlt_not_le a b); assumption.
Qed.

(** Case analysis on a boolean comparison, leaving the order fact. *)
Ltac qcases :=
  repeat match goal with
  | |- context [Qge_bool ?a ?b] =>
      let E := fresh "E" in
      destruct (Qge_bool a b) eqn:E;
      [apply Qge_bool_iff in E | apply Qge_bool_false in E]
  | |- context [Qgt_bool ?a ?b] =>
      let E := fresh "E" in
      destruct (Qgt_bool a b) eqn:E;
      [apply Qgt_bool_iff in E | apply Qgt_bool_false in E]
  | |- context [Qlt_bool ?a ?b] =>
      let E := fresh "E" in
      destruct (Qlt_bool a b) eqn:E;
      [apply Qlt_bool_iff in E | apply Qlt_bool_false in E]
  end.

(** ** Grade *)

(** Exact arithmetic loses nothing here: for every session of up to 300
    regular notes the grade computed on binary64 numbers is the grade
    computed on rationals.  In particular 9/10 and 17/20, rounded, meet the
    rounded thresholds 0.90 and 0.85. *)
Lemma grade_rounding_harmless : gradesAgreeUpTo 300 = true.
Proof. vm_compute. reflexivity. Qed.

(** C3, as stated, fails for a session in which no regular note was
    spawned: [finishGame] then reports the grade D, which the table of the
    specification never yields.  An uploaded track that plays to its end
    without triggering a note is such a session. *)
Lemma grade_without_notes_is_D :
  gradeOf 0 0 = D
  /\ (forall a, gradeByAccuracy a <> D)
  /\ option_map gameOverCalls (run silentUpload initialGame)
     = Some [(0%Z, D)].
Proof.
  split; [reflexivity|]. split; [|reflexivity].
  intro a. unfold gradeByAccuracy.
  repeat match goal with
         | |- context [Qle_bool ?u ?v] => destruct (Qle_bool u v)
         end; discriminate.
Qed.

(** C3 (amended): when at least one regular note was spawned, the grade
    follows the thresholds on accuracy = hitNotes / totalNotes: SSS from
    0.90, SS on [0.85, 0.90), S on [0.75, 0.85), A on [0.60, 0.75), B on
    [0.45, 0.60), C below 0.45; without any note the grade is D. *)
Theorem grade_thresholds (hitNotes totalNotes : Z) :
  (0 < totalNotes)%Z ->
  let a := accuracy hitNotes totalNotes in
  (gradeOf hitNotes totalNotes = SSS <-> 90 # 100 <= a)
  /\ (gradeOf hitNotes totalNotes = SS <-> 85 # 100 <= a /\ a < 90 # 100)
  /\ (gradeOf hitNotes totalNotes = S <-> 75 # 100 <= a /\ a < 85 # 100)
  /\ (gradeOf hitNotes totalNotes = A <-> 60 # 100 <= a /\ a < 75 # 100)
  /\ (gradeOf hitNotes totalNotes = B <-> 45 # 100 <= a /\ a < 60 # 100)
  /\ (gradeOf hitNotes totalNotes = C <-> a < 45 # 100)
  /\ gradeOf hitNotes 0 = D.
Proof.
  intros Ht a. unfold gradeOf.
  assert (Hgt : (totalNotes >? 0)%Z = true) by (apply Z.gtb_lt; lia).
  rewrite Hgt. fold a. cbn [Z.gtb Z.compare].
  qcases; repeat split; intros; try discriminate; try reflexivity;
    try lra;
    repeat match goal with H : _ /\ _ |- _ => destruct H end; lra.
Qed.

Lemma grade_thresholds_witness :
  (0 < 10)%Z /\ gradeOf 9 10 = SSS /\ (0 < 20)%Z /\ gradeOf 17 20 = SS.
Proof.
  assert (H10 : (0 < 10)%Z) by reflexivity.
  assert (H20 : (0 < 20)%Z) by reflexivity.
  destruct (grade_thresholds 9 10 H10) as [HSSS _].
  destruct (grade_thresholds 17 20 H20) as [_ [HSS _]].
  split; [exact H10|]. split; [|split; [exact H20|]].
  - apply HSSS. vm_compute. discriminate.
  - apply HSS. split; vm_compute; [discriminate | reflexivity].
Defined.

(** ** Tracked points *)

(** C6, as stated, fails on both counts.  In the Saber game a confident
    joint moves the hand point onto the target at once: no factor below 1
    gives the new position.  And a confidence of exactly 0.5 does not move
    the menu cursor. *)
Lemma tracked_point_counterexample :
  let l := mkLandmark (1 # 2) (1 # 2) (Some 1) in
  let h := updateHand (mkCanvas 100 100) (uniformPose l) 19 initialHand in
  let half := mkLandmark (1 # 4) (1 # 4) (Some (5 # 10)) in
  let c := App.updateCursor (App.mkWindow 100 100) (Some (half, half))
                            App.initialCursor in
  (x h == 50
   /\ forall alpha, alpha < 1 ->
        ~ x h == x initialHand + (50 - x initialHand) * alpha)
  /\ (c = App.initialCursor
      /\ forall alpha, 0 < alpha ->
           ~ App.c_x c == App.c_x App.initialCursor
                          + (75 - App.c_x App.initialCursor) * alpha).
Proof.
  cbv zeta. split; split.
  - vm_compute. reflexivity.
  - intros alpha Ha H.
    assert (Hx : x (updateHand (mkCanvas 100 100)
                     (uniformPose (mkLandmark (1 # 2) (1 # 2) (Some 1)))
                     19 initialHand) == 50) by (vm_compute; reflexivity).
    rewrite Hx in H. cbn [x initialHand] in H. lra.
  - reflexivity.
  - intros alpha Ha H. cbn in H. lra.
Qed.

(** C6 (amended): a joint counts as confident when its visibility is
    strictly above 0.5.  The menu cursor then moves by exponential smoothing
    with factor 0.2 towards the mirrored target of the right index, or of
    the left index when only that one is confident; the Saber hand point is
    set to the mirrored target itself, without smoothing.  With no confident
    joint, or no pose, the stored position is unchanged. *)
Theorem tracked_point_update (w : App.Window) (c : App.Cursor)
  (l20 l19 : Landmark) (cv : Canvas) (lm : list Landmark) (idx : nat)
  (l : Landmark) (ref : SaberState) :
  nth_error lm idx = Some l ->
  (forall j v, lm_visibility j = Some v -> (visible j = true <-> 5 # 10 < v))
  /\ (forall j, lm_visibility j = None -> visible j = false)
  /\ App.smoothing < 1
  /\ (visible l20 = true ->
      App.updateCursor w (Some (l20, l19)) c =
      App.mkCursor
        (App.c_x c + ((1 - lm_x l20) * App.innerWidth w - App.c_x c) * (2 # 10))
        (App.c_y c + (lm_y l20 * App.innerHeight w - App.c_y c) * (2 # 10)))
  /\ (visible l20 = false -> visible l19 = true ->
      App.updateCursor w (Some (l20, l19)) c =
      App.mkCursor
        (App.c_x c + ((1 - lm_x l19) * App.innerWidth w - App.c_x c) * (2 # 10))
        (App.c_y c + (lm_y l19 * App.innerHeight w - App.c_y c) * (2 # 10)))
  /\ (visible l20 = false -> visible l19 = false ->
      App.updateCursor w (Some (l20, l19)) c = c)
  /\ App.updateCursor w None c = c
  /\ (visible l = true ->
      x (updateHand cv lm idx ref) = (1 - lm_x l) * width cv
      /\ y (updateHand cv lm idx ref) = lm_y l * height cv)
  /\ (visible l = false -> updateHand cv lm idx ref = ref)
  /\ (forall g, updateTracking cv None g = g).
Proof.
  intro Hl.
  split; [|split; [|split; [|split; [|split; [|split; [|split;
    [|split; [|split]]]]]]]].
  - intros j v Hv. unfold visible. rewrite Hv. apply Qgt_bool_iff.
  - intros j Hv. unfold visible. rewrite Hv. reflexivity.
  - reflexivity.
  - intro H20. unfold App.updateCursor, App.activeHand. rewrite H20.
    reflexivity.
  - intros H20 H19. unfold App.updateCursor, App.activeHand.
    rewrite H20, H19. reflexivity.
  - intros H20 H19. unfold App.updateCursor, App.activeHand.
    rewrite H20, H19. reflexivity.
  - reflexivity.
  - intro Hv. unfold updateHand. rewrite Hl, Hv. split; reflexivity.
  - intro Hv. unfold updateHand. rewrite Hl, Hv. reflexivity.
  - reflexivity.
Qed.

Lemma tracked_point_update_witness :
  let l := mkLandmark (1 # 4) (1 # 2) (Some (9 # 10)) in
  nth_error (uniformPose l) 19 = Some l
  /\ App.updateCursor (App.mkWindow 100 100) (Some (l, l)) App.initialCursor
     = App.mkCursor ((5 # 10) + ((1 - (1 # 4)) * 100 - (5 # 10)) * (2 # 10))
                    ((5 # 10) + ((1 # 2) * 100 - (5 # 10)) * (2 # 10))
  /\ x (updateHand (mkCanvas 100 100) (uniformPose l) 19 initialHand)
     = (1 - (1 # 4)) * 100.
Proof.
  cbv zeta.
  pose proof (tracked_point_update (App.mkWindow 100 100) App.initialCursor
                (mkLandmark (1 # 4) (1 # 2) (Some (9 # 10)))
                (mkLandmark (1 # 4) (1 # 2) (Some (9 # 10)))
                (mkCanvas 100 100)
                (uniformPose (mkLandmark (1 # 4) (1 # 2) (Some (9 # 10))))
                19 (mkLandmark (1 # 4) (1 # 2) (Some (9 # 10)))
                initialHand eq_refl) as H.
  destruct H as [_ [_ [_ [Hc [_ [_ [_ [Hh _]]]]]]]].
  split; [reflexivity|]. split.
  - exact (Hc eq_refl).
  - exact (proj1 (Hh eq_refl)).
Defined.

(** ** Judging one note *)

Lemma in_window (block : SaberBlock) :
  hit block = false ->
  HIT_WINDOW_Z_NEAR < z block -> z block < HIT_WINDOW_Z_FAR ->
  negb (hit block) && Qlt_bool (z block) HIT_WINDOW_Z_FAR
  && Qgt_bool (z block) HIT_WINDOW_Z_NEAR = true.
Proof.
  intros Hh Hn Hf. rewrite Hh.
  apply Qlt_bool_iff in Hf. apply Qgt_bool_iff in Hn.
  rewrite Hf, Hn. reflexivity.
Qed.

Lemma not_expired (block : SaberBlock) :
  HIT_WINDOW_Z_NEAR < z block -> Qlt_bool (z block) (-250) = false.
Proof.
  intro Hn. apply Qlt_bool_false. unfold HIT_WINDOW_Z_NEAR in Hn. lra.
Qed.

Lemma out_of_window_when_expired (block : SaberBlock) :
  z block < -250 ->
  negb (hit block) && Qlt_bool (z block) HIT_WINDOW_Z_FAR
  && Qgt_bool (z block) HIT_WINDOW_Z_NEAR = false.
Proof.
  intro Hz.
  assert (E : Qgt_bool (z block) HIT_WINDOW_Z_NEAR = false).
  { apply Qgt_bool_false. unfold HIT_WINDOW_Z_NEAR. lra. }
  rewrite E. apply andb_false_r.
Qed.

(** The proximity test is the comparison of the distance with 1.5 times the
    projected size, on the squares. *)
Lemma withinReach_iff (cv : Canvas) (block : SaberBlock) (hand : SaberState) :
  withinReach cv block hand = true <->
  let proj := blockProjection cv block in
  let bound := BLOCK_SIZE * p_scale proj * (15 # 10) in
  0 < bound
  /\ Qsq (x hand - p_x proj) + Qsq (y hand - p_y proj) < Qsq bound.
Proof.
  unfold withinReach, hitCheck. cbv zeta.
  rewrite andb_true_iff, !Qlt_bool_iff. reflexivity.
Qed.

(** C7: a regular note that has not been cut, whose depth after this
    tick's advance lies inside the hit window, is cut exactly when the hand
    of its colour (left for red, right for blue) is within reach.  The cut
    marks the note hit, adds 100 to the score (110 when the combo was above
    10), adds 1 to the combo (so 0 becomes 1) and to hitNotes, and adds 4
    to the energy, capped at 100.  When the required hand is out of reach
    nothing happens to the note or the session, wherever the other hand
    is. *)
Theorem regular_note_hit (cv : Canvas) (g : Game) (block : SaberBlock) :
  type block = normal -> remove block = false -> hit block = false ->
  HIT_WINDOW_Z_NEAR < z (advanced block) ->
  z (advanced block) < HIT_WINDOW_Z_FAR ->
  let g' := fst (processBlock cv g block) in
  let block' := snd (processBlock cv g block) in
  (withinReach cv (advanced block) (requiredHand (color block) g) = true ->
   hit block' = true
   /\ scoreRef g' = (scoreRef g + 100
                     + (if (comboRef g >? 10)%Z then 10 else 0))%Z
   /\ comboRef g' = (comboRef g + 1)%Z
   /\ (comboRef g = 0%Z -> comboRef g' = 1%Z)
   /\ hitNotesRef g' = (hitNotesRef g + 1)%Z
   /\ energyRef g' = Z.min 100 (energyRef g + 4)
   /\ (energyRef g' <= 100)%Z)
  /\ (withinReach cv (advanced block) (requiredHand (color block) g) = false ->
      processBlock cv g block = (g, advanced block)).
Proof.
  intros Ht Hr Hh Hn Hf g' block'. subst g' block'.
  unfold processBlock. rewrite Hr. fold (advanced block).
  assert (Hh' : hit (advanced block) = false) by exact Hh.
  assert (Ht' : type (advanced block) = normal) by exact Ht.
  unfold judgeBlock. rewrite (in_window _ Hh' Hn Hf).
  rewrite Ht'. cbn [is_bomb].
  fold (withinReach cv (advanced block) (leftHandRef g)).
  fold (withinReach cv (advanced block) (rightHandRef g)).
  change (color (advanced block)) with (color block).
  assert (Hexp : forall a, Qlt_bool (z (with_hit (advanced block) a)) (-250)
                           = false) by (intro a; apply (not_expired _ Hn)).
  split; intro Hreach.
  - destruct (color block); cbn [requiredHand is_red is_blue] in *;
      rewrite Hreach; cbn [andb];
      [ | destruct (withinReach cv (advanced block) (leftHandRef g)) ];
      unfold expireBlock; rewrite Hexp;
      cbn [fst snd hit with_hit scoreRef comboRef hitNotesRef energyRef
           set_session];
      (repeat split; try lia; intro H0; rewrite H0; reflexivity).
  - destruct (color block); cbn [requiredHand is_red is_blue] in *;
      rewrite Hreach; cbn [andb];
      unfold expireBlock; rewrite (not_expired _ Hn); reflexivity.
Qed.

Lemma regular_note_hit_witness :
  let g := withLeftHand initialGame 1349 727 in
  let block := noteAt red normal 122 in
  (HIT_WINDOW_Z_NEAR < z (advanced block)
   /\ z (advanced block) < HIT_WINDOW_Z_FAR
   /\ withinReach hd (advanced block) (requiredHand (color block) g) = true)
  /\ comboRef (fst (processBlock hd g block)) = 1%Z
  /\ energyRef (fst (processBlock hd g block)) = 54%Z.
Proof.
  cbv zeta.
  assert (Hn : HIT_WINDOW_Z_NEAR < z (advanced (noteAt red normal 122)))
    by reflexivity.
  assert (Hf : z (advanced (noteAt red normal 122)) < HIT_WINDOW_Z_FAR)
    by reflexivity.
  assert (Hreach : withinReach hd (advanced (noteAt red normal 122))
                     (requiredHand (color (noteAt red normal 122))
                                   (withLeftHand initialGame 1349 727))
                   = true) by (vm_compute; reflexivity).
  split; [repeat split; assumption|].
  destruct (regular_note_hit hd (withLeftHand initialGame 1349 727)
              (noteAt red normal 122) eq_refl eq_refl eq_refl Hn Hf)
    as [Hhit _].
  destruct (Hhit Hreach) as [_ [_ [_ [Hc [_ [He _]]]]]].
  split; [exact (Hc eq_refl) | exact He].
Defined.

(** C8: a hazard note that has not been hit, whose depth after this tick's
    advance lies inside the hit window, is hit as soon as either hand is
    within reach: it is marked hit, the energy drops by 15 (not below 0),
    the combo becomes 0, score and hitNotes stay, and when the energy has
    reached 0 the session is finished at once ([onGameOver] is called and
    the level stops playing).  With neither hand in reach nothing happens.
    A hazard note that has gone past depth -250 is only marked for removal:
    the session is left as it was. *)
Theorem hazard_note (cv : Canvas) (g : Game) (block : SaberBlock) :
  type block = bomb -> remove block = false ->
  let g' := fst (processBlock cv g block) in
  let block' := snd (processBlock cv g block) in
  let touched := withinReach cv (advanced block) (leftHandRef g)
                 || withinReach cv (advanced block) (rightHandRef g) in
  (hit block = false ->
   HIT_WINDOW_Z_NEAR < z (advanced block) ->
   z (advanced block) < HIT_WINDOW_Z_FAR ->
   (touched = true ->
    hit block' = true
    /\ energyRef g' = Z.max 0 (energyRef g - 15)
    /\ comboRef g' = 0%Z
    /\ scoreRef g' = scoreRef g
    /\ hitNotesRef g' = hitNotesRef g
    /\ ((energyRef g' <= 0)%Z ->
        isPlayingRef g' = false
        /\ gameOverCalls g' =
           (scoreRef g, gradeOf (hitNotesRef g) (totalNotesRef g))
           :: gameOverCalls g)
    /\ ((0 < energyRef g')%Z ->
        isPlayingRef g' = isPlayingRef g
        /\ gameOverCalls g' = gameOverCalls g))
   /\ (touched = false -> processBlock cv g block = (g, advanced block)))
  /\ (z (advanced block) < -250 ->
      processBlock cv g block = (g, with_remove (advanced block))).
Proof.
  intros Ht Hr g' block' touched. subst g' block' touched.
  unfold processBlock. rewrite Hr. fold (advanced block).
  assert (Ht' : type (advanced block) = bomb) by exact Ht.
  split.
  - intros Hh Hn Hf.
    assert (Hh' : hit (advanced block) = false) by exact Hh.
    unfold judgeBlock. rewrite (in_window _ Hh' Hn Hf).
    rewrite Ht'. cbn [is_bomb].
    fold (withinReach cv (advanced block) (leftHandRef g)).
    fold (withinReach cv (advanced block) (rightHandRef g)).
    split; intro Htouch; rewrite Htouch.
    + unfold expireBlock.
      assert (Hexp : forall a, Qlt_bool (z (with_hit (advanced block) a))
                                 (-250) = false)
        by (intro a; apply (not_expired _ Hn)).
      rewrite Hexp.
      cbn [fst snd hit with_hit energyRef set_session].
      destruct (Z.max 0 (energyRef g - 15) <=? 0)%Z eqn:E;
        [apply Z.leb_le in E | apply Z.leb_gt in E];
        cbn; repeat split; try reflexivity; intros; try lia.
    + unfold expireBlock. rewrite (not_expired _ Hn). reflexivity.
  - intro Hz.
    unfold judgeBlock. rewrite (out_of_window_when_expired _ Hz).
    unfold expireBlock.
    assert (E : Qlt_bool (z (advanced block)) (-250) = true)
      by (apply Qlt_bool_iff; exact Hz).
    rewrite E, Ht'. cbn [is_bomb negb]. rewrite andb_false_r. reflexivity.
Qed.

Lemma hazard_note_witness :
  let g := withLeftHand (set_session initialGame 300 3 10 3) 1349 727 in
  let block := noteAt blue bomb 122 in
  (HIT_WINDOW_Z_NEAR < z (advanced block)
   /\ z (advanced block) < HIT_WINDOW_Z_FAR
   /\ withinReach hd (advanced block) (leftHandRef g) = true)
  /\ energyRef (fst (processBlock hd g block)) = 0%Z
  /\ comboRef (fst (processBlock hd g block)) = 0%Z
  /\ isPlayingRef (fst (processBlock hd g block)) = false
  /\ processBlock hd g (noteAt blue bomb (-240))
     = (g, with_remove (advanced (noteAt blue bomb (-240)))).
Proof.
  cbv zeta.
  assert (Hn : HIT_WINDOW_Z_NEAR < z (advanced (noteAt blue bomb 122)))
    by reflexivity.
  assert (Hf : z (advanced (noteAt blue bomb 122)) < HIT_WINDOW_Z_FAR)
    by reflexivity.
  assert (Hreach : withinReach hd (advanced (noteAt blue bomb 122))
            (leftHandRef
               (withLeftHand (set_session initialGame 300 3 10 3) 1349 727))
          = true) by (vm_compute; reflexivity).
  split; [repeat split; assumption|].
  destruct (hazard_note hd
              (withLeftHand (set_session initialGame 300 3 10 3) 1349 727)
              (noteAt blue bomb 122) eq_refl eq_refl) as [Hin _].
  destruct (Hin eq_refl Hn Hf) as [Htouched _].
  assert (Htouch :
    withinReach hd (advanced (noteAt blue bomb 122))
      (leftHandRef
         (withLeftHand (set_session initialGame 300 3 10 3) 1349 727))
    || withinReach hd (advanced (noteAt blue bomb 122))
         (rightHandRef
            (withLeftHand (set_session initialGame 300 3 10 3) 1349 727))
    = true) by (rewrite Hreach; reflexivity).
  destruct (Htouched Htouch) as [_ [He [Hc [_ [_ [Hfin _]]]]]].
  split; [exact He|]. split; [exact Hc|]. split.
  - apply Hfin. rewrite He. discriminate.
  - destruct (hazard_note hd
                (withLeftHand (set_session initialGame 300 3 10 3) 1349 727)
                (noteAt blue bomb (-240)) eq_refl eq_refl) as [_ Hout].
    apply Hout. reflexivity.
Defined.

(** ** Combo *)

Lemma finishGame_session (g : Game) :
  scoreRef (finishGame g) = scoreRef g
  /\ comboRef (finishGame g) = comboRef g
  /\ energyRef (finishGame g) = energyRef g
  /\ hitNotesRef (finishGame g) = hitNotesRef g
  /\ totalNotesRef (finishGame g) = totalNotesRef g
  /\ blocksRef (finishGame g) = blocksRef g
  /\ obstaclesRef (finishGame g) = obstaclesRef g.
Proof. repeat split. Qed.

Lemma penalised_session (g : Game) (penalty : Z) :
  scoreRef (penalised g penalty) = scoreRef g
  /\ comboRef (penalised g penalty) = 0%Z
  /\ energyRef (penalised g penalty) = Z.max 0 (energyRef g - penalty)
  /\ hitNotesRef (penalised g penalty) = hitNotesRef g
  /\ totalNotesRef (penalised g penalty) = totalNotesRef g.
Proof.
  unfold penalised. cbv zeta.
  destruct (_ <=? _)%Z; repeat split.
Qed.

(** The three ways the hit-window part of the callback can go. *)
Lemma judgeBlock_cases (cv : Canvas) (g : Game) (b : SaberBlock) :
  judgeBlock cv g b = (g, b)
  \/ (hit b = false /\ type b = normal
      /\ exists a, judgeBlock cv g b = (rewarded g, with_hit b a))
  \/ (hit b = false /\ type b = bomb
      /\ judgeBlock cv g b = (penalised g 15, with_hit b (cutAngle b))).
Proof.
  unfold judgeBlock.
  destruct (hit b) eqn:Hh; [left; reflexivity|]. cbn [negb andb].
  destruct (Qlt_bool (z b) HIT_WINDOW_Z_FAR
            && Qgt_bool (z b) HIT_WINDOW_Z_NEAR);
    [|left; reflexivity].
  destruct (type b) eqn:Ht; cbn [is_bomb].
  - destruct (is_red (color b) && _); destruct (is_blue (color b) && _);
      try (left; reflexivity);
      right; left; repeat split; eexists; reflexivity.
  - destruct (_ || _); [|left; reflexivity].
    right; right. repeat split.
Qed.

(** The three ways the expiry part of the callback can go. *)
Lemma expireBlock_cases (g : Game) (b : SaberBlock) :
  expireBlock g b = (g, b)
  \/ ((hit b = true \/ type b = bomb)
      /\ expireBlock g b = (g, with_remove b))
  \/ (hit b = false /\ type b = normal
      /\ expireBlock g b = (penalised g 8, with_remove b)).
Proof.
  unfold expireBlock.
  destruct (Qlt_bool (z b) (-250)); [|left; reflexivity].
  destruct (hit b) eqn:Hh; cbn [negb andb].
  - right; left. split; [left|]; reflexivity.
  - destruct (type b) eqn:Ht; cbn [is_bomb negb].
    + right; right. repeat split.
    + right; left. split; [right|]; reflexivity.
Qed.

(** What the callback of the note loop does to the refs, by what it did
    to its note. *)
Lemma processBlock_by_outcome (cv : Canvas) (g : Game) (block : SaberBlock) :
  fst (processBlock cv g block) =
  match outcome block (snd (processBlock cv g block)) with
  | RegularHit => rewarded g
  | HazardHit => penalised g 15
  | Missed => penalised g 8
  | Untouched => g
  end.
Proof.
  unfold processBlock, outcome.
  destruct (remove block) eqn:Hr.
  - cbn [fst snd]. rewrite Hr. destruct (hit block); reflexivity.
  - set (b1 := with_z block (z block - GAME_SPEED)).
    assert (Hh1 : hit b1 = hit block) by reflexivity.
    assert (Ht1 : type b1 = type block) by reflexivity.
    assert (Hr1 : remove b1 = false) by exact Hr.
    destruct (judgeBlock_cases cv g b1)
      as [EJ | [(Hh & Ht & a & EJ) | (Hh & Ht & EJ)]]; rewrite EJ;
      [ destruct (expireBlock_cases g b1)
          as [EE | [(Hc & EE) | (Hh' & Ht' & EE)]]
      | destruct (expireBlock_cases (rewarded g) (with_hit b1 a))
          as [EE | [(Hc & EE) | (Hh' & Ht' & EE)]]
      | destruct (expireBlock_cases (penalised g 15)
                                    (with_hit b1 (cutAngle b1)))
          as [EE | [(Hc & EE) | (Hh' & Ht' & EE)]] ];
      rewrite EE; cbn [fst snd];
      cbn [hit with_hit with_remove remove negb andb is_bomb type] in *;
      try discriminate;
      rewrite <- ?Ht1, <- ?Hh1;
      repeat match goal with
             | H : hit b1 = _ |- _ => rewrite H
             | H : type b1 = _ |- _ => rewrite H
             end;
      rewrite ?Hr1; cbn [negb andb is_bomb];
      try reflexivity.
    + destruct (hit block); reflexivity.
    + destruct (hit block) eqn:E1; cbn [negb andb]; [reflexivity|].
      destruct Hc as [Hc | Hc];
        [change (hit block = true) in Hc; congruence|].
      change (type block = bomb) in Hc. rewrite Hc. reflexivity.
Qed.

(** C2: in every state of a session and for every note, the callback of
    the note loop leaves the combo at 0 when the note was missed or was a
    hazard that got hit, raises it by exactly 1 when a regular note got
    hit, and leaves it alone otherwise. *)
Theorem combo_rule (cv : Canvas) (g : Game) (block : SaberBlock) :
  let g' := fst (processBlock cv g block) in
  let block' := snd (processBlock cv g block) in
  comboRef g' =
  match outcome block block' with
  | RegularHit => (comboRef g + 1)%Z
  | HazardHit => 0%Z
  | Missed => 0%Z
  | Untouched => comboRef g
  end.
Proof.
  cbv zeta. rewrite processBlock_by_outcome.
  destruct (outcome _ _); try reflexivity; apply penalised_session.
Qed.

(** ** The note counters *)

Lemma pendingNote_range (b : SaberBlock) : (0 <= pendingNote b <= 1)%Z.
Proof. unfold pendingNote. destruct (_ && _); lia. Qed.

Lemma pendingNotes_nonneg (bs : list SaberBlock) : (0 <= pendingNotes bs)%Z.
Proof.
  induction bs as [|b rest IH]; cbn [pendingNotes]; [lia|].
  pose proof (pendingNote_range b). lia.
Qed.

Lemma pendingNotes_app (bs cs : list SaberBlock) :
  pendingNotes (bs ++ cs) = (pendingNotes bs + pendingNotes cs)%Z.
Proof.
  induction bs as [|b rest IH]; cbn [pendingNotes app]; [reflexivity|].
  rewrite IH. lia.
Qed.

Lemma pendingNotes_filter (f : SaberBlock -> bool) (bs : list SaberBlock) :
  (pendingNotes (filter f bs) <= pendingNotes bs)%Z.
Proof.
  induction bs as [|b rest IH]; cbn [pendingNotes filter]; [lia|].
  pose proof (pendingNote_range b).
  destruct (f b); cbn [pendingNotes]; lia.
Qed.

(** One callback of the note loop moves a note from "pending" to "hit" at
    most, and never touches [totalNotesRef]. *)
Lemma processBlock_counters (cv : Canvas) (g : Game) (block : SaberBlock) :
  let g' := fst (processBlock cv g block) in
  let block' := snd (processBlock cv g block) in
  (hitNotesRef g' + pendingNote block' = hitNotesRef g + pendingNote block)%Z
  /\ (hitNotesRef g <= hitNotesRef g')%Z
  /\ totalNotesRef g' = totalNotesRef g
  /\ (hit block = true -> hitNotesRef g' = hitNotesRef g)
  /\ (hit block = true -> hit block' = true).
Proof.
  cbv zeta. unfold processBlock.
  destruct (remove block) eqn:Hr; cbn [fst snd].
  - repeat split; try lia. intro H; exact H.
  - set (b1 := with_z block (z block - GAME_SPEED)).
    assert (Hp1 : pendingNote b1 = pendingNote block) by reflexivity.
    assert (Hrm : forall b, pendingNote (with_remove b) = pendingNote b)
      by reflexivity.
    rewrite <- Hp1. change (hit block) with (hit b1). clearbody b1.
    destruct (judgeBlock_cases cv g b1)
      as [EJ | [(Hh & Ht & a & EJ) | (Hh & Ht & EJ)]]; rewrite EJ.
    + destruct (expireBlock_cases g b1)
        as [EE | [(Hc & EE) | (Hh' & Ht' & EE)]]; rewrite EE; cbn [fst snd];
        rewrite ?Hrm;
        try (destruct (penalised_session g 8) as (_ & _ & _ & Hhn & Htn);
             rewrite Hhn, Htn);
        repeat split; try lia; try (intro H; exact H); congruence.
    + assert (Hw : pendingNote (with_hit b1 a) = 0%Z) by reflexivity.
      assert (Hb : pendingNote b1 = 1%Z)
        by (unfold pendingNote; rewrite Hh, Ht; reflexivity).
      destruct (expireBlock_cases (rewarded g) (with_hit b1 a))
        as [EE | [(Hc & EE) | (Hh' & Ht' & EE)]];
        try discriminate Hh'; rewrite EE; cbn [fst snd];
        rewrite ?Hrm, Hw, Hb;
        cbn [rewarded hitNotesRef totalNotesRef set_session];
        repeat split; try lia; congruence.
    + assert (Hw : pendingNote (with_hit b1 (cutAngle b1)) = 0%Z)
        by reflexivity.
      assert (Hb : pendingNote b1 = 0%Z)
        by (unfold pendingNote; rewrite Hh, Ht; reflexivity).
      destruct (penalised_session g 15) as (_ & _ & _ & Hhn & Htn).
      destruct (expireBlock_cases (penalised g 15)
                                  (with_hit b1 (cutAngle b1)))
        as [EE | [(Hc & EE) | (Hh' & Ht' & EE)]];
        try discriminate Hh'; rewrite EE; cbn [fst snd];
        rewrite ?Hrm, Hw, Hb, Hhn, Htn;
        repeat split; try lia; congruence.
Qed.

Lemma forEachBlock_counters (cv : Canvas) (blocks : list SaberBlock) :
  forall g,
  let g' := fst (forEachBlock cv g blocks) in
  let blocks' := snd (forEachBlock cv g blocks) in
  (hitNotesRef g' + pendingNotes blocks'
   = hitNotesRef g + pendingNotes blocks)%Z
  /\ (hitNotesRef g <= hitNotesRef g')%Z
  /\ totalNotesRef g' = totalNotesRef g.
Proof.
  induction blocks as [|b rest IH]; intro g; cbn [forEachBlock].
  - cbn. repeat split; lia.
  - pose proof (processBlock_counters cv g b) as Hb. cbv zeta in Hb.
    destruct (processBlock cv g b) as [g1 b1]. cbn [fst snd] in Hb.
    specialize (IH g1). cbv zeta in IH.
    destruct (forEachBlock cv g1 rest) as [g2 rest1]. cbn [fst snd] in *.
    cbn [pendingNotes].
    destruct Hb as (H1 & H2 & H3 & _). destruct IH as (I1 & I2 & I3).
    repeat split; try lia; congruence.
Qed.

Lemma forEachObstacle_counters (obstacles : list Obstacle) :
  forall g,
  let g' := fst (forEachObstacle g obstacles) in
  hitNotesRef g' = hitNotesRef g
  /\ totalNotesRef g' = totalNotesRef g
  /\ blocksRef g' = blocksRef g.
Proof.
  induction obstacles as [|o rest IH]; intro g; cbn [forEachObstacle].
  - cbn. repeat split.
  - unfold processObstacle.
    set (collide := _ && obstacleCollides g o).
    set (g1 := if collide then _ else g).
    assert (H1 : hitNotesRef g1 = hitNotesRef g
                 /\ totalNotesRef g1 = totalNotesRef g
                 /\ blocksRef g1 = blocksRef g)
      by (subst g1; destruct collide; repeat split).
    specialize (IH g1). cbv zeta in IH.
    destruct (forEachObstacle g1 rest) as [g2 rest1]. cbn [fst snd] in *.
    destruct H1 as (A & B' & C'). destruct IH as (I1 & I2 & I3).
    repeat split; congruence.
Qed.

Lemma spawnBlock_accounted (g : Game) (rid : string) (rdir : Q)
  (gx gy : Z) (c : BlockColor) (t : BlockType) :
  notesAccounted g -> notesAccounted (spawnBlock g rid rdir gx gy c t).
Proof.
  unfold notesAccounted, spawnBlock.
  cbn [hitNotesRef totalNotesRef blocksRef set_entities].
  rewrite pendingNotes_app. cbn [pendingNotes].
  intros [H0 H1]. destruct t; unfold pendingNote; cbn; lia.
Qed.

Lemma spawnWall_accounted (g : Game) (rid : string) (t : ObstacleType) :
  notesAccounted g -> notesAccounted (spawnWall g rid t).
Proof. intro H; exact H. Qed.

Lemma schedulerSpawns_accounted (beat : Z) (d : Draws) (g : Game) :
  notesAccounted g -> notesAccounted (schedulerSpawns beat d g).
Proof.
  intro H. unfold schedulerSpawns.
  repeat match goal with
         | |- context [if ?c then _ else _] => destruct c
         end;
    repeat first [ apply spawnWall_accounted
                 | apply spawnBlock_accounted ]; exact H.
Qed.

Lemma schedulerLoop_accounted (fuel : nat) (now : float) (bpm : Z)
  (draws : nat -> Draws) :
  forall i g g' es,
  notesAccounted g ->
  schedulerLoop fuel now bpm draws i g = Some (g', es) ->
  notesAccounted g'.
Proof.
  induction fuel as [|fuel IH]; intros i g g' es Hg; cbn [schedulerLoop].
  - destruct (PrimFloat.ltb _ _); [discriminate|].
    intro H; injection H as <- _. exact Hg.
  - destruct (PrimFloat.ltb _ _).
    + unfold schedulerBody.
      set (g1 := set_clock _ _ _).
      assert (H1 : notesAccounted g1)
        by (apply (schedulerSpawns_accounted (current16thNoteRef g)
                     (draws i) g Hg)).
      destruct (schedulerLoop fuel now bpm draws (Datatypes.S i) g1)
        as [[g2 es2]|] eqn:E; [|discriminate].
      intro H; injection H as <- _. exact (IH _ _ _ _ H1 E).
    + intro H; injection H as <- _. exact Hg.
Qed.

Lemma finishGame_accounted (g : Game) :
  notesAccounted g -> notesAccounted (finishGame g).
Proof. intro H; exact H. Qed.

Lemma startLevel_accounted (supported : bool) (currentTime : float) (bpm : Z)
  (name : string) (g : Game) :
  notesAccounted g ->
  notesAccounted (startLevel supported currentTime bpm name g).
Proof.
  intro H. unfold startLevel, initAudioContext.
  cbn [set_trackName audioCtxRef].
  destruct (audioCtxRef g); [|destruct supported]; cbn [negb];
    try exact H;
    cbn; destruct (userAudioBufferRef g); unfold notesAccounted; cbn; lia.
Qed.

Lemma handleFileUpload_accounted (supported decoded : bool)
  (currentTime : float)
  (name : string) (g : Game) :
  notesAccounted g ->
  notesAccounted (handleFileUpload supported decoded currentTime name g).
Proof.
  intro H. unfold handleFileUpload, initAudioContext.
  destruct (audioCtxRef g); [|destruct supported]; cbn [negb];
    try exact H; destruct decoded; try exact H;
    apply startLevel_accounted; exact H.
Qed.

Lemma analyzeAndSpawn_accounted (freq : list Q) (perfNow : Q) (d : Draws)
  (g : Game) :
  notesAccounted g -> notesAccounted (analyzeAndSpawn freq perfNow d g).
Proof.
  intro H. unfold analyzeAndSpawn.
  destruct (negb (analyserRef g)); [exact H|]. cbv zeta.
  set (g0 := set_analysis g _ _).
  assert (H0 : notesAccounted g0) by exact H.
  clearbody g0.
  destruct (Qgt_bool _ 600); [|exact H0].
  destruct (_ && _); [|exact H0].
  set (g1 := spawnBlock g0 _ _ 2 0 blue normal).
  assert (H1 : notesAccounted g1) by (apply spawnBlock_accounted; exact H0).
  clearbody g1.
  destruct (Qgt_bool (r_chance d) _).
  - pose proof (spawnBlock_accounted g1 (r_id2 d) (r_dir2 d) 1 0 red normal
                  H1) as H2.
    exact H2.
  - exact H1.
Qed.

Lemma updateLevel_accounted (cv : Canvas) (freq : list Q) (perfNow : Q)
  (d : Draws) (g : Game) :
  notesAccounted g -> notesAccounted (updateLevel cv freq perfNow d g).
Proof.
  intro H. unfold updateLevel.
  set (g0 := if userAudioBufferRef g then _ else g).
  assert (H0 : notesAccounted g0)
    by (subst g0; destruct (userAudioBufferRef g);
        [apply analyzeAndSpawn_accounted|]; exact H).
  clearbody g0.
  pose proof (forEachBlock_counters cv (blocksRef g0) g0) as Hb.
  cbv zeta in Hb.
  destruct (forEachBlock cv g0 (blocksRef g0)) as [g1 blocks].
  cbn [fst snd] in Hb. destruct Hb as (B1 & B2 & B3).
  set (g2 := set_entities g1 _ _ _).
  pose proof (forEachObstacle_counters (obstaclesRef g2) g2) as Ho.
  cbv zeta in Ho.
  destruct (forEachObstacle g2 (obstaclesRef g2)) as [g3 obstacles].
  cbn [fst snd] in Ho. destruct Ho as (O1 & O2 & O3).
  unfold notesAccounted in *.
  cbn [hitNotesRef totalNotesRef blocksRef set_entities].
  rewrite O1, O2, O3. subst g2.
  cbn [hitNotesRef totalNotesRef blocksRef set_entities].
  pose proof (pendingNotes_filter (fun b => negb (remove b)) blocks).
  lia.
Qed.

Lemma menuCard_accounted (cv : Canvas) (timestamp : Q) (supported : bool)
  (currentTime : float) (idx : nat) (track : Track)
  (st : Game * option string) :
  notesAccounted (fst st) ->
  notesAccounted
    (fst (menuCard cv timestamp supported currentTime idx track st)).
Proof.
  destruct st as [g item]. cbn [fst]. intro H. unfold menuCard.
  destruct (_ && same_id _ _); [|exact H].
  destruct (Qge_bool _ 1); [|exact H].
  assert (Hi : notesAccounted (fst (initAudioContext supported g))).
  { unfold initAudioContext.
    destruct (audioCtxRef g); [|destruct supported]; exact H. }
  destruct (initAudioContext supported g) as [g1 ok]. cbn [fst] in Hi.
  destruct (Qgt_bool _ 1600); [exact Hi|].
  destruct (t_type track); cbn [fst].
  - apply startLevel_accounted; exact Hi.
  - exact Hi.
Qed.

Lemma forEachTrack_accounted (cv : Canvas) (timestamp : Q) (supported : bool)
  (currentTime : float) (tracks : list Track) :
  forall idx st,
  notesAccounted (fst st) ->
  notesAccounted
    (fst (forEachTrack cv timestamp supported currentTime idx tracks st)).
Proof.
  induction tracks as [|t rest IH]; intros idx st H; cbn [forEachTrack].
  - exact H.
  - apply IH. apply menuCard_accounted. exact H.
Qed.

Lemma updateMenu_accounted (cv : Canvas) (timestamp : Q) (supported : bool)
  (currentTime : float) (g : Game) :
  notesAccounted g ->
  notesAccounted (updateMenu cv timestamp supported currentTime g).
Proof.
  intro H. unfold updateMenu.
  pose proof (forEachTrack_accounted cv timestamp supported currentTime
                TRACK_LIST 0 (g, None) H) as Hf.
  destruct (forEachTrack _ _ _ _ _ _ _) as [g1 item]. cbn [fst] in Hf.
  destruct item as [item|]; [destruct (same_id _ _)|]; exact Hf.
Qed.

Lemma step_accounted (e : Event) (g g' : Game) :
  notesAccounted g -> step e g = Some g' -> notesAccounted g'.
Proof.
  intros H. destruct e; cbn [step].
  - intro E; injection E as <-. unfold updateGame.
    set (g0 := updateTracking _ _ g).
    assert (H0 : notesAccounted g0)
      by (subst g0; unfold updateTracking; destruct (f_pose f); exact H).
    clearbody g0. destruct (isPlayingRef g0).
    + apply updateLevel_accounted; exact H0.
    + apply updateMenu_accounted; exact H0.
  - unfold schedulerTick. destruct (timerIDRef g) as [bpm|].
    + unfold scheduler.
      destruct (schedulerLoop _ _ _ _ _ _) as [[g1 es]|] eqn:E;
        [|discriminate].
      intro E'; injection E' as <-.
      exact (schedulerLoop_accounted _ _ _ _ _ _ _ _ H E).
    + intro E; injection E as <-. exact H.
  - intro E; injection E as <-. apply handleFileUpload_accounted; exact H.
  - intro E; injection E as <-. destruct (userSourceRef g); exact H.
  - intro E; injection E as <-. exact H.
  - intro E; injection E as <-. exact H.
Qed.

Lemma run_accounted (events : list Event) :
  forall g g', notesAccounted g -> run events g = Some g' ->
               notesAccounted g'.
Proof.
  induction events as [|e rest IH]; intros g g' H; cbn [run].
  - intro E; injection E as <-. exact H.
  - destruct (step e g) as [g1|] eqn:E; [|discriminate].
    apply IH. exact (step_accounted e g g1 H E).
Qed.

Lemma accuracy_range (h t : Z) :
  (0 <= h <= t)%Z -> (0 < t)%Z -> 0 <= accuracy h t /\ accuracy h t <= 1.
Proof.
  intros Hh Ht. unfold accuracy.
  assert (Ht' : 0 < inject_Z t)
    by (unfold Qlt, inject_Z; cbn; lia).
  assert (Hh0 : 0 <= inject_Z h)
    by (unfold Qle, inject_Z; cbn; lia).
  assert (Hht : inject_Z h <= inject_Z t)
    by (unfold Qle, inject_Z; cbn; lia).
  split.
  - apply Qle_shift_div_l; [exact Ht'|]. lra.
  - apply Qle_shift_div_r; [exact Ht'|]. lra.
Qed.

Lemma reachable_accounted (g : Game) : reachable g -> notesAccounted g.
Proof.
  intros [events Hrun].
  apply (run_accounted events initialGame g); [|exact Hrun].
  unfold notesAccounted. cbn. lia.
Qed.

(** C9: in every reachable state hitNotes lies between 0 and totalNotes,
    so the accuracy used for the grade lies in [0, 1] whenever totalNotes
    is positive.  Spawning adds 1 to totalNotes exactly for a regular note;
    a callback of the note loop adds 1 to hitNotes exactly when it cut a
    regular note and never changes totalNotes; and a note that is already
    hit stays hit and is not counted again. *)
Theorem hit_notes_bounded (g : Game) :
  reachable g ->
  (0 <= hitNotesRef g <= totalNotesRef g)%Z
  /\ ((0 < totalNotesRef g)%Z ->
      0 <= accuracy (hitNotesRef g) (totalNotesRef g)
      /\ accuracy (hitNotesRef g) (totalNotesRef g) <= 1)
  /\ (forall rid rdir gx gy c t,
      totalNotesRef (spawnBlock g rid rdir gx gy c t)
      = (totalNotesRef g + match t with normal => 1 | bomb => 0 end)%Z
      /\ hitNotesRef (spawnBlock g rid rdir gx gy c t) = hitNotesRef g)
  /\ (forall cv block,
      hitNotesRef (fst (processBlock cv g block))
      = (hitNotesRef g
         + match outcome block (snd (processBlock cv g block)) with
           | RegularHit => 1
           | _ => 0
           end)%Z
      /\ totalNotesRef (fst (processBlock cv g block)) = totalNotesRef g)
  /\ (forall cv block,
      hit block = true ->
      hitNotesRef (fst (processBlock cv g block)) = hitNotesRef g
      /\ hit (snd (processBlock cv g block)) = true).
Proof.
  intro Hreach.
  destruct (reachable_accounted g Hreach) as [H0 H1].
  pose proof (pendingNotes_nonneg (blocksRef g)) as Hp.
  assert (Hrange : (0 <= hitNotesRef g <= totalNotesRef g)%Z) by lia.
  split; [exact Hrange|].
  split; [intro Ht; apply accuracy_range; assumption|].
  split; [|split].
  - intros rid rdir gx gy c t.
    destruct t; split; cbn [spawnBlock totalNotesRef hitNotesRef set_entities];
      try reflexivity; lia.
  - intros cv block. rewrite processBlock_by_outcome.
    destruct (outcome _ _);
      try (destruct (penalised_session g 15) as (_ & _ & _ & Hh & Ht));
      try (destruct (penalised_session g 8) as (_ & _ & _ & Hh' & Ht'));
      split; cbn [rewarded hitNotesRef totalNotesRef set_session];
      try reflexivity; try lia; try assumption.
  - intros cv block Hh.
    destruct (processBlock_counters cv g block) as (_ & _ & _ & A1 & A2).
    split; [exact (A1 Hh) | exact (A2 Hh)].
Qed.

(** ** The scheduler *)

Lemma schedulerSpawns_clock (beat : Z) (d : Draws) (g : Game) :
  nextNoteTimeRef (schedulerSpawns beat d g) = nextNoteTimeRef g
  /\ current16thNoteRef (schedulerSpawns beat d g) = current16thNoteRef g.
Proof.
  unfold schedulerSpawns.
  repeat match goal with
         | |- context [if ?c then _ else _] => destruct c
         end; split; reflexivity.
Qed.

(** One pass of the loop body moves the clock one subdivision on and emits
    the subdivision it stood at. *)
Lemma schedulerBody_grid (t0 : float) (bpm : Z) (k : nat) (d : Draws)
  (g : Game) :
  onGrid t0 bpm k g ->
  onGrid t0 bpm (Datatypes.S k) (fst (schedulerBody bpm d g))
  /\ isInstance t0 bpm k (snd (schedulerBody bpm d g)).
Proof.
  intros [Ht Hb]. unfold schedulerBody. cbn [fst snd].
  destruct (schedulerSpawns_clock (current16thNoteRef g) d g) as [Cn Cb].
  split; [split|].
  - cbn [nextNoteTimeRef set_clock noteTime]. rewrite Cn, Ht. reflexivity.
  - cbn [current16thNoteRef set_clock]. rewrite Cb, Hb.
    rewrite Nat2Z.inj_succ. unfold Z.succ.
    rewrite Zplus_mod_idemp_l. reflexivity.
  - repeat split; cbn [e_beat e_time e_sounds]; assumption.
Qed.

Lemma instancesFrom_app (t0 : float) (bpm : Z) (es1 es2 : list Emitted) :
  forall k,
  instancesFrom t0 bpm k es1 ->
  instancesFrom t0 bpm (k + List.length es1) es2 ->
  instancesFrom t0 bpm k (es1 ++ es2).
Proof.
  induction es1 as [|e rest IH]; intros k H1 H2; cbn [app instancesFrom].
  - cbn [List.length] in H2. rewrite Nat.add_0_r in H2. exact H2.
  - destruct H1 as [He Hrest]. split; [exact He|].
    apply IH; [exact Hrest|].
    cbn [List.length] in H2.
    replace (Datatypes.S k + List.length rest)%nat
      with (k + Datatypes.S (List.length rest))%nat by lia.
    exact H2.
Qed.

(** The first subdivision is due and the rest follows, or none is. *)
Lemma drains_S (t0 : float) (bpm : Z) (now : float) (k n : nat) :
  drains t0 bpm now k (Datatypes.S n)
  <-> due t0 bpm now k = true /\ drains t0 bpm now (Datatypes.S k) n.
Proof.
  unfold drains. split.
  - intros [Hdue Hstop]. split; [|split].
    + rewrite <- (Nat.add_0_r k). apply Hdue. lia.
    + intros j Hj.
      replace (Datatypes.S k + j)%nat with (k + Datatypes.S j)%nat by lia.
      apply Hdue. lia.
    + replace (Datatypes.S k + n)%nat with (k + Datatypes.S n)%nat by lia.
      exact Hstop.
  - intros [H0 [Hdue Hstop]]. split.
    + intros [|j] Hj; [rewrite Nat.add_0_r; exact H0|].
      replace (k + Datatypes.S j)%nat with (Datatypes.S k + j)%nat by lia.
      apply Hdue. lia.
    + replace (k + Datatypes.S n)%nat with (Datatypes.S k + n)%nat by lia.
      exact Hstop.
Qed.

Lemma drains_0 (t0 : float) (bpm : Z) (now : float) (k : nat) :
  drains t0 bpm now k 0 <-> due t0 bpm now k = false.
Proof.
  unfold drains. rewrite Nat.add_0_r. split.
  - intros [_ H]. exact H.
  - intro H. split; [intros j Hj; lia | exact H].
Qed.

(** The loop's test, for a clock on the grid. *)
Lemma loop_test (t0 : float) (bpm : Z) (now : float) (k : nat) (g : Game) :
  onGrid t0 bpm k g ->
  PrimFloat.ltb (nextNoteTimeRef g) (now + scheduleAhead)%float
  = due t0 bpm now k.
Proof. intros [Ht _]. unfold due. rewrite Ht. reflexivity. Qed.

(** The loop, given passes enough: it emits the subdivisions from the one
    the clock stands at up to, and excluding, the first one that is not
    due. *)
Lemma schedulerLoop_ends (t0 : float) (bpm : Z) (now : float)
  (draws : nat -> Draws) (n : nat) :
  forall fuel k i g,
  onGrid t0 bpm k g -> drains t0 bpm now k n -> (n <= fuel)%nat ->
  exists g' es,
    schedulerLoop fuel now bpm draws i g = Some (g', es)
    /\ List.length es = n
    /\ instancesFrom t0 bpm k es
    /\ onGrid t0 bpm (k + n) g'.
Proof.
  induction n as [|n IH]; intros fuel k i g Hg Hd Hfuel.
  - apply drains_0 in Hd.
    pose proof (loop_test t0 bpm now k g Hg) as E. rewrite Hd in E.
    exists g, []. rewrite Nat.add_0_r.
    destruct fuel; cbn [schedulerLoop]; rewrite E;
      (split; [reflexivity|]); (split; [reflexivity|]);
      (split; [exact I | exact Hg]).
  - destruct fuel as [|fuel]; [lia|].
    apply drains_S in Hd. destruct Hd as [H0 Hd].
    pose proof (loop_test t0 bpm now k g Hg) as E. rewrite H0 in E.
    cbn [schedulerLoop]. rewrite E.
    destruct (schedulerBody_grid t0 bpm k (draws i) g Hg) as [Hg1 He].
    destruct (schedulerBody bpm (draws i) g) as [g1 e]. cbn [fst snd] in *.
    destruct (IH fuel (Datatypes.S k) (Datatypes.S i) g1 Hg1 Hd
                 ltac:(lia))
      as (g' & es & Hrun & Hlen & Hinst & Hgrid).
    rewrite Hrun. exists g', (e :: es). cbn [List.length instancesFrom].
    split; [reflexivity|]. split; [rewrite Hlen; reflexivity|].
    split; [split; assumption|].
    replace (k + Datatypes.S n)%nat with (Datatypes.S k + n)%nat by lia.
    exact Hgrid.
Qed.

(** Conversely, a loop that has ended has drained the due subdivisions up
    to the first one that is not. *)
Lemma schedulerLoop_ended (t0 : float) (bpm : Z) (now : float)
  (draws : nat -> Draws) (fuel : nat) :
  forall k i g g' es,
  onGrid t0 bpm k g ->
  schedulerLoop fuel now bpm draws i g = Some (g', es) ->
  (List.length es <= fuel)%nat
  /\ drains t0 bpm now k (List.length es)
  /\ instancesFrom t0 bpm k es
  /\ onGrid t0 bpm (k + List.length es) g'.
Proof.
  induction fuel as [|fuel IH]; intros k i g g' es Hg;
    pose proof (loop_test t0 bpm now k g Hg) as E;
    cbn [schedulerLoop]; rewrite E.
  - destruct (due t0 bpm now k) eqn:Ed; [discriminate|].
    intro H; injection H as <- <-. cbn [List.length instancesFrom].
    rewrite Nat.add_0_r.
    split; [lia|]. split; [apply drains_0; exact Ed|].
    split; [exact I | exact Hg].
  - destruct (due t0 bpm now k) eqn:Ed.
    + destruct (schedulerBody_grid t0 bpm k (draws i) g Hg) as [Hg1 He].
      destruct (schedulerBody bpm (draws i) g) as [g1 e].
      cbn [fst snd] in *.
      destruct (schedulerLoop fuel now bpm draws (Datatypes.S i) g1)
        as [[g2 es2]|] eqn:E2; [|discriminate].
      intro H; injection H as <- <-.
      destruct (IH _ _ _ _ _ Hg1 E2) as (Hlen & Hd & Hinst & Hgrid).
      cbn [List.length instancesFrom].
      split; [lia|]. split; [apply drains_S; split; assumption|].
      split; [split; assumption|].
      replace (k + Datatypes.S (List.length es2))%nat
        with (Datatypes.S k + List.length es2)%nat by lia.
      exact Hgrid.
    + intro H; injection H as <- <-. cbn [List.length instancesFrom].
      rewrite Nat.add_0_r.
      split; [lia|]. split; [apply drains_0; exact Ed|].
      split; [exact I | exact Hg].
Qed.

Lemma schedulerCalls_end (t0 : float) (bpm : Z) (calls : list Firing) :
  forall (k : nat) (g : Game) (ns : list nat),
  onGrid t0 bpm k g -> callsDrain t0 bpm k calls ns ->
  exists g' es,
    schedulerCalls bpm calls g = Some (g', es)
    /\ List.length es = list_sum ns
    /\ instancesFrom t0 bpm k es
    /\ onGrid t0 bpm (k + List.length es) g'.
Proof.
  induction calls as [|[[passes now] draws] rest IH]; intros k g ns Hg Hd;
    destruct ns as [|n ns']; cbn [callsDrain] in Hd; try contradiction.
  - exists g, []. cbn [schedulerCalls List.length list_sum instancesFrom].
    rewrite Nat.add_0_r.
    split; [reflexivity|]. split; [reflexivity|].
    split; [exact I | exact Hg].
  - destruct Hd as (Hle & Hdr & Hrest). cbn [schedulerCalls].
    unfold scheduler.
    destruct (schedulerLoop_ends t0 bpm now draws n passes k 0%nat g Hg Hdr
                Hle) as (g1 & es1 & Hrun1 & Hlen1 & Hinst1 & Hgrid1).
    rewrite Hrun1.
    destruct (IH (k + n)%nat g1 ns' Hgrid1 Hrest)
      as (g2 & es2 & Hrun2 & Hlen2 & Hinst2 & Hgrid2).
    rewrite Hrun2. exists g2, (es1 ++ es2).
    rewrite length_app.
    change (list_sum (n :: ns')) with (n + list_sum ns')%nat.
    split; [reflexivity|]. split; [lia|].
    split; [apply instancesFrom_app; [|rewrite Hlen1]; assumption|].
    rewrite Hlen1, Nat.add_assoc. exact Hgrid2.
Qed.

Lemma schedulerCalls_ended (t0 : float) (bpm : Z) (calls : list Firing) :
  forall (k : nat) (g g' : Game) (es : list Emitted),
  onGrid t0 bpm k g ->
  schedulerCalls bpm calls g = Some (g', es) ->
  exists ns,
    callsDrain t0 bpm k calls ns
    /\ List.length es = list_sum ns
    /\ instancesFrom t0 bpm k es
    /\ onGrid t0 bpm (k + List.length es) g'.
Proof.
  induction calls as [|[[passes now] draws] rest IH]; intros k g g' es Hg;
    cbn [schedulerCalls].
  - intro H; injection H as <- <-. exists [].
    cbn [callsDrain List.length list_sum instancesFrom].
    rewrite Nat.add_0_r.
    split; [exact I|]. split; [reflexivity|].
    split; [exact I | exact Hg].
  - unfold scheduler.
    destruct (schedulerLoop passes now bpm draws 0 g) as [[g1 es1]|] eqn:E1;
      [|discriminate].
    destruct (schedulerLoop_ended t0 bpm now draws passes k 0%nat g g1 es1
                Hg E1) as (Hle & Hdr & Hinst1 & Hgrid1).
    destruct (schedulerCalls bpm rest g1) as [[g2 es2]|] eqn:E2;
      [|discriminate].
    intro H; injection H as <- <-.
    destruct (IH _ _ _ _ Hgrid1 E2) as (ns' & Hd' & Hlen2 & Hinst2 & Hgrid2).
    exists (List.length es1 :: ns').
    rewrite length_app. cbn [callsDrain].
    change (list_sum (List.length es1 :: ns'))
      with (List.length es1 + list_sum ns')%nat.
    split; [split; [exact Hle|]; split; assumption|].
    split; [lia|].
    split; [apply instancesFrom_app; assumption|].
    rewrite Nat.add_assoc. exact Hgrid2.
Qed.

(** A level started in synthesized mode puts the clock half a second after
    the audio clock value read, at subdivision 0, and starts the timer. *)
Lemma startLevel_onGrid (supported : bool) (currentTime : float) (bpm : Z)
  (name : string) (g : Game) :
  audioCtxRef g = true \/ supported = true ->
  userAudioBufferRef g = false ->
  let g' := startLevel supported currentTime bpm name g in
  onGrid (currentTime + 0.5)%float bpm 0 g' /\ timerIDRef g' = Some bpm.
Proof.
  intros Hctx Hbuf. unfold startLevel, initAudioContext.
  cbn [set_trackName audioCtxRef].
  destruct (audioCtxRef g) eqn:Ectx; [|destruct Hctx as [Hc | ->];
                                        [discriminate|]];
    cbn; rewrite Hbuf; cbn; repeat split.
Qed.

(** C4, as stated, fails: the note times are binary64 sums and leave the
    exact grid.  At 150 bpm, with the first note time 0.5, a firing that
    reads the audio clock at 1 drains seven subdivisions, number 0 to 6.
    The nominal time of number 6 is 0.5 + 6 * 0.1 = 1.1, which is not below
    1 + 0.1; its note time, six rounded additions of the double nearest to
    0.1, is the double just below the double sum 1 + 0.1. *)
Lemma scheduler_leaves_exact_grid :
  let g0 := startLevel true 0 150 "Void Walker" initialGame in
  let firing : Firing := (10%nat, 1%float, fun _ => quietDraws) in
  onGrid 0.5 150 0 g0
  /\ option_map (fun r => (List.length (snd r), current16thNoteRef (fst r)))
                (schedulerCalls 150 [firing] g0)
     = Some (7%nat, 7%Z)
  /\ due 0.5 150 1 6 = true
  /\ PrimFloat.ltb (noteTime 0.5 150 6) (1 + scheduleAhead)%float = true
  /\ nominal (1 # 2) 150 6 == 11 # 10
  /\ ~ nominal (1 # 2) 150 6 < 1 + (1 # 10).
Proof.
  cbv zeta.
  split; [split; reflexivity|].
  split; [vm_compute; reflexivity|].
  split; [vm_compute; reflexivity|].
  split; [vm_compute; reflexivity|].
  split; [vm_compute; reflexivity|].
  intro H. vm_compute in H. discriminate H.
Qed.

(** C4 (amended): from a clock standing at subdivision number [k] of a run
    whose first note time was [t0], a sequence of timer firings, whatever
    audio clock values they read, emits the subdivisions number [k],
    [k + 1], ... in order, each exactly once, with the counter equal to the
    subdivision number modulo 16.  Each firing drains the subdivisions that
    are due at its clock value, from the one the clock stands at up to,
    and excluding, the first one that is not due, however many periods were
    missed before it; a subdivision is due when its note time is below
    [now + scheduleAhead].  The note time of a subdivision is the previous
    one plus the increment 0.25 * (60 / bpm); sums, product and quotient are
    those of binary64 numbers.  The firings end exactly when each of them
    finds a subdivision that is not due within the passes it is given. *)
Theorem scheduler_catch_up (t0 : float) (bpm : Z) (calls : list Firing) :
  forall (k : nat) (g : Game),
  onGrid t0 bpm k g ->
  (forall ns, callsDrain t0 bpm k calls ns ->
     exists g' es,
       schedulerCalls bpm calls g = Some (g', es)
       /\ List.length es = list_sum ns
       /\ instancesFrom t0 bpm k es
       /\ onGrid t0 bpm (k + List.length es) g')
  /\ (forall g' es,
      schedulerCalls bpm calls g = Some (g', es) ->
      exists ns,
        callsDrain t0 bpm k calls ns
        /\ List.length es = list_sum ns
        /\ instancesFrom t0 bpm k es
        /\ onGrid t0 bpm (k + List.length es) g')
  /\ (forall j, noteTime t0 bpm (Datatypes.S j)
                = (noteTime t0 bpm j + subdivision bpm)%float)
  /\ subdivision bpm = (0.25 * (60 / number_of_Z bpm))%float.
Proof.
  intros k g Hg.
  split; [intros ns Hd; exact (schedulerCalls_end t0 bpm calls k g ns Hg Hd)|].
  split; [intros g' es Hrun;
          exact (schedulerCalls_ended t0 bpm calls k g g' es Hg Hrun)|].
  split; reflexivity.
Qed.

(** ** Dwell selection on the menu cursor *)

Lemma progressOf_range (e : Q) :
  0 <= e -> 0 <= App.progressOf e /\ App.progressOf e <= 100.
Proof.
  intro He. unfold App.progressOf, App.dwell.
  assert (Hscale : e / 1500 * 100 == e * (1 # 15)) by field.
  destruct (Q.min_spec (e / 1500 * 100) 100) as [[Hlt Hm] | [Hle Hm]];
    rewrite Hm; rewrite Hscale in *; split; lra.
Qed.

Lemma progressOf_full (e : Q) :
  Qge_bool (App.progressOf e) 100 = true <-> 1500 <= e.
Proof.
  rewrite Qge_bool_iff. unfold App.progressOf, App.dwell.
  assert (Hscale : e / 1500 * 100 == e * (1 # 15)) by field.
  destruct (Q.min_spec (e / 1500 * 100) 100) as [[Hlt ->] | [Hle ->]];
    rewrite Hscale in *; split; intro H; lra.
Qed.

Lemma nondecreasingFrom_weaken (ts : list Q) (s t : Q) :
  s <= t -> nondecreasingFrom t ts -> nondecreasingFrom s ts.
Proof.
  destruct ts as [|u rest]; cbn [nondecreasingFrom]; [trivial|].
  intros Hst [Htu Hrest]. split; [lra | exact Hrest].
Qed.

Lemma nondecreasingFrom_In (ts : list Q) :
  forall t u, nondecreasingFrom t ts -> In u ts -> t <= u.
Proof.
  induction ts as [|v rest IH]; intros t u Hs Hin; [destruct Hin|].
  destruct Hs as [Htv Hrest]. destruct Hin as [<- | Hin]; [exact Htv|].
  apply Qle_trans with v; [exact Htv | exact (IH v u Hrest Hin)].
Qed.

Lemma last_cons (rest : list Q) :
  forall v t, last (v :: rest) t = last rest v.
Proof.
  induction rest as [|q r IH]; intros v t; [reflexivity|].
  change (last (v :: q :: r) t) with (last (q :: r) t).
  rewrite (IH q t), (IH q v). reflexivity.
Qed.

Lemma last_In_cons (rest : list Q) :
  forall u, In (last rest u) (u :: rest).
Proof.
  induction rest as [|q r IH]; intro u; [left; reflexivity|].
  rewrite last_cons. right. apply IH.
Qed.

Lemma nondecreasingFrom_last (ts : list Q) :
  forall t u, nondecreasingFrom t ts -> In u (t :: ts) -> u <= last ts t.
Proof.
  induction ts as [|v rest IH]; intros t u Hs Hin.
  - destruct Hin as [<- | []]. cbn. lra.
  - destruct Hs as [Htv Hrest]. rewrite last_cons.
    destruct Hin as [<- | Hin].
    + apply Qle_trans with v; [exact Htv|].
      apply (IH v v Hrest). left; reflexivity.
    + apply (IH v u Hrest Hin).
Qed.

Section HoverRun.

Variable T : Type.
Variable T_eqb : T -> T -> bool.
Variable c : T.
Hypothesis T_eqb_refl : T_eqb c c = true.

Lemma started_tracking (s p : Q) :
  ~ s == 0 -> App.started T (tracking c s p) = Some s.
Proof.
  intro Hs. unfold App.started, tracking. cbn [App.hoverStartTimeRef].
  destruct (Qeq_bool s 0) eqn:E; [|reflexivity].
  apply Qeq_bool_iff in E. contradiction.
Qed.

Lemma step_fresh (now : Q) (h : App.Hover T) :
  App.same_item T T_eqb c (App.currentItem T h) = false ->
  App.handleHoverLogic T T_eqb now c h
  = App.mkStep T (tracking c now 0) None [0].
Proof.
  intro H. unfold App.handleHoverLogic. rewrite H. reflexivity.
Qed.

Lemma step_short (now s p : Q) :
  ~ s == 0 -> now - s < 1500 ->
  App.handleHoverLogic T T_eqb now c (tracking c s p)
  = App.mkStep T (tracking c s (App.progressOf (now - s))) None
               [App.progressOf (now - s)].
Proof.
  intros Hs Hshort. unfold App.handleHoverLogic.
  rewrite (started_tracking s p Hs).
  cbn [App.same_item App.currentItem tracking]. rewrite T_eqb_refl.
  destruct (Qge_bool (App.progressOf (now - s)) 100) eqn:E; [|reflexivity].
  apply progressOf_full in E. lra.
Qed.

Lemma step_commit (now s p : Q) :
  ~ s == 0 -> 1500 <= now - s ->
  App.handleHoverLogic T T_eqb now c (tracking c s p)
  = App.mkStep T (App.idle T) (Some c) [App.progressOf (now - s); 0].
Proof.
  intros Hs Hfull. unfold App.handleHoverLogic.
  rewrite (started_tracking s p Hs).
  cbn [App.same_item App.currentItem tracking]. rewrite T_eqb_refl.
  apply progressOf_full in Hfull. rewrite Hfull. reflexivity.
Qed.

(** While the dwell time has not elapsed nothing is committed. *)
Lemma run_short (s : Q) (ts : list Q) :
  ~ s == 0 ->
  (forall t, In t ts -> t - s < 1500) ->
  forall p, App.commits T (App.hoverRun T T_eqb c ts (tracking c s p)) = [].
Proof.
  intros Hs. induction ts as [|t rest IH]; intros Hall p;
    cbn [App.hoverRun App.commits]; [reflexivity|].
  rewrite (step_short t s p Hs (Hall t (or_introl eq_refl))).
  cbn [App.completed App.after].
  apply IH. intros u Hu. apply Hall. right; exact Hu.
Qed.

(** A run that reaches the dwell time and stays below twice the dwell time
    commits once. *)
Lemma run_once (ts : list Q) :
  forall s p,
  0 < s -> nondecreasingFrom s ts ->
  (exists t, In t ts /\ 1500 <= t - s) ->
  (forall t, In t ts -> t - s < 3000) ->
  App.commits T (App.hoverRun T T_eqb c ts (tracking c s p)) = [c].
Proof.
  induction ts as [|t rest IH]; intros s p Hs Hsorted Hreach Hbound.
  - destruct Hreach as (t & [] & _).
  - assert (Hs0 : ~ s == 0) by (intro H0; rewrite H0 in Hs; discriminate).
    destruct Hsorted as [Hst Hrest].
    cbn [App.hoverRun App.commits].
    destruct (Qlt_le_dec (t - s) 1500) as [Hshort | Hfull].
    + rewrite (step_short t s p Hs0 Hshort). cbn [App.completed App.after].
      apply IH.
      * exact Hs.
      * exact (nondecreasingFrom_weaken rest s t Hst Hrest).
      * destruct Hreach as (u & [<- | Hu] & Hfull); [lra|].
        exists u. split; assumption.
      * intros u Hu. apply Hbound. right; exact Hu.
    + rewrite (step_commit t s p Hs0 Hfull). cbn [App.completed App.after].
      f_equal.
      destruct rest as [|t1 rest1]; [reflexivity|].
      destruct Hrest as [Htt1 Hrest1].
      cbn [App.hoverRun App.commits].
      rewrite step_fresh by reflexivity. cbn [App.completed App.after].
      apply run_short.
      * intro H0. rewrite H0 in Htt1. lra.
      * intros u Hu.
        pose proof (nondecreasingFrom_In rest1 t1 u Hrest1 Hu) as H1u.
        assert (Hub : u - s < 3000)
          by (apply Hbound; right; right; exact Hu).
        lra.
Qed.

(** The progress values shown stay within [0, 100] as long as the clock
    does not go back. *)
Lemma run_progress (ts : list Q) :
  forall (h : App.Hover T) (b : Q),
  (forall s, App.hoverStartTimeRef T h = Some s -> s <= b) ->
  nondecreasingFrom b ts ->
  Forall (fun p => 0 <= p /\ p <= 100)
         (App.progresses T (App.hoverRun T T_eqb c ts h)).
Proof.
  induction ts as [|t rest IH]; intros h b Hstart Hsorted;
    cbn [App.hoverRun App.progresses]; [constructor|].
  destruct Hsorted as [Hbt Hrest].
  apply Forall_app. unfold App.handleHoverLogic.
  destruct (App.same_item T T_eqb c (App.currentItem T h)).
  - unfold App.started.
    destruct (App.hoverStartTimeRef T h) as [s|] eqn:Es.
    + destruct (Qeq_bool s 0).
      * cbn [App.shown App.after]. split; [constructor|].
        apply (IH h t); [|exact Hrest].
        intros s' Hs'. rewrite Es in Hs'. injection Hs' as <-.
        pose proof (Hstart s eq_refl). lra.
      * assert (He : 0 <= t - s) by (pose proof (Hstart s eq_refl); lra).
        pose proof (progressOf_range (t - s) He) as Hp.
        destruct (Qge_bool (App.progressOf (t - s)) 100);
          cbn [App.shown App.after]; split.
        -- repeat constructor; try apply Hp; discriminate.
        -- apply (IH _ t); [|exact Hrest]. intros s' Hs'. discriminate Hs'.
        -- repeat constructor; apply Hp.
        -- apply (IH _ t); [|exact Hrest].
           intros s' Hs'. cbn [App.hoverStartTimeRef] in Hs'.
           rewrite ?Es in Hs'. injection Hs' as <-.
           pose proof (Hstart s eq_refl). lra.
    + cbn [App.shown App.after]. split; [constructor|].
      apply (IH h t); [|exact Hrest].
      intros s' Hs'. rewrite Es in Hs'. discriminate Hs'.
  - cbn [App.shown App.after]. split.
    + repeat constructor; discriminate.
    + apply (IH _ t); [|exact Hrest].
      intros s' Hs'. injection Hs' as <-. lra.
Qed.

(** A run in two parts. *)
Lemma hoverRun_app (l1 l2 : list Q) :
  forall h,
  App.commits T (App.hoverRun T T_eqb c (l1 ++ l2) h)
  = App.commits T (App.hoverRun T T_eqb c l1 h)
    ++ App.commits T
         (App.hoverRun T T_eqb c l2
            (App.final T (App.hoverRun T T_eqb c l1 h)))
  /\ App.final T (App.hoverRun T T_eqb c (l1 ++ l2) h)
     = App.final T
         (App.hoverRun T T_eqb c l2
            (App.final T (App.hoverRun T T_eqb c l1 h))).
Proof.
  induction l1 as [|t rest IH]; intro h;
    cbn [app App.hoverRun App.commits App.final]; [split; reflexivity|].
  destruct (IH (App.after T (App.handleHoverLogic T T_eqb t c h)))
    as [Hc Hf].
  rewrite Hc, Hf.
  destruct (App.completed T (App.handleHoverLogic T T_eqb t c h));
    split; reflexivity.
Qed.

(** While the dwell time has not elapsed the cursor keeps tracking the
    candidate from the same start time. *)
Lemma run_short_final (s : Q) (ts : list Q) :
  ~ s == 0 ->
  (forall t, In t ts -> t - s < 1500) ->
  forall p, exists p',
    App.final T (App.hoverRun T T_eqb c ts (tracking c s p))
    = tracking c s p'.
Proof.
  intros Hs. induction ts as [|t rest IH]; intros Hall p;
    cbn [App.hoverRun App.final]; [exists p; reflexivity|].
  rewrite (step_short t s p Hs (Hall t (or_introl eq_refl))).
  cbn [App.after].
  apply IH. intros u Hu. apply Hall. right; exact Hu.
Qed.

(** The first call that finds the dwell time elapsed commits, once, and
    leaves the reset state. *)
Lemma run_first_commit (s : Q) (ts : list Q) (t : Q) :
  ~ s == 0 ->
  (forall u, In u ts -> u - s < 1500) -> 1500 <= t - s ->
  forall p,
  App.commits T (App.hoverRun T T_eqb c (ts ++ [t]) (tracking c s p)) = [c]
  /\ App.final T (App.hoverRun T T_eqb c (ts ++ [t]) (tracking c s p))
     = App.idle T.
Proof.
  intros Hs Hshort Hfull p.
  destruct (hoverRun_app ts [t] (tracking c s p)) as [Hc Hf].
  rewrite Hc, Hf, (run_short s ts Hs Hshort p).
  destruct (run_short_final s ts Hs Hshort p) as [p' ->].
  cbn [App.hoverRun App.commits App.final app].
  rewrite (step_commit t s p' Hs Hfull). split; reflexivity.
Qed.

End HoverRun.

(** ** Dwell selection on the track menu *)

Lemma menuProgress_range (e : Q) :
  0 <= e -> 0 <= menuProgress e /\ menuProgress e <= 1.
Proof.
  intro He. unfold menuProgress, hoverDuration.
  assert (Hscale : e / 1500 == e * (1 # 1500)) by field.
  destruct (Q.min_spec (e / 1500) 1) as [[Hlt Hm] | [Hle Hm]];
    rewrite Hm; rewrite Hscale in *; split; lra.
Qed.

Lemma menuProgress_full (e : Q) :
  Qge_bool (menuProgress e) 1 = true <-> 1500 <= e.
Proof.
  rewrite Qge_bool_iff. unfold menuProgress, hoverDuration.
  assert (Hscale : e / 1500 == e * (1 # 1500)) by field.
  destruct (Q.min_spec (e / 1500) 1) as [[Hlt Hm] | [Hle Hm]];
    rewrite Hm; rewrite Hscale in *; split; intro H; lra.
Qed.

(** The track card being dwelt on: what its callback does, by the time
    elapsed since the hover began. *)
Lemma menuCard_dwell (cv : Canvas) (timestamp : Q) (supported : bool)
  (currentTime : float) (idx : nat) (track : Track) (g : Game)
  (item : option string) :
  cardHovered cv idx (leftHandRef g) || cardHovered cv idx (rightHandRef g)
  = true ->
  same_id (hoveredTrackIdRef g) (t_id track) = true ->
  let elapsed := timestamp - hoverStartTimeRef g in
  let g1 := fst (initAudioContext supported g) in
  let g' := fst (menuCard cv timestamp supported currentTime idx track
                          (g, item)) in
  (elapsed < 1500 -> g' = g)
  /\ (1500 <= elapsed -> elapsed <= 1600 ->
      g' = match t_type track with
           | GENERATED =>
               startLevel supported currentTime (t_bpm track) (t_name track)
                          g1
           | UPLOAD =>
               set_menu g1 (timestamp - 20000) (hoveredTrackIdRef g1)
                        (Datatypes.S (fileClicks g1))
           end)
  /\ (1600 < elapsed -> g' = g1).
Proof.
  intros Hhover Hid elapsed g1 g'. subst g' g1 elapsed.
  unfold menuCard. rewrite Hhover, Hid. cbn [andb].
  destruct (Qge_bool (menuProgress (timestamp - hoverStartTimeRef g)) 1)
    eqn:Efull;
    [apply menuProgress_full in Efull
    | apply Qge_bool_false in Efull;
      assert (Hshort : timestamp - hoverStartTimeRef g < 1500)
        by (apply Qnot_le_lt; intro Hle;
            apply menuProgress_full in Hle;
            apply Qge_bool_iff in Hle; lra)].
  - destruct (initAudioContext supported g) as [g1 ok]. cbn [fst].
    destruct (Qgt_bool (timestamp - hoverStartTimeRef g) 1600) eqn:Elate;
      [apply Qgt_bool_iff in Elate | apply Qgt_bool_false in Elate].
    + repeat split; intros; try lra; reflexivity.
    + repeat split; intros; try lra.
      destruct (t_type track); reflexivity.
  - repeat split; intros; try lra; reflexivity.
Qed.

(** C5, as stated, fails on the track menu: a hover that misses the
    window between 1500 and 1600 ms never commits.  Here both hands rest on
    the first track card from the frame at 1000 ms on; the frames at 2499,
    2601 and 4000 ms leave the menu dwelling, and after a hover of 3000 ms
    no level has been started. *)
Lemma track_menu_dwell_never_commits :
  let frames := map (fun t => frameAt t (Some hoverPose))
                    [1000; 2499; 2601; 4000] in
  stillDwelling (run (firstn 1 frames) initialGame) = true
  /\ stillDwelling (run (firstn 2 frames) initialGame) = true
  /\ stillDwelling (run (firstn 3 frames) initialGame) = true
  /\ stillDwelling (run frames initialGame) = true.
Proof. vm_compute. repeat split. Qed.

Lemma commit_resets (T : Type) (T_eqb : T -> T -> bool) (now : Q) (c : T)
  (h : App.Hover T) :
  App.completed T (App.handleHoverLogic T T_eqb now c h) <> None ->
  App.completed T (App.handleHoverLogic T T_eqb now c h) = Some c
  /\ App.after T (App.handleHoverLogic T T_eqb now c h) = App.idle T.
Proof.
  unfold App.handleHoverLogic.
  destruct (App.same_item T T_eqb c (App.currentItem T h));
    [|intro H; contradiction H; reflexivity].
  destruct (App.started T h);
    [|intro H; contradiction H; reflexivity].
  destruct (Qge_bool _ 100);
    [|intro H; contradiction H; reflexivity].
  intros _. split; reflexivity.
Qed.

(** C5 (amended).  Menu cursor of the application: in a hover run over one
    candidate, started on another target or on none, with a clock that is
    positive and never goes back, every progress value shown lies in
    [0, 100]; nothing is committed while the run is shorter than 1500 ms;
    the first call that finds 1500 ms elapsed commits the candidate, the
    only commit up to there, and leaves the tracking state reset (no item,
    no start time, progress 0); if the same hover goes on after the reset a
    fresh dwell begins, so that a run of at least 1500 ms and less than
    3000 ms commits exactly once.  Track menu of the Saber game: for the
    card being dwelt on, the progress fraction lies in [0, 1]; nothing
    happens before 1500 ms; the track is committed (level started, or file
    dialog opened for the upload entry) on a frame whose elapsed time lies
    in [1500, 1600] ms; and a frame later than 1600 ms commits nothing. *)
Theorem dwell_select (T : Type) (T_eqb : T -> T -> bool) (c : T)
  (h0 : App.Hover T) (t0 : Q) (ts : list Q) :
  T_eqb c c = true ->
  App.same_item T T_eqb c (App.currentItem T h0) = false ->
  0 < t0 -> nondecreasingFrom t0 ts ->
  let tr := App.hoverRun T T_eqb c (t0 :: ts) h0 in
  Forall (fun p => 0 <= p /\ p <= 100) (App.progresses T tr)
  /\ (last ts t0 - t0 < 1500 -> App.commits T tr = [])
  /\ (forall before t,
      ts = before ++ [t] ->
      (forall u, In u before -> u - t0 < 1500) -> 1500 <= t - t0 ->
      App.commits T tr = [c] /\ App.final T tr = App.idle T)
  /\ (1500 <= last ts t0 - t0 -> last ts t0 - t0 < 3000 ->
      App.commits T tr = [c])
  /\ (forall now h,
      App.completed T (App.handleHoverLogic T T_eqb now c h) <> None ->
      App.completed T (App.handleHoverLogic T T_eqb now c h) = Some c
      /\ App.after T (App.handleHoverLogic T T_eqb now c h) = App.idle T)
  /\ (forall cv timestamp supported currentTime idx track g item,
      cardHovered cv idx (leftHandRef g)
      || cardHovered cv idx (rightHandRef g) = true ->
      same_id (hoveredTrackIdRef g) (t_id track) = true ->
      let elapsed := timestamp - hoverStartTimeRef g in
      let g1 := fst (initAudioContext supported g) in
      let g' := fst (menuCard cv timestamp supported currentTime idx track
                              (g, item)) in
      (0 <= elapsed ->
       0 <= menuProgress elapsed /\ menuProgress elapsed <= 1)
      /\ (elapsed < 1500 -> g' = g)
      /\ (1500 <= elapsed -> elapsed <= 1600 ->
          g' = match t_type track with
               | GENERATED =>
                   startLevel supported currentTime (t_bpm track)
                              (t_name track) g1
               | UPLOAD =>
                   set_menu g1 (timestamp - 20000) (hoveredTrackIdRef g1)
                            (Datatypes.S (fileClicks g1))
               end)
      /\ (1600 < elapsed ->
          g' = g1 /\ isPlayingRef g' = isPlayingRef g
          /\ fileClicks g' = fileClicks g)).
Proof.
  intros Hrefl Hfresh Ht0 Hsorted tr. subst tr.
  assert (Ht0' : ~ t0 == 0) by (intro H0; rewrite H0 in Ht0; discriminate).
  cbn [App.hoverRun App.progresses App.commits].
  rewrite (step_fresh T T_eqb c t0 h0 Hfresh).
  cbn [App.shown App.completed App.after app].
  split; [|split; [|split; [|split; [|split]]]].
  - constructor; [split; discriminate|].
    apply (run_progress T T_eqb c ts _ t0); [|exact Hsorted].
    intros s Hs. injection Hs as <-. lra.
  - intro Hshort. apply (run_short T T_eqb c Hrefl t0 ts Ht0').
    intros t Ht.
    pose proof (nondecreasingFrom_last ts t0 t Hsorted (or_intror Ht)). lra.
  - intros before t -> Hshort Hfull.
    apply (run_first_commit T T_eqb c Hrefl t0 before t Ht0' Hshort Hfull).
  - intros Hfull Hbound.
    apply (run_once T T_eqb c Hrefl ts t0 0 Ht0 Hsorted).
    + destruct ts as [|u rest]; [cbn in Hfull; lra|].
      exists (last (u :: rest) t0). split; [|exact Hfull].
      rewrite last_cons. apply last_In_cons.
    + intros t Ht.
      pose proof (nondecreasingFrom_last ts t0 t Hsorted (or_intror Ht)).
      lra.
  - intros now h. apply commit_resets.
  - intros cv timestamp supported currentTime idx track g item Hhover Hid.
    destruct (menuCard_dwell cv timestamp supported currentTime idx track g
                item Hhover Hid) as (Hshort & Hcommit & Hlate).
    split; [apply menuProgress_range|].
    split; [exact Hshort|]. split; [exact Hcommit|].
    intro He. rewrite (Hlate He).
    unfold initAudioContext.
    destruct (audioCtxRef g); [|destruct supported]; repeat split.
Qed.

Lemma dwell_select_witness :
  let ts := [800; 1600; 1700] in
  (Action_eqb RETRY RETRY = true
   /\ App.same_item Action Action_eqb RETRY
        (App.currentItem Action (App.idle Action)) = false
   /\ 0 < 100 /\ nondecreasingFrom 100 ts
   /\ 1500 <= last ts 100 - 100 /\ last ts 100 - 100 < 3000)
  /\ App.commits Action
       (App.hoverRun Action Action_eqb RETRY (100 :: ts) (App.idle Action))
     = [RETRY].
Proof.
  cbv zeta.
  assert (Hsorted : nondecreasingFrom 100 [800; 1600; 1700])
    by (cbn; repeat split; discriminate).
  assert (Hfull : 1500 <= last [800; 1600; 1700] 100 - 100)
    by (cbn; discriminate).
  assert (Hbound : last [800; 1600; 1700] 100 - 100 < 3000)
    by (cbn; reflexivity).
  split; [repeat split; try assumption; reflexivity|].
  destruct (dwell_select Action Action_eqb RETRY (App.idle Action) 100
              [800; 1600; 1700] eq_refl eq_refl eq_refl Hsorted)
    as (_ & _ & _ & Honce & _).
  exact (Honce Hfull Hbound).
Defined.

(** ** Energy *)

(** The note paths clamp: a cut, a hazard hit and a miss all keep an energy
    that was within [0, 100] within [0, 100]. *)
Lemma processBlock_energy (cv : Canvas) (g : Game) (block : SaberBlock) :
  (0 <= energyRef g <= 100)%Z ->
  (0 <= energyRef (fst (processBlock cv g block)) <= 100)%Z.
Proof.
  intro H. rewrite processBlock_by_outcome.
  destruct (outcome _ _);
    try (destruct (penalised_session g 15) as (_ & _ & He & _); rewrite He);
    try (destruct (penalised_session g 8) as (_ & _ & He' & _); rewrite He');
    cbn [rewarded energyRef set_session]; lia.
Qed.

(** The obstacle path does not: a collision subtracts 10 whatever the
    energy is. *)
Lemma processObstacle_energy (g : Game) (obs : Obstacle) :
  o_hit obs = false ->
  o_z obs - GAME_SPEED < 250 -> -100 < o_z obs - GAME_SPEED ->
  obstacleCollides g obs = true ->
  energyRef (fst (processObstacle g obs)) = (energyRef g - 10)%Z
  /\ isPlayingRef (fst (processObstacle g obs)) = isPlayingRef g
  /\ gameOverCalls (fst (processObstacle g obs)) = gameOverCalls g.
Proof.
  intros Hh Hfar Hnear Hc. unfold processObstacle. cbn [fst].
  apply Qlt_bool_iff in Hfar. apply Qgt_bool_iff in Hnear.
  rewrite Hh, Hfar, Hnear, Hc. repeat split.
Qed.

(** C1 is broken by the obstacle path.  In the session [wallAfterMisses]
    six misses take the energy from 50 to 2 and the collision with the wall,
    in the same frame, leaves it at -8, outside [0, 100]; the level goes on
    playing and [onGameOver] has not been called. *)
Theorem energy_negative_after_wall :
  option_map energyRef (run (removelast wallAfterMisses) initialGame)
  = Some 50%Z
  /\ option_map energyRef (run wallAfterMisses initialGame) = Some (-8)%Z
  /\ option_map isPlayingRef (run wallAfterMisses initialGame) = Some true
  /\ option_map gameOverCalls (run wallAfterMisses initialGame) = Some []
  /\ option_map (fun g => map o_hit (obstaclesRef g))
                (run wallAfterMisses initialGame) = Some [true]
  /\ option_map (fun g => (hitNotesRef g, totalNotesRef g))
                (run wallAfterMisses initialGame) = Some (0%Z, 9%Z).
Proof. vm_compute. repeat split. Qed.

(** ** Instances *)

Lemma scheduler_catch_up_witness :
  let g0 := startLevel true 0 120 "Cyber Storm" initialGame in
  let firing : Firing := (10%nat, 1%float, fun _ => quietDraws) in
  (onGrid 0.5 120 0 g0 /\ callsDrain 0.5 120 0 [firing] [5%nat])
  /\ exists g' es,
       schedulerCalls 120 [firing] g0 = Some (g', es)
       /\ List.length es = 5%nat
       /\ instancesFrom 0.5 120 0 es
       /\ onGrid 0.5 120 (0 + List.length es) g'
       /\ exists ns, callsDrain 0.5 120 0 [firing] ns
                     /\ List.length es = list_sum ns.
Proof.
  cbv zeta.
  assert (Hg : onGrid 0.5 120 0
                 (startLevel true 0 120 "Cyber Storm" initialGame))
    by (split; reflexivity).
  assert (Hd : callsDrain 0.5 120 0
                 [(10%nat, 1%float, fun _ : nat => quietDraws)] [5%nat]).
  { cbn [callsDrain]. split; [lia|]. split; [|exact I]. split.
    - intros j Hj.
      do 5 (destruct j as [|j]; [vm_compute; reflexivity|]). lia.
    - vm_compute. reflexivity. }
  split; [split; assumption|].
  destruct (scheduler_catch_up 0.5 120
              [(10%nat, 1%float, fun _ : nat => quietDraws)] 0%nat _ Hg)
    as (Hends & Hended & _).
  destruct (Hends [5%nat] Hd) as (g' & es & Hrun & Hlen & Hinst & Hgrid).
  exists g', es.
  split; [exact Hrun|]. split; [exact Hlen|]. split; [exact Hinst|].
  split; [exact Hgrid|].
  destruct (Hended g' es Hrun) as (ns & Hns & Hsum & _).
  exists ns. split; assumption.
Defined.

Lemma hit_notes_bounded_witness :
  exists g,
    run cutOneNote initialGame = Some g
    /\ reachable g
    /\ (0 <= hitNotesRef g <= totalNotesRef g)%Z.
Proof.
  destruct (run cutOneNote initialGame) as [g|] eqn:E;
    [|vm_compute in E; discriminate E].
  exists g.
  assert (Hr : reachable g) by (exists cutOneNote; exact E).
  split; [reflexivity|]. split; [exact Hr|].
  exact (proj1 (hit_notes_bounded g Hr)).
Defined.

(** * Further properties *)

(** ** Invariants of every reachable state *)

Lemma sane_of_parts (g g' : Game) :
  sessionBounds g' -> rest g' = rest g -> sane g -> sane g'.
Proof.
  intros Hs Hr (_ & Hb & Ho & Hl & Hrh & Hbass & Hc).
  unfold rest in Hr.
  injection Hr as E1 E2 E3 E4 E5 E6 E7.
  unfold sane, clockOK in *. rewrite E1, E2, E3, E4, E5, E6, E7.
  split; [exact Hs|]. repeat split; try assumption; apply Hc.
Qed.

Lemma rewarded_bounds (g : Game) :
  sessionBounds g -> sessionBounds (rewarded g).
Proof.
  unfold sessionBounds, rewarded.
  cbn [scoreRef comboRef energyRef hitNotesRef set_session].
  intros (He & Hc & Hs). destruct (comboRef g >? 10)%Z; lia.
Qed.

Lemma penalised_bounds (g : Game) (p : Z) :
  (0 <= p)%Z -> sessionBounds g -> sessionBounds (penalised g p).
Proof.
  intros Hp (He & Hc & Hs).
  destruct (penalised_session g p) as (Es & Ec & Ee & Eh & _).
  unfold sessionBounds. rewrite Es, Ec, Ee, Eh. lia.
Qed.

Lemma penalised_rest (g : Game) (p : Z) : rest (penalised g p) = rest g.
Proof. unfold penalised. cbv zeta. destruct (_ <=? _)%Z; reflexivity. Qed.

Lemma processBlock_sane (cv : Canvas) (g : Game) (block : SaberBlock) :
  (sessionBounds g -> sessionBounds (fst (processBlock cv g block)))
  /\ rest (fst (processBlock cv g block)) = rest g.
Proof.
  rewrite processBlock_by_outcome.
  destruct (outcome _ _); split; try reflexivity; try apply penalised_rest;
    intro H; try exact H;
    first [ apply rewarded_bounds; exact H
          | apply penalised_bounds; [lia | exact H] ].
Qed.

(** What the callback does to the note itself. *)
Lemma processBlock_note (cv : Canvas) (g : Game) (block : SaberBlock) :
  remove block = false ->
  let block' := snd (processBlock cv g block) in
  type block' = type block /\ color block' = color block
  /\ gridX block' = gridX block /\ gridY block' = gridY block
  /\ z block' = z block - GAME_SPEED
  /\ (remove block' = false -> -250 <= z block').
Proof.
  intro Hr. cbv zeta. unfold processBlock. rewrite Hr.
  set (b1 := with_z block (z block - GAME_SPEED)).
  assert (F1 : type b1 = type block /\ color b1 = color block
               /\ gridX b1 = gridX block /\ gridY b1 = gridY block
               /\ z b1 = z block - GAME_SPEED) by (repeat split).
  clearbody b1.
  assert (FJ : forall b2, snd (judgeBlock cv g b1) = b2 ->
               type b2 = type b1 /\ color b2 = color b1
               /\ gridX b2 = gridX b1 /\ gridY b2 = gridY b1
               /\ z b2 = z b1).
  { intros b2 <-.
    destruct (judgeBlock_cases cv g b1)
      as [EJ | [(_ & _ & a & EJ) | (_ & _ & EJ)]]; rewrite EJ;
      repeat split. }
  destruct (judgeBlock cv g b1) as [g1 b2]. cbn [snd] in FJ.
  specialize (FJ b2 eq_refl).
  unfold expireBlock.
  destruct (Qlt_bool (z b2) (-250)) eqn:E.
  - destruct F1 as (A1 & A2 & A3 & A4 & A5).
    destruct FJ as (B1 & B2 & B3 & B4 & B5).
    destruct (negb (hit b2) && negb (is_bomb (type b2))); cbn [snd];
      cbn [type color gridX gridY z remove with_remove];
      (split; [congruence|]); (split; [congruence|]);
      (split; [congruence|]); (split; [congruence|]);
      (split; [congruence|]); discriminate.
  - apply Qlt_bool_false in E. cbn [snd].
    destruct F1 as (A1 & A2 & A3 & A4 & A5).
    destruct FJ as (B1 & B2 & B3 & B4 & B5).
    (split; [congruence|]); (split; [congruence|]);
      (split; [congruence|]); (split; [congruence|]);
      (split; [congruence|]). intros _. exact E.
Qed.

Lemma forEachBlock_sane (cv : Canvas) (blocks : list SaberBlock) :
  forall g,
  Forall noteOK blocks ->
  (sessionBounds g -> sessionBounds (fst (forEachBlock cv g blocks)))
  /\ rest (fst (forEachBlock cv g blocks)) = rest g
  /\ Forall noteOK
       (filter (fun b => negb (remove b)) (snd (forEachBlock cv g blocks))).
Proof.
  induction blocks as [|b bs IH]; intros g Hall; cbn [forEachBlock].
  - cbn [fst snd filter].
    split; [trivial|]. split; [reflexivity | constructor].
  - inversion Hall as [|? ? Hb Hbs]; subst.
    destruct (processBlock_sane cv g b) as [Hs1 Hr1].
    destruct Hb as (Brm & Bty & Bln & Bgy & Bz1 & Bz2).
    pose proof (processBlock_note cv g b Brm) as Hn. cbv zeta in Hn.
    destruct (processBlock cv g b) as [g1 b1]. cbn [fst snd] in *.
    destruct (IH g1 Hbs) as (Hs2 & Hr2 & Hf2).
    destruct (forEachBlock cv g1 bs) as [g2 bs1]. cbn [fst snd] in *.
    split; [intro H; exact (Hs2 (Hs1 H))|].
    split; [congruence|].
    cbn [filter]. destruct (remove b1) eqn:Er; cbn [negb]; [exact Hf2|].
    constructor; [|exact Hf2].
    destruct Hn as (N1 & N2 & N3 & N4 & N5 & N6).
    unfold noteOK. rewrite N1, N2, N3, N4.
    split; [exact Er|]. split; [exact Bty|]. split; [exact Bln|].
    split; [exact Bgy|]. split; [exact (N6 eq_refl)|].
    rewrite N5. unfold GAME_SPEED, SPAWN_Z in *. lra.
Qed.

Lemma forEachObstacle_sane (obstacles : list Obstacle) :
  forall g,
  Forall obstacleOK obstacles ->
  (sessionBounds g -> sessionBounds (fst (forEachObstacle g obstacles)))
  /\ rest (fst (forEachObstacle g obstacles)) = rest g
  /\ Forall obstacleOK
       (filter (fun o => negb (o_remove o))
               (snd (forEachObstacle g obstacles))).
Proof.
  induction obstacles as [|o os IH]; intros g Hall; cbn [forEachObstacle].
  - cbn [fst snd filter].
    split; [trivial|]. split; [reflexivity | constructor].
  - inversion Hall as [|? ? Ho Hos]; subst.
    destruct Ho as (Orm & Oty & Oz1 & Oz2).
    unfold processObstacle.
    set (collide := _ && obstacleCollides g o).
    set (g1 := if collide then _ else g).
    assert (Hs1 : sessionBounds g -> sessionBounds g1).
    { subst g1. destruct collide; [|trivial].
      unfold sessionBounds.
      cbn [scoreRef comboRef energyRef hitNotesRef set_session]. lia. }
    assert (Hr1 : rest g1 = rest g)
      by (subst g1; destruct collide; reflexivity).
    clearbody g1.
    destruct (IH g1 Hos) as (Hs2 & Hr2 & Hf2).
    destruct (forEachObstacle g1 os) as [g2 os1]. cbn [fst snd] in *.
    split; [intro H; exact (Hs2 (Hs1 H))|].
    split; [congruence|].
    cbn [filter o_remove].
    destruct (Qlt_bool (o_z o - GAME_SPEED) (-500)) eqn:E; cbn [negb];
      [exact Hf2|].
    rewrite Orm. cbn [negb]. constructor; [|exact Hf2].
    apply Qlt_bool_false in E.
    unfold obstacleOK. cbn [o_remove o_type o_z].
    split; [reflexivity|]. split; [exact Oty|]. split; [exact E|].
    unfold GAME_SPEED, SPAWN_Z in *. lra.
Qed.

Lemma spawnBlock_sane (g : Game) (rid : string) (rdir : Q) (gx gy : Z)
  (c : BlockColor) :
  (gx = 1%Z /\ c = red) \/ (gx = 2%Z /\ c = blue) -> (0 <= gy <= 2)%Z ->
  sane g -> sane (spawnBlock g rid rdir gx gy c normal).
Proof.
  intros Hlane Hgy (Hs & Hb & Ho & Hl & Hr & Hbass & Hc).
  unfold sane, spawnBlock.
  split; [exact Hs|]. split; [|repeat split; try assumption; apply Hc].
  cbn [blocksRef set_entities]. apply Forall_app. split; [exact Hb|].
  constructor; [|constructor].
  unfold noteOK. cbn [remove type gridX gridY color z].
  split; [reflexivity|]. split; [reflexivity|]. split; [exact Hlane|].
  split; [exact Hgy|]. split; [discriminate | apply Qle_refl].
Qed.

Lemma spawnWall_sane (g : Game) (rid : string) (t : ObstacleType) :
  t <> WALL_TOP -> sane g -> sane (spawnWall g rid t).
Proof.
  intros Ht (Hs & Hb & Ho & Hl & Hr & Hbass & Hc).
  unfold sane, spawnWall.
  split; [exact Hs|]. split; [exact Hb|].
  split; [|repeat split; try assumption; apply Hc].
  cbn [obstaclesRef set_entities]. apply Forall_app. split; [exact Ho|].
  constructor; [|constructor].
  unfold obstacleOK. cbn [o_remove o_type o_z].
  split; [reflexivity|]. split; [exact Ht|].
  split; [discriminate | apply Qle_refl].
Qed.

Lemma schedulerSpawns_sane (beat : Z) (d : Draws) (g : Game) :
  sane g -> sane (schedulerSpawns beat d g).
Proof.
  intro H. unfold schedulerSpawns.
  repeat match goal with
         | |- context [if ?c then _ else _] => destruct c
         end;
    repeat first
      [ apply spawnWall_sane; [discriminate|]
      | apply spawnBlock_sane;
        [first [left; split; reflexivity | right; split; reflexivity]
        | lia |] ];
    exact H.
Qed.

Lemma schedulerBody_sane (bpm : Z) (d : Draws) (g : Game) :
  sane g -> sane (fst (schedulerBody bpm d g)).
Proof.
  intro H. unfold schedulerBody. cbn [fst].
  pose proof (schedulerSpawns_sane (current16thNoteRef g) d g H)
    as (Hs & Hb & Ho & Hl & Hr & Hbass & Hc).
  set (g1 := schedulerSpawns _ _ _) in *. clearbody g1.
  unfold sane, clockOK.
  cbn [blocksRef obstaclesRef leftHandRef rightHandRef bassHistoryRef
       current16thNoteRef timerIDRef set_clock].
  split; [exact Hs|]. repeat split; try assumption; try apply Hc.
  - apply Z.mod_pos_bound. lia.
  - apply Z.mod_pos_bound. lia.
Qed.

Lemma schedulerLoop_sane (fuel : nat) (now : float) (bpm : Z)
  (draws : nat -> Draws) :
  forall i g g' es,
  sane g -> schedulerLoop fuel now bpm draws i g = Some (g', es) -> sane g'.
Proof.
  induction fuel as [|fuel IH]; intros i g g' es Hg; cbn [schedulerLoop].
  - destruct (PrimFloat.ltb _ _); [discriminate|].
    intro H; injection H as <- _. exact Hg.
  - destruct (PrimFloat.ltb _ _).
    + pose proof (schedulerBody_sane bpm (draws i) g Hg) as H1.
      destruct (schedulerBody bpm (draws i) g) as [g1 e]. cbn [fst] in H1.
      destruct (schedulerLoop fuel now bpm draws (Datatypes.S i) g1)
        as [[g2 es2]|] eqn:E; [|discriminate].
      intro H; injection H as <- _. exact (IH _ _ _ _ H1 E).
    + intro H; injection H as <- _. exact Hg.
Qed.

Lemma initAudioContext_sane (supported : bool) (g : Game) :
  sane g -> sane (fst (initAudioContext supported g)).
Proof.
  intro H. unfold initAudioContext.
  destruct (audioCtxRef g); [|destruct supported]; exact H.
Qed.

Lemma startLevel_sane (supported : bool) (currentTime : float) (bpm : Z)
  (name : string) (g : Game) :
  (0 < bpm)%Z -> sane g ->
  sane (startLevel supported currentTime bpm name g).
Proof.
  intros Hbpm H. unfold startLevel.
  assert (H0 : sane (set_trackName g name)) by exact H.
  pose proof (initAudioContext_sane supported _ H0) as H1.
  destruct (initAudioContext supported (set_trackName g name)) as [g1 ok].
  cbn [fst] in H1. destruct ok; cbn [negb]; [|exact H1].
  destruct H1 as (Hs & Hb & Ho & Hl & Hr & Hbass & Hc).
  cbv zeta.
  cbn [userAudioBufferRef set_audio set_entities set_session].
  destruct (userAudioBufferRef g1);
    unfold sane, sessionBounds, clockOK;
    cbn [scoreRef comboRef energyRef hitNotesRef blocksRef obstaclesRef
         leftHandRef rightHandRef bassHistoryRef current16thNoteRef
         timerIDRef set_audio set_entities set_session set_clock
         set_playing].
  - split; [lia|]. split; [constructor|]. split; [constructor|].
    split; [exact Hl|]. split; [exact Hr|]. split; [exact Hbass|].
    split; [apply Hc | discriminate].
  - split; [lia|]. split; [constructor|]. split; [constructor|].
    split; [exact Hl|]. split; [exact Hr|]. split; [exact Hbass|].
    split; [lia|]. intros b E. injection E as <-. exact Hbpm.
Qed.

Lemma handleFileUpload_sane (supported decoded : bool) (currentTime : float)
  (name : string) (g : Game) :
  sane g -> sane (handleFileUpload supported decoded currentTime name g).
Proof.
  intro H. unfold handleFileUpload.
  pose proof (initAudioContext_sane supported g H) as H1.
  destruct (initAudioContext supported g) as [g1 ok]. cbn [fst] in H1.
  destruct ok; cbn [negb]; [|exact H1].
  destruct decoded; [|exact H1].
  apply startLevel_sane; [lia | exact H1].
Qed.

Lemma length_shift (A : Type) (l : list A) (x : A) (n : nat) :
  (List.length l <= n)%nat ->
  (List.length (if (n <? List.length (l ++ [x]))%nat then tl (l ++ [x])
                else l ++ [x]) <= n)%nat.
Proof.
  intro H. destruct (n <? List.length (l ++ [x]))%nat eqn:E.
  - rewrite length_app in *. cbn [List.length] in *.
    destruct l as [|y l']; cbn [app tl List.length] in *;
      [lia | rewrite length_app; cbn [List.length]; lia].
  - apply Nat.ltb_ge in E. exact E.
Qed.

Lemma analyzeAndSpawn_sane (freq : list Q) (perfNow : Q) (d : Draws)
  (g : Game) :
  sane g -> sane (analyzeAndSpawn freq perfNow d g).
Proof.
  intro H. unfold analyzeAndSpawn.
  destruct (negb (analyserRef g)); [exact H|]. cbv zeta.
  set (bass := Qsum _ / 10).
  set (hist := if (30 <? _)%nat then _ else _).
  assert (Hh : (List.length hist <= 30)%nat)
    by (apply length_shift; apply H).
  set (g0 := set_analysis g (lastSpawnTimeRef g) hist).
  assert (H0 : sane g0).
  { destruct H as (Hs & Hb & Ho & Hl & Hr & Hbass & Hc).
    split; [exact Hs|]. repeat split; try assumption; apply Hc. }
  clearbody g0. clear H.
  destruct (Qgt_bool _ 600); [|exact H0].
  destruct (_ && _); [|exact H0].
  set (g1 := spawnBlock g0 _ _ 2 0 blue normal).
  assert (H1 : sane g1)
    by (apply spawnBlock_sane;
        [right; split; reflexivity | lia | exact H0]).
  clearbody g1.
  set (g2 := if Qgt_bool (r_chance d) _ then _ else g1).
  assert (H2 : sane g2).
  { subst g2. destruct (Qgt_bool (r_chance d) _); [|exact H1].
    apply spawnBlock_sane; [left; split; reflexivity | lia | exact H1]. }
  clearbody g2.
  destruct H2 as (Hs & Hb & Ho & Hl & Hr & Hbass & Hc).
  split; [exact Hs|]. repeat split; try assumption; apply Hc.
Qed.

Lemma updateHand_history (cv : Canvas) (lm : list Landmark) (idx : nat)
  (ref : SaberState) :
  historyBounded ref -> historyBounded (updateHand cv lm idx ref).
Proof.
  intro H. unfold updateHand.
  destruct (nth_error lm idx) as [l|]; [|exact H].
  destruct (visible l); [|exact H].
  unfold historyBounded. cbn [history]. apply length_shift. exact H.
Qed.

Lemma updateTracking_sane (cv : Canvas) (pose : option (list Landmark))
  (g : Game) :
  sane g -> sane (updateTracking cv pose g).
Proof.
  intro H. unfold updateTracking. destruct pose as [lm|]; [|exact H].
  destruct H as (Hs & Hb & Ho & Hl & Hr & Hbass & Hc).
  split; [exact Hs|]. split; [exact Hb|]. split; [exact Ho|].
  split; [apply updateHand_history; exact Hl|].
  split; [apply updateHand_history; exact Hr|].
  split; [exact Hbass | exact Hc].
Qed.

Lemma updateLevel_sane (cv : Canvas) (freq : list Q) (perfNow : Q)
  (d : Draws) (g : Game) :
  sane g -> sane (updateLevel cv freq perfNow d g).
Proof.
  intro H. unfold updateLevel.
  set (g0 := if userAudioBufferRef g then _ else g).
  assert (H0 : sane g0)
    by (subst g0; destruct (userAudioBufferRef g);
        [apply analyzeAndSpawn_sane|]; exact H).
  clearbody g0. clear H.
  destruct H0 as (Hs & Hb & Ho & Hl & Hr & Hbass & Hc).
  destruct (forEachBlock_sane cv (blocksRef g0) g0 Hb) as (Bs & Br & Bf).
  destruct (forEachBlock cv g0 (blocksRef g0)) as [g1 blocks].
  cbn [fst snd] in *.
  set (g2 := set_entities g1 _ _ _).
  assert (Ho2 : Forall obstacleOK (obstaclesRef g2)).
  { subst g2. cbn [obstaclesRef set_entities].
    unfold rest in Br. injection Br as _ E2 _ _ _ _ _. rewrite E2.
    exact Ho. }
  destruct (forEachObstacle_sane (obstaclesRef g2) g2 Ho2) as (Os & Or & Of).
  destruct (forEachObstacle g2 (obstaclesRef g2)) as [g3 obstacles].
  cbn [fst snd] in *.
  unfold rest in Br, Or.
  injection Br as _ _ E3 E4 E5 E6 E7.
  injection Or as F1 _ F3 F4 F5 F6 F7.
  subst g2.
  cbn [blocksRef leftHandRef rightHandRef bassHistoryRef current16thNoteRef
       timerIDRef set_entities] in *.
  unfold sane, clockOK.
  cbn [blocksRef obstaclesRef leftHandRef rightHandRef bassHistoryRef
       current16thNoteRef timerIDRef set_entities].
  rewrite F1, F3, F4, F5, F6, F7, E3, E4, E5, E6, E7.
  split; [apply Os; apply Bs; exact Hs|].
  split; [exact Bf|]. split; [exact Of|].
  split; [exact Hl|]. split; [exact Hr|]. split; [exact Hbass | exact Hc].
Qed.

Lemma menuCard_sane (cv : Canvas) (timestamp : Q) (supported : bool)
  (currentTime : float) (idx : nat) (track : Track)
  (st : Game * option string) :
  (0 < t_bpm track)%Z -> sane (fst st) ->
  sane (fst (menuCard cv timestamp supported currentTime idx track st)).
Proof.
  destruct st as [g item]. cbn [fst]. intros Hbpm H. unfold menuCard.
  destruct (_ && same_id _ _); [|exact H].
  destruct (Qge_bool _ 1); [|exact H].
  pose proof (initAudioContext_sane supported g H) as Hi.
  destruct (initAudioContext supported g) as [g1 ok]. cbn [fst] in Hi.
  destruct (Qgt_bool _ 1600); [exact Hi|].
  destruct (t_type track); cbn [fst].
  - apply startLevel_sane; assumption.
  - exact Hi.
Qed.

Lemma forEachTrack_sane (cv : Canvas) (timestamp : Q) (supported : bool)
  (currentTime : float) (tracks : list Track) :
  Forall (fun t => (0 < t_bpm t)%Z) tracks ->
  forall idx st,
  sane (fst st) ->
  sane (fst (forEachTrack cv timestamp supported currentTime idx tracks st)).
Proof.
  induction 1 as [|t rest Ht Hrest IH]; intros idx st H; cbn [forEachTrack].
  - exact H.
  - apply IH. apply menuCard_sane; assumption.
Qed.

Lemma TRACK_LIST_tempo : Forall (fun t => (0 < t_bpm t)%Z) TRACK_LIST.
Proof. repeat constructor. Qed.

Lemma updateMenu_sane (cv : Canvas) (timestamp : Q) (supported : bool)
  (currentTime : float) (g : Game) :
  sane g -> sane (updateMenu cv timestamp supported currentTime g).
Proof.
  intro H. unfold updateMenu.
  pose proof (forEachTrack_sane cv timestamp supported currentTime
                TRACK_LIST TRACK_LIST_tempo 0 (g, None) H) as Hf.
  destruct (forEachTrack _ _ _ _ _ _ _) as [g1 item]. cbn [fst] in Hf.
  destruct item as [item|]; [destruct (same_id _ _)|]; exact Hf.
Qed.

Lemma step_sane (e : Event) (g g' : Game) :
  sane g -> step e g = Some g' -> sane g'.
Proof.
  intros H. destruct e; cbn [step].
  - intro E; injection E as <-. unfold updateGame.
    pose proof (updateTracking_sane (f_canvas f) (f_pose f) g H) as H0.
    destruct (isPlayingRef _).
    + apply updateLevel_sane; exact H0.
    + apply updateMenu_sane; exact H0.
  - unfold schedulerTick. destruct (timerIDRef g) as [bpm|].
    + unfold scheduler.
      destruct (schedulerLoop _ _ _ _ _ _) as [[g1 es]|] eqn:E;
        [|discriminate].
      intro E'; injection E' as <-.
      exact (schedulerLoop_sane _ _ _ _ _ _ _ _ H E).
    + intro E; injection E as <-. exact H.
  - intro E; injection E as <-. apply handleFileUpload_sane; exact H.
  - intro E; injection E as <-. destruct (userSourceRef g); exact H.
  - intro E; injection E as <-.
    destruct H as ((He & Hc & Hsc) & Hrest).
    split; [|exact Hrest].
    unfold sessionBounds.
    cbn [scoreRef comboRef energyRef hitNotesRef set_session set_playing].
    lia.
  - intro E; injection E as <-.
    destruct H as (Hs & Hb & Ho & Hl & Hr & Hbass & Hc).
    split; [exact Hs|]. repeat split; try assumption; try apply Hc.
    discriminate.
Qed.

Lemma run_sane (events : list Event) :
  forall g g', sane g -> run events g = Some g' -> sane g'.
Proof.
  induction events as [|e rest IH]; intros g g' H; cbn [run].
  - intro E; injection E as <-. exact H.
  - destruct (step e g) as [g1|] eqn:E; [|discriminate].
    apply IH. exact (step_sane e g g1 H E).
Qed.

Lemma reachable_sane (g : Game) : reachable g -> sane g.
Proof.
  intros [events Hrun].
  apply (run_sane events initialGame g); [|exact Hrun].
  unfold sane, sessionBounds, clockOK, historyBounded. cbn.
  repeat split; try lia; try constructor. discriminate.
Qed.

(** X1: in every reachable state the energy is at most 100 (the obstacle
    path can take it below 0, nothing takes it above 100). *)
Theorem energy_never_above_100 (g : Game) :
  reachable g -> (energyRef g <= 100)%Z.
Proof. intro H. apply (reachable_sane g H). Qed.

Lemma energy_never_above_100_witness :
  exists g, run wallAfterMisses initialGame = Some g
            /\ reachable g /\ (energyRef g <= 100)%Z.
Proof.
  destruct (run wallAfterMisses initialGame) as [g|] eqn:E;
    [|vm_compute in E; discriminate E].
  exists g.
  assert (Hr : reachable g) by (exists wallAfterMisses; exact E).
  split; [reflexivity|]. split; [exact Hr|].
  exact (energy_never_above_100 g Hr).
Defined.

(** X2: in every reachable state the combo lies between 0 and the number of
    notes cut, and the score between 0 and 110 points per note cut. *)
Theorem combo_and_score_bounded (g : Game) :
  reachable g ->
  (0 <= comboRef g <= hitNotesRef g)%Z
  /\ (0 <= scoreRef g <= 110 * hitNotesRef g)%Z.
Proof. intro H. apply (reachable_sane g H). Qed.

Lemma combo_and_score_bounded_witness :
  exists g, run cutOneNote initialGame = Some g
            /\ reachable g /\ (0 <= comboRef g <= hitNotesRef g)%Z.
Proof.
  destruct (run cutOneNote initialGame) as [g|] eqn:E;
    [|vm_compute in E; discriminate E].
  exists g.
  assert (Hr : reachable g) by (exists cutOneNote; exact E).
  split; [reflexivity|]. split; [exact Hr|].
  exact (proj1 (combo_and_score_bounded g Hr)).
Defined.

(** X3: the game never puts a hazard into play, and it pairs colour and
    column: every active note of a reachable state is a regular note, red
    on column 1 or blue on column 2, on row 0, 1 or 2.  So the hazard
    branch of the judgement is never taken. *)
Theorem active_notes_regular (g : Game) (b : SaberBlock) :
  reachable g -> In b (blocksRef g) ->
  type b = normal
  /\ ((gridX b = 1%Z /\ color b = red) \/ (gridX b = 2%Z /\ color b = blue))
  /\ (0 <= gridY b <= 2)%Z
  /\ forall cv g0, outcome b (snd (processBlock cv g0 b)) <> HazardHit.
Proof.
  intros Hr Hin.
  destruct (reachable_sane g Hr) as (_ & Hb & _).
  rewrite Forall_forall in Hb.
  destruct (Hb b Hin) as (_ & Ht & Hl & Hy & _).
  split; [exact Ht|]. split; [exact Hl|]. split; [exact Hy|].
  intros cv g0. unfold outcome. rewrite Ht. cbn [is_bomb].
  destruct (negb (hit b) && hit _); [discriminate|].
  destruct (_ && _); discriminate.
Qed.

Lemma active_notes_regular_witness :
  exists g b, run cutOneNote initialGame = Some g
              /\ reachable g /\ In b (blocksRef g) /\ type b = normal.
Proof.
  destruct (run cutOneNote initialGame) as [g|] eqn:E;
    [|vm_compute in E; discriminate E].
  assert (Hr : reachable g) by (exists cutOneNote; exact E).
  destruct (blocksRef g) as [|b bs] eqn:Eb.
  - exfalso.
    assert (Hg : Some g = run cutOneNote initialGame)
      by (symmetry; exact E).
    vm_compute in Hg. injection Hg as ->. discriminate Eb.
  - exists g, b.
    assert (Hin : In b (blocksRef g)) by (rewrite Eb; left; reflexivity).
    split; [reflexivity|]. split; [exact Hr|]. split; [exact Hin|].
    exact (proj1 (active_notes_regular g b Hr Hin)).
Defined.



(** X5: the game never puts a top wall into play: every active obstacle of
    a reachable state is a side wall, unmarked for removal, with its depth
    between -500 and 3500.  So whether an obstacle is run into never
    depends on the head position. *)
Theorem active_obstacles_side_walls (g : Game) (o : Obstacle) :
  reachable g -> In o (obstaclesRef g) ->
  o_type o <> WALL_TOP
  /\ o_remove o = false
  /\ -500 <= o_z o /\ o_z o <= 3500
  /\ forall g0 head,
       obstacleCollides
         (set_tracking g0 (leftHandRef g0) (rightHandRef g0) head
                       (bodyRef g0)) o
       = obstacleCollides g0 o.
Proof.
  intros Hr Hin.
  destruct (reachable_sane g Hr) as (_ & _ & Ho & _).
  rewrite Forall_forall in Ho.
  destruct (Ho o Hin) as (Hrm & Ht & Hz1 & Hz2).
  split; [exact Ht|]. split; [exact Hrm|]. split; [exact Hz1|].
  split; [exact Hz2|].
  intros g0 head. unfold obstacleCollides.
  destruct (o_type o); [contradiction Ht; reflexivity | |]; reflexivity.
Qed.

Lemma active_obstacles_side_walls_witness :
  exists g o, run wallAfterMisses initialGame = Some g
              /\ reachable g /\ In o (obstaclesRef g)
              /\ o_type o <> WALL_TOP.
Proof.
  destruct (run wallAfterMisses initialGame) as [g|] eqn:E;
    [|vm_compute in E; discriminate E].
  assert (Hr : reachable g) by (exists wallAfterMisses; exact E).
  destruct (obstaclesRef g) as [|o os] eqn:Eo.
  - exfalso.
    assert (Hg : Some g = run wallAfterMisses initialGame)
      by (symmetry; exact E).
    vm_compute in Hg. injection Hg as ->. discriminate Eo.
  - exists g, o.
    assert (Hin : In o (obstaclesRef g)) by (rewrite Eo; left; reflexivity).
    split; [reflexivity|]. split; [exact Hr|]. split; [exact Hin|].
    exact (proj1 (active_obstacles_side_walls g o Hr Hin)).
Defined.

(** X6: the trail of each hand never holds more than 6 positions, and the
    rolling window of bass samples never more than 30. *)
Theorem histories_bounded (g : Game) :
  reachable g ->
  (List.length (history (leftHandRef g)) <= 6)%nat
  /\ (List.length (history (rightHandRef g)) <= 6)%nat
  /\ (List.length (bassHistoryRef g) <= 30)%nat.
Proof.
  intro H. destruct (reachable_sane g H) as (_ & _ & _ & Hl & Hr & Hb & _).
  split; [exact Hl|]. split; [exact Hr | exact Hb].
Qed.

Lemma histories_bounded_witness :
  exists g, run cutOneNote initialGame = Some g
            /\ reachable g
            /\ (List.length (history (leftHandRef g)) <= 6)%nat.
Proof.
  destruct (run cutOneNote initialGame) as [g|] eqn:E;
    [|vm_compute in E; discriminate E].
  exists g.
  assert (Hr : reachable g) by (exists cutOneNote; exact E).
  split; [reflexivity|]. split; [exact Hr|].
  exact (proj1 (histories_bounded g Hr)).
Defined.

(** ** Misses *)

(** X8: a regular note that was not cut and whose depth, after this tick's
    advance, is below -250 is missed: it is marked for removal, stays
    uncut, the combo becomes 0, the energy drops by 8 (not below 0), score
    and both counters stay, and the session is finished at once exactly
    when the energy has reached 0. *)
Theorem missed_note (cv : Canvas) (g : Game) (block : SaberBlock) :
  type block = normal -> remove block = false -> hit block = false ->
  z (advanced block) < -250 ->
  let g' := fst (processBlock cv g block) in
  let block' := snd (processBlock cv g block) in
  remove block' = true /\ hit block' = false
  /\ comboRef g' = 0%Z
  /\ energyRef g' = Z.max 0 (energyRef g - 8)
  /\ scoreRef g' = scoreRef g
  /\ hitNotesRef g' = hitNotesRef g
  /\ totalNotesRef g' = totalNotesRef g
  /\ ((energyRef g' <= 0)%Z ->
      isPlayingRef g' = false
      /\ gameOverCalls g' =
         (scoreRef g, gradeOf (hitNotesRef g) (totalNotesRef g))
         :: gameOverCalls g)
  /\ ((0 < energyRef g')%Z ->
      isPlayingRef g' = isPlayingRef g
      /\ gameOverCalls g' = gameOverCalls g).
Proof.
  intros Ht Hr Hh Hz. cbv zeta.
  unfold processBlock. rewrite Hr. fold (advanced block).
  unfold judgeBlock. rewrite (out_of_window_when_expired _ Hz).
  unfold expireBlock.
  assert (E : Qlt_bool (z (advanced block)) (-250) = true)
    by (apply Qlt_bool_iff; exact Hz).
  rewrite E.
  change (hit (advanced block)) with (hit block).
  change (type (advanced block)) with (type block).
  rewrite Hh, Ht. cbn [negb andb is_bomb fst snd].
  cbn [energyRef set_session].
  destruct (Z.max 0 (energyRef g - 8) <=? 0)%Z eqn:E0;
    [apply Z.leb_le in E0 | apply Z.leb_gt in E0];
    cbn; repeat split; try reflexivity; try exact Hh; intros; try lia.
Qed.

Lemma missed_note_witness :
  let g := set_session initialGame 300 3 8 3 in
  let block := noteAt blue normal (-240) in
  z (advanced block) < -250
  /\ energyRef (fst (processBlock hd g block)) = 0%Z
  /\ isPlayingRef (fst (processBlock hd g block)) = false.
Proof.
  cbv zeta.
  assert (Hz : z (advanced (noteAt blue normal (-240))) < -250)
    by reflexivity.
  split; [exact Hz|].
  destruct (missed_note hd (set_session initialGame 300 3 8 3)
              (noteAt blue normal (-240)) eq_refl eq_refl eq_refl Hz)
    as (_ & _ & _ & He & _ & _ & _ & Hfin & _).
  split; [exact He|].
  apply Hfin. rewrite He. discriminate.
Defined.

(** X7: one pass of the note loop keeps the energy within [0, 100],
    whatever mixture of cuts, misses and hazard hits it brings: every note
    path clamps.  (Only the obstacle loop can take the energy below 0.) *)
Theorem note_loop_keeps_energy (cv : Canvas) (blocks : list SaberBlock) :
  forall g,
  (0 <= energyRef g <= 100)%Z ->
  (0 <= energyRef (fst (forEachBlock cv g blocks)) <= 100)%Z.
Proof.
  induction blocks as [|b rest IH]; intros g H; cbn [forEachBlock];
    [exact H|].
  pose proof (processBlock_energy cv g b H) as H1.
  destruct (processBlock cv g b) as [g1 b1]. cbn [fst] in H1.
  specialize (IH g1 H1).
  destruct (forEachBlock cv g1 rest) as [g2 rest1]. exact IH.
Qed.

Lemma note_loop_keeps_energy_witness :
  let g := withLeftHand (set_session initialGame 0 0 98 0) 1349 727 in
  let blocks := [noteAt red normal 122; noteAt blue normal (-240)] in
  (0 <= energyRef g <= 100)%Z
  /\ (0 <= energyRef (fst (forEachBlock hd g blocks)) <= 100)%Z.
Proof.
  cbv zeta.
  assert (H : (0 <= energyRef
                      (withLeftHand (set_session initialGame 0 0 98 0)
                                    1349 727) <= 100)%Z)
    by (split; discriminate).
  split; [exact H|].
  exact (note_loop_keeps_energy hd
           [noteAt red normal 122; noteAt blue normal (-240)] _ H).
Defined.

(** ** The life of one note *)

Lemma depthAfter_S (j : nat) :
  depthAfter (Datatypes.S j) == depthAfter j - GAME_SPEED.
Proof.
  unfold depthAfter. rewrite Nat2Z.inj_succ. unfold Z.succ.
  rewrite inject_Z_plus. change (inject_Z 1) with 1. ring.
Qed.

Lemma depthAfter_lt (j : nat) (bound : Z) :
  depthAfter j < inject_Z bound <-> (3500 - 22 * Z.of_nat j < bound)%Z.
Proof.
  unfold depthAfter, SPAWN_Z, GAME_SPEED.
  assert (E : 3500 - 22 * inject_Z (Z.of_nat j)
              == inject_Z (3500 - 22 * Z.of_nat j)).
  { unfold Z.sub. rewrite inject_Z_plus, inject_Z_opp, inject_Z_mult.
    reflexivity. }
  rewrite E, <- Zlt_Qlt. reflexivity.
Qed.

Lemma depthAfter_gt (j : nat) (bound : Z) :
  inject_Z bound < depthAfter j <-> (bound < 3500 - 22 * Z.of_nat j)%Z.
Proof.
  unfold depthAfter, SPAWN_Z, GAME_SPEED.
  assert (E : 3500 - 22 * inject_Z (Z.of_nat j)
              == inject_Z (3500 - 22 * Z.of_nat j)).
  { unfold Z.sub. rewrite inject_Z_plus, inject_Z_opp, inject_Z_mult.
    reflexivity. }
  rewrite E, <- Zlt_Qlt. reflexivity.
Qed.

(** What one callback does to the flags of a note still in play. *)
Lemma processBlock_flags (cv : Canvas) (g : Game) (block : SaberBlock) :
  remove block = false ->
  let block' := snd (processBlock cv g block) in
  (remove block' = true <-> z block - GAME_SPEED < -250)
  /\ (hit block = true -> hit block' = true)
  /\ (hit block = false -> hit block' = true ->
      HIT_WINDOW_Z_NEAR < z block - GAME_SPEED
      /\ z block - GAME_SPEED < HIT_WINDOW_Z_FAR).
Proof.
  intro Hr. cbv zeta. unfold processBlock. rewrite Hr.
  set (b1 := with_z block (z block - GAME_SPEED)).
  assert (Z1 : z b1 = z block - GAME_SPEED) by reflexivity.
  assert (H1 : hit b1 = hit block) by reflexivity.
  assert (R1 : remove b1 = false) by exact Hr.
  rewrite <- Z1, <- H1. clearbody b1.
  assert (HJ : let b2 := snd (judgeBlock cv g b1) in
               z b2 = z b1 /\ remove b2 = false
               /\ (hit b1 = true -> hit b2 = true)
               /\ (hit b1 = false -> hit b2 = true ->
                   HIT_WINDOW_Z_NEAR < z b1 /\ z b1 < HIT_WINDOW_Z_FAR)).
  { cbv zeta. unfold judgeBlock.
    destruct (hit b1) eqn:Hh; cbn [negb andb snd].
    - repeat split; try assumption; intros; congruence.
    - destruct (Qlt_bool (z b1) HIT_WINDOW_Z_FAR) eqn:Ef; cbn [andb snd];
        [|repeat split; try assumption; intros; congruence].
      destruct (Qgt_bool (z b1) HIT_WINDOW_Z_NEAR) eqn:En; cbn [snd];
        [|repeat split; try assumption; intros; congruence].
      apply Qlt_bool_iff in Ef. apply Qgt_bool_iff in En.
      destruct (is_bomb (type b1)).
      + destruct (_ || _); cbn [snd];
          repeat split; try assumption; intros; congruence.
      + destruct (is_red (color b1) && _);
          destruct (is_blue (color b1) && _); cbn [snd];
          repeat split; try assumption; intros; congruence. }
  cbv zeta in HJ.
  destruct (judgeBlock cv g b1) as [g1 b2]. cbn [snd] in HJ.
  destruct HJ as (Z2 & R2 & M2 & W2).
  unfold expireBlock. rewrite Z2.
  destruct (Qlt_bool (z b1) (-250)) eqn:E;
    [apply Qlt_bool_iff in E | apply Qlt_bool_false in E].
  - assert (Hflags : let b3 := snd (if negb (hit b2)
                                       && negb (is_bomb (type b2))
                                    then (penalised g1 8, with_remove b2)
                                    else (g1, with_remove b2)) in
                     remove b3 = true /\ hit b3 = hit b2)
      by (cbv zeta; destruct (_ && _); split; reflexivity).
    cbv zeta in Hflags. unfold penalised in Hflags. cbv zeta in Hflags.
    destruct Hflags as [F1 F2]. rewrite F1, F2.
    split; [split; [intros _; exact E | reflexivity]|].
    split; [exact M2 | exact W2].
  - cbn [snd]. rewrite R2.
    split; [split; [discriminate | intro H; lra]|].
    split; [exact M2 | exact W2].
Qed.

Lemma afterFrames_app (l1 l2 : list (Canvas * Game)) :
  forall b, afterFrames (l1 ++ l2) b = afterFrames l2 (afterFrames l1 b).
Proof.
  induction l1 as [|[cv g] rest IH]; intro b; cbn [app afterFrames];
    [reflexivity | apply IH].
Qed.

Lemma afterFrames_from (ctxs : list (Canvas * Game)) :
  forall (j : nat) (b : SaberBlock),
  (j <= 171)%nat -> z b == depthAfter j ->
  remove b = (171 <=? j)%nat ->
  let n := (j + List.length ctxs)%nat in
  let b' := afterFrames ctxs b in
  z b' == depthAfter (Nat.min n 171)
  /\ remove b' = (171 <=? n)%nat
  /\ (hit b = true -> hit b' = true)
  /\ (hit b = false -> hit b' = true -> (j < 165 /\ 144 <= n)%nat).
Proof.
  induction ctxs as [|[cv g] rest IH]; intros j b Hj Hz Hr; cbv zeta.
  - cbn [afterFrames List.length]. rewrite Nat.add_0_r.
    rewrite Nat.min_l by exact Hj.
    split; [exact Hz|]. split; [exact Hr|].
    split; [trivial|]. intros H0 H1. congruence.
  - cbn [afterFrames List.length].
    destruct (Nat.eq_dec j 171) as [-> | Hne].
    + cbn in Hr.
      assert (E : snd (processBlock cv g b) = b)
        by (unfold processBlock; rewrite Hr; reflexivity).
      rewrite E.
      destruct (IH 171%nat b Hj Hz Hr) as (I1 & I2 & I3 & I4).
      rewrite Nat.min_r in * by lia.
      split; [exact I1|].
      split; [rewrite I2; symmetry;
              transitivity true; [apply Nat.leb_le; lia
                                 | symmetry; apply Nat.leb_le; lia]|].
      split; [exact I3|].
      intros H0 H1. destruct (I4 H0 H1) as [Hlt _]. lia.
    + assert (Hr' : remove b = false)
        by (rewrite Hr; apply Nat.leb_gt; lia).
      pose proof (processBlock_note cv g b Hr') as Hn.
      pose proof (processBlock_flags cv g b Hr') as Hf.
      cbv zeta in Hn, Hf.
      set (b1 := snd (processBlock cv g b)) in *. clearbody b1.
      destruct Hn as (_ & _ & _ & _ & Hz1 & _).
      destruct Hf as (Frm & Fmono & Fwin).
      assert (Hz1' : z b1 == depthAfter (Datatypes.S j))
        by (rewrite Hz1, depthAfter_S, Hz; reflexivity).
      assert (Hr1 : remove b1 = (171 <=? Datatypes.S j)%nat).
      { destruct (remove b1) eqn:Er.
        - symmetry. apply Nat.leb_le.
          assert (Hlt : depthAfter (Datatypes.S j) < inject_Z (-250)).
          { rewrite depthAfter_S, <- Hz. apply Frm. reflexivity. }
          apply depthAfter_lt in Hlt. lia.
        - symmetry. apply Nat.leb_gt.
          destruct (Nat.lt_ge_cases (Datatypes.S j) 171) as [Hlt | Hge];
            [exact Hlt|].
          exfalso.
          assert (Hlt : depthAfter (Datatypes.S j) < inject_Z (-250))
            by (apply depthAfter_lt; lia).
          rewrite depthAfter_S, <- Hz in Hlt.
          apply Frm in Hlt. congruence. }
      destruct (IH (Datatypes.S j) b1 ltac:(lia) Hz1' Hr1)
        as (I1 & I2 & I3 & I4).
      replace (j + Datatypes.S (List.length rest))%nat
        with (Datatypes.S j + List.length rest)%nat by lia.
      split; [exact I1|]. split; [exact I2|].
      split; [intro H; exact (I3 (Fmono H))|].
      intros H0 H1.
      destruct (hit b1) eqn:Eh1.
      * destruct (Fwin H0 eq_refl) as [Wn Wf].
        rewrite <- Hz1, Hz1' in Wn, Wf.
        apply (depthAfter_gt (Datatypes.S j) (-150)) in Wn.
        apply (depthAfter_lt (Datatypes.S j) 350) in Wf.
        lia.
      * destruct (I4 eq_refl H1) as [A B']. lia.
Qed.

(** X9: the life of a note is fixed by the frame count.  After [n] frames
    a note spawned at depth 3500 is at depth 3500 - 22 n; it can only be
    cut in the frames 144 to 165 (whatever the hands do before or after),
    and it leaves play in frame 171, cut or not. *)
Theorem note_lifetime (ctxs : list (Canvas * Game)) (b : SaberBlock) :
  z b = SPAWN_Z -> remove b = false -> hit b = false ->
  let n := List.length ctxs in
  let b' := afterFrames ctxs b in
  z b' == depthAfter (Nat.min n 171)
  /\ (remove b' = true <-> (171 <= n)%nat)
  /\ (hit b' = true -> (144 <= n)%nat)
  /\ hit b' = hit (afterFrames (firstn 165 ctxs) b).
Proof.
  intros Hz Hr Hh. cbv zeta.
  assert (Hz0 : z b == depthAfter 0)
    by (rewrite Hz; unfold depthAfter; cbn [Z.of_nat inject_Z]; ring).
  destruct (afterFrames_from ctxs 0%nat b ltac:(lia) Hz0 Hr)
    as (I1 & I2 & _ & I4).
  cbn [Nat.add] in *.
  split; [exact I1|].
  split; [rewrite I2; apply Nat.leb_le|].
  split; [intro H; exact (proj2 (I4 Hh H))|].
  rewrite <- (firstn_skipn 165 ctxs) at 1. rewrite afterFrames_app.
  destruct (Nat.lt_ge_cases (List.length ctxs) 165) as [Hshort | Hlong].
  - rewrite skipn_all2 by lia. reflexivity.
  - destruct (afterFrames_from (firstn 165 ctxs) 0%nat b ltac:(lia) Hz0 Hr)
      as (J1 & J2 & _).
    cbn [Nat.add] in *.
    rewrite length_firstn, Nat.min_l in J1, J2 by lia.
    rewrite Nat.min_l in J1 by lia.
    change (171 <=? 165)%nat with false in J2.
    set (b1 := afterFrames (firstn 165 ctxs) b) in *. clearbody b1.
    assert (J2' : remove b1 = (171 <=? 165)%nat) by exact J2.
    destruct (afterFrames_from (skipn 165 ctxs) 165%nat b1 ltac:(lia) J1 J2')
      as (_ & _ & K3 & K4).
    destruct (hit b1) eqn:E1; [exact (K3 eq_refl)|].
    destruct (hit (afterFrames (skipn 165 ctxs) b1)) eqn:E2;
      [|reflexivity].
    destruct (K4 eq_refl eq_refl) as [Hlt _]. lia.
Qed.

Lemma note_lifetime_witness :
  let b := noteAt blue normal 3500 in
  let ctxs := repeat (hd, initialGame) 171 in
  (z b = SPAWN_Z /\ remove b = false /\ hit b = false)
  /\ remove (afterFrames ctxs b) = true.
Proof.
  cbv zeta. split; [repeat split|].
  destruct (note_lifetime (repeat (hd, initialGame) 171)
              (noteAt blue normal 3500) eq_refl eq_refl eq_refl)
    as (_ & Hrm & _).
  apply Hrm. rewrite repeat_length. apply Nat.le_refl.
Defined.

(** ** Obstacles *)

(** X10: one pass of the obstacle loop costs 10 energy per obstacle newly
    run into and nothing else: an obstacle already hit is not charged
    again, no obstacle is dropped or added inside the loop, a collision
    resets the combo, and, unlike a miss or a hazard, obstacles never
    finish the session, whatever the energy. *)
Theorem obstacle_pass (obstacles : list Obstacle) (g : Game) :
  let g' := fst (forEachObstacle g obstacles) in
  let obstacles' := snd (forEachObstacle g obstacles) in
  energyRef g' = (energyRef g - 10 * newCollisions obstacles obstacles')%Z
  /\ (0 <= newCollisions obstacles obstacles')%Z
  /\ comboRef g' = (if (0 <? newCollisions obstacles obstacles')%Z
                    then 0%Z else comboRef g)
  /\ List.length obstacles' = List.length obstacles
  /\ Forall2 (fun o o' => o_hit o = true -> o_hit o' = true)
             obstacles obstacles'
  /\ scoreRef g' = scoreRef g /\ hitNotesRef g' = hitNotesRef g
  /\ isPlayingRef g' = isPlayingRef g
  /\ gameOverCalls g' = gameOverCalls g.
Proof.
  revert g. induction obstacles as [|o os IH]; intro g;
    cbn [forEachObstacle fst snd newCollisions].
  - repeat split; try constructor; lia.
  - unfold processObstacle.
    set (collide := _ && obstacleCollides g o).
    set (g1 := if collide then _ else g).
    specialize (IH g1). cbv zeta in IH.
    destruct (forEachObstacle g1 os) as [g2 os1].
    cbn [fst snd newCollisions o_hit List.length] in *.
    destruct IH as (He & Hn & Hc & Hl & Hf & Hs & Hh & Hp & Hgo).
    assert (Hnew : (negb (o_hit o) && (if collide then true else o_hit o))
                   = collide).
    { subst collide. destruct (o_hit o); cbn [negb andb]; [reflexivity|].
      destruct (Qlt_bool _ 250 && _ && _); reflexivity. }
    rewrite Hnew.
    assert (Hg1 : energyRef g1
                  = (energyRef g - 10 * (if collide then 1 else 0))%Z
                  /\ comboRef g1 = (if collide then 0%Z else comboRef g)
                  /\ scoreRef g1 = scoreRef g
                  /\ hitNotesRef g1 = hitNotesRef g
                  /\ isPlayingRef g1 = isPlayingRef g
                  /\ gameOverCalls g1 = gameOverCalls g)
      by (subst g1; destruct collide; cbn; repeat split; lia).
    destruct Hg1 as (G1 & G2 & G3 & G4 & G5 & G6).
    rewrite He, Hc, Hs, Hh, Hp, Hgo, G1, G2, G3, G4, G5, G6, Hl.
    split; [destruct collide; lia|].
    split; [destruct collide; lia|].
    split.
    { destruct collide;
        destruct (0 <? newCollisions os os1)%Z eqn:E0;
        [ | | |]; try reflexivity;
        match goal with
        | |- context [(0 <? ?v)%Z] =>
            destruct (0 <? v)%Z eqn:E1; try reflexivity;
            first [apply Z.ltb_lt in E1 | apply Z.ltb_ge in E1];
            first [apply Z.ltb_lt in E0 | apply Z.ltb_ge in E0]; lia
        end. }
    split; [reflexivity|].
    split; [|repeat split].
    constructor; [|exact Hf].
    intro Ho. destruct collide; [reflexivity | exact Ho].
Qed.

(** ** What the scheduler puts into play *)

Lemma spawnBlock_counts (g : Game) (rid : string) (rdir : Q) (gx gy : Z)
  (c : BlockColor) :
  let g' := spawnBlock g rid rdir gx gy c normal in
  totalNotesRef g' = (totalNotesRef g + 1)%Z
  /\ List.length (blocksRef g') = Datatypes.S (List.length (blocksRef g))
  /\ obstaclesRef g' = obstaclesRef g
  /\ (scoreRef g', comboRef g', energyRef g', hitNotesRef g')
     = (scoreRef g, comboRef g, energyRef g, hitNotesRef g).
Proof.
  cbv zeta. unfold spawnBlock.
  cbn [totalNotesRef blocksRef obstaclesRef set_entities scoreRef comboRef
       energyRef hitNotesRef].
  rewrite length_app. cbn [List.length].
  repeat split. lia.
Qed.

(** One pass: one note for sure on the beats 0, 4, 8 and 12, at most one
    more on the beats 2 and 14, a wall at most on beat 0. *)
Lemma schedulerSpawns_counts (beat : Z) (d : Draws) (g : Game) :
  let g' := schedulerSpawns beat d g in
  let added := (totalNotesRef g' - totalNotesRef g)%Z in
  ((if noteBeat beat then 1 else 0) <= added
   <= (if noteBeat beat then 1 else 0) + (if extraBeat beat then 1 else 0))%Z
  /\ Z.of_nat (List.length (blocksRef g'))
     = (Z.of_nat (List.length (blocksRef g)) + added)%Z
  /\ (List.length (obstaclesRef g) <= List.length (obstaclesRef g')
      <= List.length (obstaclesRef g)
         + (if wallBeat beat then 1 else 0))%nat
  /\ (scoreRef g', comboRef g', energyRef g', hitNotesRef g')
     = (scoreRef g, comboRef g, energyRef g, hitNotesRef g).
Proof.
  cbv zeta. unfold schedulerSpawns, noteBeat, extraBeat, wallBeat.
  destruct (Z.eqb_spec beat 0) as [-> | N0];
    [cbn [Z.eqb Pos.eqb andb orb]
    | destruct (Z.eqb_spec beat 8) as [-> | N8];
      [cbn [Z.eqb Pos.eqb andb orb]
      | destruct (Z.eqb_spec beat 4) as [-> | N4];
        [cbn [Z.eqb Pos.eqb andb orb]
        | destruct (Z.eqb_spec beat 12) as [-> | N12];
          [cbn [Z.eqb Pos.eqb andb orb]
          | destruct (Z.eqb_spec beat 14) as [-> | N14];
            [cbn [Z.eqb Pos.eqb andb orb]
            | destruct (Z.eqb_spec beat 2) as [-> | N2];
              cbn [Z.eqb Pos.eqb andb orb] ]]]]];
    rewrite ?andb_false_r, ?andb_true_r;
    repeat match goal with
           | |- context [Qgt_bool ?a ?b] => destruct (Qgt_bool a b)
           | |- context [Qlt_bool ?a ?b] => destruct (Qlt_bool a b)
           end;
    cbn [andb];
    unfold spawnWall, spawnBlock;
    cbn [totalNotesRef blocksRef obstaclesRef set_entities scoreRef comboRef
         energyRef hitNotesRef];
    rewrite ?length_app; cbn [List.length];
    repeat split; lia.
Qed.

Lemma countBeats_cons (p : Z -> bool) (e : Emitted) (es : list Emitted) :
  countBeats p (e :: es)
  = ((if p (e_beat e) then 1 else 0) + countBeats p es)%Z.
Proof.
  unfold countBeats. cbn [filter].
  destruct (p (e_beat e)); cbn [List.length]; lia.
Qed.

(** X11: a scheduler call that handled the subdivisions [es] has added at
    least one note per subdivision on beat 0, 4, 8 or 12 and at most one
    more per subdivision on beat 2 or 14, each counted in totalNotes; it
    has added at most one wall per bar start and removed none; and it has
    left score, combo, energy and hitNotes alone. *)
Theorem scheduler_spawn_count (fuel : nat) (now : float) (bpm : Z)
  (draws : nat -> Draws) (i : nat) (g g' : Game) (es : list Emitted) :
  schedulerLoop fuel now bpm draws i g = Some (g', es) ->
  let added := (totalNotesRef g' - totalNotesRef g)%Z in
  (countBeats noteBeat es <= added
   <= countBeats noteBeat es + countBeats extraBeat es)%Z
  /\ Z.of_nat (List.length (blocksRef g'))
     = (Z.of_nat (List.length (blocksRef g)) + added)%Z
  /\ (Z.of_nat (List.length (obstaclesRef g))
      <= Z.of_nat (List.length (obstaclesRef g'))
      <= Z.of_nat (List.length (obstaclesRef g)) + countBeats wallBeat es)%Z
  /\ (scoreRef g', comboRef g', energyRef g', hitNotesRef g')
     = (scoreRef g, comboRef g, energyRef g, hitNotesRef g).
Proof.
  revert i g g' es.
  induction fuel as [|fuel IH]; intros i g g' es; cbn [schedulerLoop].
  - destruct (PrimFloat.ltb _ _); [discriminate|].
    intro H; injection H as <- <-. cbv zeta.
    unfold countBeats. cbn. repeat split; lia.
  - destruct (PrimFloat.ltb _ _).
    + unfold schedulerBody.
      pose proof (schedulerSpawns_counts (current16thNoteRef g) (draws i) g)
        as Hc. cbv zeta in Hc.
      set (g1 := schedulerSpawns _ _ g) in *.
      set (g2 := set_clock g1 _ _).
      destruct (schedulerLoop fuel now bpm draws (Datatypes.S i) g2)
        as [[g3 es3]|] eqn:E; [|discriminate].
      intro H; injection H as <- <-.
      pose proof (IH _ _ _ _ E) as Hi. cbv zeta in Hi.
      change (totalNotesRef g2) with (totalNotesRef g1) in Hi.
      change (blocksRef g2) with (blocksRef g1) in Hi.
      change (obstaclesRef g2) with (obstaclesRef g1) in Hi.
      change (scoreRef g2) with (scoreRef g1) in Hi.
      change (comboRef g2) with (comboRef g1) in Hi.
      change (energyRef g2) with (energyRef g1) in Hi.
      change (hitNotesRef g2) with (hitNotesRef g1) in Hi.
      cbv zeta. rewrite !countBeats_cons. cbn [e_beat].
      destruct Hc as (C1 & C2 & C3 & C4).
      destruct Hi as (I1 & I2 & I3 & I4).
      split; [lia|]. split; [lia|].
      split; [destruct (wallBeat (current16thNoteRef g)); lia|].
      congruence.
    + intro H; injection H as <- <-. cbv zeta.
      unfold countBeats. cbn. repeat split; lia.
Qed.

Lemma scheduler_spawn_count_witness :
  let g0 := startLevel true 0 105 "Neon Pulse" initialGame in
  exists g' es,
    schedulerLoop 40 3.5 105 (fun _ => quietDraws) 0 g0
    = Some (g', es)
    /\ (countBeats noteBeat es <= totalNotesRef g' - totalNotesRef g0)%Z.
Proof.
  cbv zeta.
  destruct (schedulerLoop 40 3.5 105 (fun _ => quietDraws) 0
              (startLevel true 0 105 "Neon Pulse" initialGame))
    as [[g' es]|] eqn:E; [|vm_compute in E; discriminate E].
  exists g', es. split; [reflexivity|].
  exact (proj1 (proj1 (scheduler_spawn_count _ _ _ _ _ _ _ _ E))).
Defined.

(** ** Audio-driven spawning *)

Lemma analyzeAndSpawn_soon (freq : list Q) (perfNow : Q) (d : Draws)
  (g : Game) :
  perfNow - lastSpawnTimeRef g <= 600 ->
  blocksRef (analyzeAndSpawn freq perfNow d g) = blocksRef g
  /\ totalNotesRef (analyzeAndSpawn freq perfNow d g) = totalNotesRef g
  /\ lastSpawnTimeRef (analyzeAndSpawn freq perfNow d g) = lastSpawnTimeRef g.
Proof.
  intro Hsoon. apply Qgt_bool_false in Hsoon.
  unfold analyzeAndSpawn.
  destruct (analyserRef g); cbn [negb]; [|repeat split].
  cbv zeta. cbn [lastSpawnTimeRef set_analysis]. rewrite Hsoon.
  repeat split.
Qed.

(** What one call of [analyzeAndSpawn] does to the notes: nothing, or a
    spawn of one or two notes under the conditions of the beat detector. *)
Lemma analyzeAndSpawn_effect (freq : list Q) (perfNow : Q) (d : Draws)
  (g : Game) :
  let g1 := analyzeAndSpawn freq perfNow d g in
  (totalNotesRef g1 = totalNotesRef g)
  \/ (600 < perfNow - lastSpawnTimeRef g
      /\ 120 < bassOf freq
      /\ lastSpawnTimeRef g1 = perfNow
      /\ (1 <= totalNotesRef g1 - totalNotesRef g <= 2)%Z
      /\ Z.of_nat (List.length (blocksRef g1))
         = (Z.of_nat (List.length (blocksRef g))
            + (totalNotesRef g1 - totalNotesRef g))%Z).
Proof.
  cbv zeta. unfold analyzeAndSpawn, bassOf.
  destruct (analyserRef g); cbn [negb]; [|left; reflexivity].
  cbv zeta. cbn [lastSpawnTimeRef set_analysis].
  destruct (Qgt_bool (perfNow - lastSpawnTimeRef g) 600) eqn:Et;
    [apply Qgt_bool_iff in Et | left; reflexivity].
  match goal with
  | |- context [Qgt_bool ?a ?b && Qgt_bool ?a 120] =>
      destruct (Qgt_bool a b); cbn [andb]; [|left; reflexivity];
      destruct (Qgt_bool a 120) eqn:Eb;
        [apply Qgt_bool_iff in Eb | left; reflexivity]
  end.
  right. split; [exact Et|]. split; [exact Eb|].
  destruct (Qgt_bool (r_chance d) _); unfold spawnBlock;
    cbn [lastSpawnTimeRef totalNotesRef blocksRef set_entities set_analysis];
    rewrite ?length_app; cbn [List.length];
    (split; [reflexivity|]); split; lia.
Qed.

(** X12: when a call of [analyzeAndSpawn] spawns, more than 600 ms have
    passed since the last spawn and the bass level is above 120; it adds
    one or two notes, counts them, and records the time; and whatever the
    spectrum, no call within the next 600 ms spawns again. *)
Theorem analysis_debounce (freq : list Q) (perfNow : Q) (d : Draws)
  (g : Game) :
  let g1 := analyzeAndSpawn freq perfNow d g in
  totalNotesRef g1 <> totalNotesRef g ->
  600 < perfNow - lastSpawnTimeRef g
  /\ 120 < bassOf freq
  /\ lastSpawnTimeRef g1 = perfNow
  /\ (1 <= totalNotesRef g1 - totalNotesRef g <= 2)%Z
  /\ Z.of_nat (List.length (blocksRef g1))
     = (Z.of_nat (List.length (blocksRef g))
        + (totalNotesRef g1 - totalNotesRef g))%Z
  /\ forall freq' perfNow' d',
       perfNow' - perfNow <= 600 ->
       blocksRef (analyzeAndSpawn freq' perfNow' d' g1) = blocksRef g1
       /\ totalNotesRef (analyzeAndSpawn freq' perfNow' d' g1)
          = totalNotesRef g1.
Proof.
  intros g1 Hne.
  destruct (analyzeAndSpawn_effect freq perfNow d g)
    as [Hsame | (Ht & Hb & Hlast & Hcount & Hlen)];
    [contradiction Hne; exact Hsame|].
  fold g1 in Hlast, Hcount, Hlen.
  split; [exact Ht|]. split; [exact Hb|]. split; [exact Hlast|].
  split; [exact Hcount|]. split; [exact Hlen|].
  intros freq' perfNow' d' Hsoon.
  destruct (analyzeAndSpawn_soon freq' perfNow' d' g1) as (S1 & S2 & _);
    [rewrite Hlast; exact Hsoon | split; assumption].
Qed.

Lemma analysis_debounce_witness :
  let g1 := analyzeAndSpawn loud 1000 quietDraws afterSilence in
  totalNotesRef g1 <> totalNotesRef afterSilence
  /\ lastSpawnTimeRef g1 = 1000
  /\ totalNotesRef (analyzeAndSpawn loud 1500 quietDraws g1)
     = totalNotesRef g1.
Proof.
  cbv zeta.
  assert (Hspawn : totalNotesRef
                     (analyzeAndSpawn loud 1000 quietDraws afterSilence)
                   <> totalNotesRef afterSilence)
    by (vm_compute; discriminate).
  split; [exact Hspawn|].
  destruct (analysis_debounce loud 1000 quietDraws afterSilence Hspawn)
    as (_ & _ & Hlast & _ & _ & Hnext).
  split; [exact Hlast|].
  apply Hnext. vm_compute. discriminate.
Defined.

(** ** The track menu *)

Lemma same_id_true (cur : option string) (tid : string) :
  same_id cur tid = true <-> cur = Some tid.
Proof.
  unfold same_id. destruct cur as [s|]; [|split; discriminate].
  rewrite String.eqb_eq. split; [intros -> | intro H; injection H as ->];
    reflexivity.
Qed.

Lemma startLevel_keeps_menu (supported : bool) (currentTime : float) (bpm : Z)
  (name : string) (g : Game) :
  let g' := startLevel supported currentTime bpm name g in
  leftHandRef g' = leftHandRef g /\ rightHandRef g' = rightHandRef g
  /\ hoveredTrackIdRef g' = hoveredTrackIdRef g
  /\ hoverStartTimeRef g' = hoverStartTimeRef g
  /\ fileClicks g' = fileClicks g.
Proof.
  cbv zeta. unfold startLevel.
  assert (H1 : let g1 := fst (initAudioContext supported
                                (set_trackName g name)) in
               leftHandRef g1 = leftHandRef g
               /\ rightHandRef g1 = rightHandRef g
               /\ hoveredTrackIdRef g1 = hoveredTrackIdRef g
               /\ hoverStartTimeRef g1 = hoverStartTimeRef g
               /\ fileClicks g1 = fileClicks g)
    by (cbv zeta; unfold initAudioContext; cbn [audioCtxRef set_trackName];
        destruct (audioCtxRef g); [|destruct supported]; repeat split).
  cbv zeta in H1.
  destruct (initAudioContext supported (set_trackName g name)) as [g1 ok].
  cbn [fst] in H1. destruct ok; cbn [negb]; [|exact H1].
  cbv zeta.
  cbn [userAudioBufferRef set_audio set_entities set_session].
  destruct (userAudioBufferRef g1);
    cbn [leftHandRef rightHandRef hoveredTrackIdRef hoverStartTimeRef
         fileClicks set_audio set_entities set_session set_clock
         set_playing];
    exact H1.
Qed.

Lemma menuCard_keeps (cv : Canvas) (timestamp : Q) (supported : bool)
  (currentTime : float) (idx : nat) (track : Track) (g : Game)
  (item : option string) :
  let st := menuCard cv timestamp supported currentTime idx track (g, item) in
  leftHandRef (fst st) = leftHandRef g
  /\ rightHandRef (fst st) = rightHandRef g
  /\ hoveredTrackIdRef (fst st) = hoveredTrackIdRef g
  /\ snd st = (if cardHovered cv idx (leftHandRef g)
                  || cardHovered cv idx (rightHandRef g)
               then Some (t_id track) else item).
Proof.
  cbv zeta. unfold menuCard.
  destruct (cardHovered cv idx (leftHandRef g)
            || cardHovered cv idx (rightHandRef g)); cbn [andb];
    [|repeat split].
  destruct (same_id _ _); [|repeat split].
  destruct (Qge_bool _ 1); [|repeat split].
  assert (Hi : let g1 := fst (initAudioContext supported g) in
               leftHandRef g1 = leftHandRef g
               /\ rightHandRef g1 = rightHandRef g
               /\ hoveredTrackIdRef g1 = hoveredTrackIdRef g)
    by (cbv zeta; unfold initAudioContext;
        destruct (audioCtxRef g); [|destruct supported]; repeat split).
  cbv zeta in Hi.
  destruct (initAudioContext supported g) as [g1 ok]. cbn [fst] in Hi.
  destruct Hi as (I1 & I2 & I3).
  destruct (Qgt_bool _ 1600); cbn [fst snd];
    [split; [exact I1|]; split; [exact I2|]; split; [exact I3|]; reflexivity|].
  destruct (t_type track); cbn [fst snd].
  - destruct (startLevel_keeps_menu supported currentTime (t_bpm track)
                (t_name track) g1) as (S1 & S2 & S3 & _).
    split; [congruence|]. split; [congruence|]. split; [congruence|].
    reflexivity.
  - cbn [leftHandRef rightHandRef hoveredTrackIdRef set_menu].
    split; [exact I1|]. split; [exact I2|]. split; [exact I3|]. reflexivity.
Qed.

Lemma forEachTrack_keeps (cv : Canvas) (timestamp : Q) (supported : bool)
  (currentTime : float) (tracks : list Track) :
  forall idx g item,
  let st := forEachTrack cv timestamp supported currentTime idx tracks
                         (g, item) in
  leftHandRef (fst st) = leftHandRef g
  /\ rightHandRef (fst st) = rightHandRef g
  /\ hoveredTrackIdRef (fst st) = hoveredTrackIdRef g
  /\ snd st = lastHovered cv (leftHandRef g) (rightHandRef g) idx tracks item.
Proof.
  induction tracks as [|t rest IH]; intros idx g item;
    cbn [forEachTrack lastHovered]; [repeat split|].
  destruct (menuCard_keeps cv timestamp supported currentTime idx t g item)
    as (M1 & M2 & M3 & M4).
  destruct (menuCard cv timestamp supported currentTime idx t (g, item))
    as [g1 item1]. cbn [fst snd] in *.
  destruct (IH (Datatypes.S idx) g1 item1) as (I1 & I2 & I3 & I4).
  cbv zeta. rewrite I1, I2, I3, I4, M1, M2, M3, M4. repeat split.
Qed.

(** A hand lies over at most one card. *)
Lemma cards_disjoint (cv : Canvas) (hand : SaberState) (i j : nat) :
  cardHovered cv i hand = true -> cardHovered cv j hand = true -> i = j.
Proof.
  unfold cardHovered. cbv zeta.
  rewrite !andb_true_iff, !Qgt_bool_iff, !Qlt_bool_iff.
  intros (((_ & _) & Hi1) & Hi2) (((_ & _) & Hj1) & Hj2).
  assert (Hij : inject_Z (Z.of_nat i) * 115 < inject_Z (Z.of_nat j) * 115 + 90)
    by lra.
  assert (Hji : inject_Z (Z.of_nat j) * 115 < inject_Z (Z.of_nat i) * 115 + 90)
    by lra.
  assert (Hij' : inject_Z (Z.of_nat i * 115) < inject_Z (Z.of_nat j * 115 + 90))
    by (rewrite inject_Z_plus, !inject_Z_mult; exact Hij).
  assert (Hji' : inject_Z (Z.of_nat j * 115) < inject_Z (Z.of_nat i * 115 + 90))
    by (rewrite inject_Z_plus, !inject_Z_mult; exact Hji).
  rewrite <- Zlt_Qlt in Hij', Hji'. lia.
Qed.

(** X13: after a menu frame the hovered-track ref names the card under a
    hand (the last such card in list order, or none), whether or not the
    frame started a level.  Leaving all cards clears the ref and the start
    time; arriving on a card other than the one dwelt on restarts the dwell
    at this frame's timestamp, so no dwell time carries over from one card
    to another.  A hand lies over at most one card. *)
Theorem track_menu_bookkeeping (cv : Canvas) (timestamp : Q)
  (supported : bool) (currentTime : float) (g : Game) :
  let g' := updateMenu cv timestamp supported currentTime g in
  let target := lastHovered cv (leftHandRef g) (rightHandRef g) 0
                            TRACK_LIST None in
  hoveredTrackIdRef g' = target
  /\ (target = None -> hoverStartTimeRef g' = 0)
  /\ (forall tid, target = Some tid -> hoveredTrackIdRef g <> Some tid ->
                  hoverStartTimeRef g' = timestamp)
  /\ leftHandRef g' = leftHandRef g /\ rightHandRef g' = rightHandRef g
  /\ (forall hand i j,
      cardHovered cv i hand = true -> cardHovered cv j hand = true -> i = j).
Proof.
  cbv zeta. unfold updateMenu.
  destruct (forEachTrack_keeps cv timestamp supported currentTime TRACK_LIST
              0%nat g None) as (K1 & K2 & K3 & K4).
  destruct (forEachTrack cv timestamp supported currentTime 0 TRACK_LIST
                         (g, None)) as [g1 item]. cbn [fst snd] in *.
  rewrite <- K4.
  destruct item as [item|].
  - destruct (same_id (hoveredTrackIdRef g1) item) eqn:Es.
    + apply same_id_true in Es.
      split; [exact Es|]. split; [discriminate|].
      split; [intros tid Ht Hne; injection Ht as <-; congruence|].
      split; [exact K1|]. split; [exact K2 | apply cards_disjoint].
    + cbn [hoveredTrackIdRef hoverStartTimeRef leftHandRef rightHandRef
           set_menu].
      split; [reflexivity|]. split; [discriminate|].
      split; [reflexivity|].
      split; [exact K1|]. split; [exact K2 | apply cards_disjoint].
  - cbn [hoveredTrackIdRef hoverStartTimeRef leftHandRef rightHandRef
         set_menu].
    split; [reflexivity|]. split; [reflexivity|].
    split; [discriminate|].
    split; [exact K1|]. split; [exact K2 | apply cards_disjoint].
Qed.

Lemma untouched_refl (g : Game) : untouched g g.
Proof. repeat split. Qed.

Lemma untouched_trans (g g1 g2 : Game) :
  untouched g g1 -> untouched g1 g2 -> untouched g g2.
Proof.
  unfold untouched. intros (A1 & A2 & A3 & A4) (B1 & B2 & B3 & B4).
  repeat split; congruence.
Qed.

Lemma initAudioContext_untouched (supported : bool) (g : Game) :
  untouched g (fst (initAudioContext supported g))
  /\ hoveredTrackIdRef (fst (initAudioContext supported g))
     = hoveredTrackIdRef g.
Proof.
  unfold initAudioContext.
  destruct (audioCtxRef g); [|destruct supported]; repeat split.
Qed.

(** What one card callback does: nothing that matters to the menu, or the
    commit of the card dwelt on, inside the window. *)
Lemma menuCard_effect (cv : Canvas) (timestamp : Q) (supported : bool)
  (currentTime : float) (idx : nat) (track : Track) (g : Game)
  (item : option string) :
  let g' := fst (menuCard cv timestamp supported currentTime idx track
                          (g, item)) in
  untouched g g'
  \/ (hoveredTrackIdRef g = Some (t_id track)
      /\ cardHovered cv idx (leftHandRef g)
         || cardHovered cv idx (rightHandRef g) = true
      /\ 1500 <= timestamp - hoverStartTimeRef g
      /\ timestamp - hoverStartTimeRef g <= 1600
      /\ match t_type track with
         | UPLOAD =>
             fileClicks g' = Datatypes.S (fileClicks g)
             /\ hoverStartTimeRef g' = timestamp - 20000
             /\ isPlayingRef g' = isPlayingRef g
             /\ currentTrackName g' = currentTrackName g
         | GENERATED =>
             fileClicks g' = fileClicks g
             /\ hoverStartTimeRef g' = hoverStartTimeRef g
         end).
Proof.
  cbv zeta. unfold menuCard.
  destruct (cardHovered cv idx (leftHandRef g)
            || cardHovered cv idx (rightHandRef g)) eqn:Eh; cbn [andb];
    [|left; apply untouched_refl].
  destruct (same_id _ _) eqn:Es; [|left; apply untouched_refl].
  apply same_id_true in Es.
  destruct (Qge_bool _ 1) eqn:Efull; [|left; apply untouched_refl].
  apply menuProgress_full in Efull.
  destruct (initAudioContext_untouched supported g)
    as ((U1 & U2 & U3 & U4) & _).
  destruct (initAudioContext supported g) as [g1 ok]. cbn [fst] in *.
  destruct (Qgt_bool _ 1600) eqn:Elate; cbn [fst];
    [left; repeat split; assumption|].
  apply Qgt_bool_false in Elate.
  right. split; [exact Es|]. split; [reflexivity|].
  split; [exact Efull|]. split; [exact Elate|].
  destruct (t_type track); cbn [fst].
  - destruct (startLevel_keeps_menu supported currentTime (t_bpm track)
                (t_name track) g1) as (_ & _ & _ & S4 & S5).
    split; congruence.
  - cbn [fileClicks hoverStartTimeRef isPlayingRef currentTrackName set_menu].
    split; [congruence|]. split; [reflexivity|]. split; assumption.
Qed.

Lemma menuCard_stale (cv : Canvas) (timestamp : Q) (supported : bool)
  (currentTime : float) (idx : nat) (track : Track) (g : Game)
  (item : option string) :
  1600 < timestamp - hoverStartTimeRef g ->
  untouched g (fst (menuCard cv timestamp supported currentTime idx track
                             (g, item))).
Proof.
  intro Hstale.
  destruct (menuCard_effect cv timestamp supported currentTime idx track g
              item) as [U | (_ & _ & _ & Hle & _)]; [exact U | lra].
Qed.

Lemma forEachTrack_stale (cv : Canvas) (timestamp : Q) (supported : bool)
  (currentTime : float) (tracks : list Track) :
  forall idx g item,
  1600 < timestamp - hoverStartTimeRef g ->
  untouched g (fst (forEachTrack cv timestamp supported currentTime idx
                                 tracks (g, item))).
Proof.
  induction tracks as [|t rest IH]; intros idx g item Hstale;
    cbn [forEachTrack]; [apply untouched_refl|].
  pose proof (menuCard_stale cv timestamp supported currentTime idx t g item
                Hstale) as U.
  destruct (menuCard cv timestamp supported currentTime idx t (g, item))
    as [g1 item1]. cbn [fst] in U.
  apply (untouched_trans g g1); [exact U|].
  apply IH. destruct U as (_ & -> & _). exact Hstale.
Qed.

(** A menu frame on a dwell older than 1600 ms commits nothing, and the
    dwell stays as old while the same card stays hovered. *)
Lemma updateMenu_stale (cv : Canvas) (timestamp : Q) (supported : bool)
  (currentTime : float) (g : Game) :
  1600 < timestamp - hoverStartTimeRef g ->
  let g' := updateMenu cv timestamp supported currentTime g in
  fileClicks g' = fileClicks g /\ isPlayingRef g' = isPlayingRef g
  /\ currentTrackName g' = currentTrackName g
  /\ (forall tid, hoveredTrackIdRef g = Some tid ->
                  hoveredTrackIdRef g' = Some tid ->
                  hoverStartTimeRef g' = hoverStartTimeRef g).
Proof.
  intro Hstale. cbv zeta. unfold updateMenu.
  pose proof (forEachTrack_stale cv timestamp supported currentTime
                TRACK_LIST 0%nat g None Hstale) as (U1 & U2 & U3 & U4).
  destruct (forEachTrack_keeps cv timestamp supported currentTime TRACK_LIST
              0%nat g None) as (_ & _ & K3 & _).
  destruct (forEachTrack cv timestamp supported currentTime 0 TRACK_LIST
                         (g, None)) as [g1 item]. cbn [fst snd] in *.
  destruct item as [item|].
  - destruct (same_id (hoveredTrackIdRef g1) item) eqn:Es.
    + repeat split; try assumption. intros; assumption.
    + cbn [fileClicks isPlayingRef currentTrackName hoveredTrackIdRef
           hoverStartTimeRef set_menu].
      split; [exact U1|]. split; [exact U3|]. split; [exact U4|].
      intros tid Hg Hg'. injection Hg' as ->.
      rewrite K3, Hg in Es.
      assert (Ht : same_id (Some tid) tid = true)
        by (apply same_id_true; reflexivity).
      congruence.
  - cbn [fileClicks isPlayingRef currentTrackName hoveredTrackIdRef
         hoverStartTimeRef set_menu].
    split; [exact U1|]. split; [exact U3|]. split; [exact U4|].
    intros; discriminate.
Qed.

Lemma updateTracking_menu (cv : Canvas) (pose : option (list Landmark))
  (g : Game) :
  untouched g (updateTracking cv pose g)
  /\ hoveredTrackIdRef (updateTracking cv pose g) = hoveredTrackIdRef g.
Proof.
  unfold updateTracking. destruct pose; repeat split.
Qed.

(** X14: one menu frame opens the file dialog at most once, and only for
    the upload entry, dwelt on for 1500 to 1600 ms.  That frame starts no
    level, keeps the entry as the hovered one and moves the start of the
    dwell 20 s into the past, so that the dwell is older than 1600 ms at any
    later time. *)
Theorem file_dialog_once (cv : Canvas) (timestamp : Q) (supported : bool)
  (currentTime : float) (g : Game) :
  let g' := updateMenu cv timestamp supported currentTime g in
  (fileClicks g' = fileClicks g
   \/ fileClicks g' = Datatypes.S (fileClicks g))
  /\ (fileClicks g' <> fileClicks g ->
      hoveredTrackIdRef g = Some "upload"%string
      /\ 1500 <= timestamp - hoverStartTimeRef g
      /\ timestamp - hoverStartTimeRef g <= 1600
      /\ isPlayingRef g' = isPlayingRef g
      /\ currentTrackName g' = currentTrackName g
      /\ hoveredTrackIdRef g' = Some "upload"%string
      /\ hoverStartTimeRef g' = timestamp - 20000
      /\ forall later, timestamp <= later ->
                       1600 < later - hoverStartTimeRef g').
Proof.
  cbv zeta. unfold updateMenu, TRACK_LIST. cbn [forEachTrack].
  pose proof (menuCard_effect cv timestamp supported currentTime 0
                (mkTrack "track_1" "Neon Pulse" 105 GENERATED) g None) as E1.
  pose proof (menuCard_keeps cv timestamp supported currentTime 0
                (mkTrack "track_1" "Neon Pulse" 105 GENERATED) g None)
    as (_ & _ & H1 & _).
  destruct (menuCard cv timestamp supported currentTime 0 _ (g, None))
    as [g1 i1]. cbn [fst snd t_type t_id] in E1, H1.
  pose proof (menuCard_effect cv timestamp supported currentTime 1
                (mkTrack "track_2" "Cyber Storm" 130 GENERATED) g1 i1) as E2.
  pose proof (menuCard_keeps cv timestamp supported currentTime 1
                (mkTrack "track_2" "Cyber Storm" 130 GENERATED) g1 i1)
    as (_ & _ & H2 & _).
  destruct (menuCard cv timestamp supported currentTime 1 _ (g1, i1))
    as [g2 i2]. cbn [fst snd t_type t_id] in E2, H2.
  pose proof (menuCard_effect cv timestamp supported currentTime 2
                (mkTrack "track_3" "Void Walker" 150 GENERATED) g2 i2) as E3.
  pose proof (menuCard_keeps cv timestamp supported currentTime 2
                (mkTrack "track_3" "Void Walker" 150 GENERATED) g2 i2)
    as (_ & _ & H3 & _).
  destruct (menuCard cv timestamp supported currentTime 2 _ (g2, i2))
    as [g3 i3]. cbn [fst snd t_type t_id] in E3, H3.
  pose proof (menuCard_effect cv timestamp supported currentTime 3
                (mkTrack "upload" "MP3" 120 UPLOAD) g3 i3) as E4.
  pose proof (menuCard_keeps cv timestamp supported currentTime 3
                (mkTrack "upload" "MP3" 120 UPLOAD) g3 i3)
    as (_ & _ & H4 & I4).
  destruct (menuCard cv timestamp supported currentTime 3 _ (g3, i3))
    as [g4 i4]. cbn [fst snd t_type t_id] in E4, H4, I4.
  assert (F3 : fileClicks g3 = fileClicks g
               /\ hoverStartTimeRef g3 = hoverStartTimeRef g).
  { destruct E1 as [(A1 & A2 & _) | (_ & _ & _ & _ & A1 & A2)];
      destruct E2 as [(B1 & B2 & _) | (_ & _ & _ & _ & B1 & B2)];
      destruct E3 as [(C1 & C2 & _) | (_ & _ & _ & _ & C1 & C2)];
      split; congruence. }
  destruct F3 as (F3 & S3).
  assert (Hfinal :
    forall g', (match i4 with
                | Some item =>
                    if same_id (hoveredTrackIdRef g4) item then g4
                    else set_menu g4 timestamp (Some item) (fileClicks g4)
                | None => set_menu g4 0 None (fileClicks g4)
                end) = g' -> fileClicks g' = fileClicks g4).
  { intros g' <-. destruct i4 as [item|];
      [destruct (same_id _ _)|]; reflexivity. }
  destruct E4 as [(D1 & D2 & D3 & D4)
                 | (Hup & Hhov & Hlo & Hhi & D1 & D2 & D3 & D4)].
  - split; [left|intro Hne; contradiction Hne];
      rewrite (Hfinal _ eq_refl); congruence.
  - split; [right; rewrite (Hfinal _ eq_refl); congruence|]. intros _.
    rewrite Hhov in I4. subst i4.
    assert (Es : same_id (hoveredTrackIdRef g4) "upload" = true)
      by (apply same_id_true; congruence).
    rewrite Es.
    assert (Hg : hoveredTrackIdRef g = Some "upload"%string) by congruence.
    assert (U3 : isPlayingRef g3 = isPlayingRef g
                 /\ currentTrackName g3 = currentTrackName g).
    { destruct E1 as [(_ & _ & A3 & A4) | (A & _)];
        [|rewrite Hg in A; discriminate A].
      destruct E2 as [(_ & _ & B3 & B4) | (B & _)];
        [|rewrite H1, Hg in B; discriminate B].
      destruct E3 as [(_ & _ & C3 & C4) | (C & _)];
        [|rewrite H2, H1, Hg in C; discriminate C].
      split; congruence. }
    destruct U3 as (P3 & N3).
    split; [exact Hg|]. rewrite S3 in Hlo, Hhi.
    split; [exact Hlo|]. split; [exact Hhi|].
    split; [congruence|]. split; [congruence|].
    split; [congruence|]. split; [exact D2|].
    intros later Hlater. rewrite D2. lra.
Qed.

Lemma file_dialog_once_witness :
  let g := updateTracking hd (Some uploadPose) overUpload in
  let g' := updateMenu hd 2500 true 0 g in
  fileClicks g' <> fileClicks g
  /\ hoveredTrackIdRef g' = Some "upload"%string
  /\ hoverStartTimeRef g' = 2500 - 20000
  /\ isPlayingRef g' = isPlayingRef g.
Proof.
  cbv zeta.
  assert (Hne : fileClicks (updateMenu hd 2500 true 0
                  (updateTracking hd (Some uploadPose) overUpload))
                <> fileClicks (updateTracking hd (Some uploadPose)
                                              overUpload))
    by (vm_compute; discriminate).
  destruct (file_dialog_once hd 2500 true 0
              (updateTracking hd (Some uploadPose) overUpload))
    as (_ & Hclick).
  destruct (Hclick Hne) as (_ & _ & _ & Hp & _ & Hh & Hs & _).
  split; [exact Hne|]. split; [exact Hh|]. split; [exact Hs | exact Hp].
Defined.

(** X15: a dwell that is older than 1600 ms never commits.  Over any
    series of animation frames in the menu, all later than 1600 ms after the
    start of the dwell, and for as long as the hovered-track ref stays on
    the same card, no level starts, the file dialog is not opened and the
    start of the dwell is not renewed: only leaving the card begins a new
    dwell.  In particular the file dialog, once opened, is not opened again
    while the hands stay on the upload entry. *)
Theorem stale_dwell_never_commits (fs : list FrameInput) (g : Game)
  (tid : string) :
  isPlayingRef g = false ->
  hoveredTrackIdRef g = Some tid ->
  Forall (fun f => 1600 < f_timestamp f - hoverStartTimeRef g) fs ->
  Forall (fun g' => hoveredTrackIdRef g' = Some tid) (framesFrom fs g) ->
  Forall (fun g' => isPlayingRef g' = false
                    /\ fileClicks g' = fileClicks g
                    /\ currentTrackName g' = currentTrackName g
                    /\ hoverStartTimeRef g' = hoverStartTimeRef g)
         (framesFrom fs g).
Proof.
  revert g. induction fs as [|f rest IH]; intros g Hplay Hid Hlate Hstay;
    cbn [framesFrom] in *; [constructor|].
  inversion Hlate as [|? ? Hf Hrest]; subst.
  inversion Hstay as [|? ? Hg' Hstay']; subst.
  assert (Hstep : isPlayingRef (updateGame f g) = false
                  /\ fileClicks (updateGame f g) = fileClicks g
                  /\ currentTrackName (updateGame f g) = currentTrackName g
                  /\ hoverStartTimeRef (updateGame f g)
                     = hoverStartTimeRef g).
  { revert Hg'. unfold updateGame.
    destruct (updateTracking_menu (f_canvas f) (f_pose f) g)
      as ((T1 & T2 & T3 & T4) & T5).
    rewrite T3, Hplay. intro Hg'.
    assert (Hf' : 1600 < f_timestamp f
                         - hoverStartTimeRef
                             (updateTracking (f_canvas f) (f_pose f) g))
      by (rewrite T2; exact Hf).
    destruct (updateMenu_stale (f_canvas f) (f_timestamp f)
                (f_audioSupported f) (f_currentTime f)
                (updateTracking (f_canvas f) (f_pose f) g) Hf')
      as (M1 & M2 & M3 & M4).
    split; [congruence|]. split; [congruence|]. split; [congruence|].
    rewrite (M4 tid); [exact T2 | congruence | exact Hg']. }
  destruct Hstep as (S1 & S2 & S3 & S4).
  constructor; [repeat split; assumption|].
  assert (IH' := IH (updateGame f g) S1 Hg').
  rewrite S2, S3, S4 in IH'. apply IH'; assumption.
Qed.

Lemma stale_dwell_never_commits_witness :
  fileClicks afterFileDialog = 1%nat
  /\ Forall (fun g' => isPlayingRef g' = false
                       /\ fileClicks g' = fileClicks afterFileDialog
                       /\ currentTrackName g'
                          = currentTrackName afterFileDialog
                       /\ hoverStartTimeRef g'
                          = hoverStartTimeRef afterFileDialog)
            (framesFrom lingering afterFileDialog).
Proof.
  split; [vm_compute; reflexivity|].
  apply (stale_dwell_never_commits lingering afterFileDialog "upload").
  - vm_compute; reflexivity.
  - vm_compute; reflexivity.
  - repeat constructor; vm_compute; reflexivity.
  - repeat constructor; vm_compute; reflexivity.
Defined.

Lemma track_menu_bookkeeping_witness :
  let g := updateTracking hd (Some hoverPose2) overFirstCard in
  let g' := updateMenu hd 1200 true 0 g in
  hoveredTrackIdRef g = Some "track_1"%string
  /\ hoveredTrackIdRef g' = Some "track_2"%string
  /\ hoverStartTimeRef g' = 1200.
Proof.
  cbv zeta.
  destruct (track_menu_bookkeeping hd 1200 true 0
              (updateTracking hd (Some hoverPose2) overFirstCard))
    as (Hid & _ & Hstart & _).
  split; [vm_compute; reflexivity|].
  split; [rewrite Hid; vm_compute; reflexivity|].
  apply (Hstart "track_2"%string);
    [vm_compute; reflexivity | vm_compute; discriminate].
Defined.

(** ** The geometry of a cut *)

Lemma window_scale (zb : Q) :
  HIT_WINDOW_Z_NEAR < zb -> zb < HIT_WINDOW_Z_FAR ->
  1 # 2 < FOCAL_LENGTH / (FOCAL_LENGTH + zb)
  /\ FOCAL_LENGTH / (FOCAL_LENGTH + zb) < 7 # 4.
Proof.
  unfold HIT_WINDOW_Z_NEAR, HIT_WINDOW_Z_FAR, FOCAL_LENGTH. intros Hn Hf.
  split.
  - apply Qlt_shift_div_l; lra.
  - apply Qlt_shift_div_r; lra.
Qed.

Lemma hitCheck_near (proj : Projection) (size : Q) (hand : SaberState) :
  hitCheck proj size hand = true ->
  - (size * (15 # 10)) < x hand - p_x proj
  /\ x hand - p_x proj < size * (15 # 10)
  /\ - (size * (15 # 10)) < y hand - p_y proj
  /\ y hand - p_y proj < size * (15 # 10).
Proof.
  unfold hitCheck. cbv zeta. rewrite andb_true_iff, !Qlt_bool_iff.
  unfold Qsq.
  set (b := size * (15 # 10)). set (dx := x hand - p_x proj).
  set (dy := y hand - p_y proj). intros (Hb & Hd).
  repeat split; nra.
Qed.

(** Where a hand that reaches a note in the hit window is: on the note's
    side of the centre line, at least 100 pixels from it. *)
Lemma reach_side (cv : Canvas) (block : SaberBlock) (hand : SaberState) :
  HIT_WINDOW_Z_NEAR < z block -> z block < HIT_WINDOW_Z_FAR ->
  hitCheck (blockProjection cv block)
           (BLOCK_SIZE * p_scale (blockProjection cv block)) hand = true ->
  (gridX block = 1%Z ->
   width cv / 2 - 1400 < x hand /\ x hand < width cv / 2 - 100)
  /\ (gridX block = 2%Z ->
      width cv / 2 + 100 < x hand /\ x hand < width cv / 2 + 1400).
Proof.
  intros Hn Hf Hhit. apply hitCheck_near in Hhit.
  destruct Hhit as (Hx1 & Hx2 & _).
  destruct (window_scale (z block) Hn Hf) as (Hs1 & Hs2).
  unfold blockProjection, project in Hx1, Hx2. cbv zeta in Hx1, Hx2.
  cbn [p_x p_scale] in Hx1, Hx2.
  unfold BLOCK_SIZE, GRID_X_SPACING in Hx1, Hx2.
  set (s := FOCAL_LENGTH / (FOCAL_LENGTH + z block)) in *.
  split; intro Hg; rewrite Hg in Hx1, Hx2;
    [change (inject_Z 1) with 1 in Hx1, Hx2
    |change (inject_Z 2) with 2 in Hx1, Hx2]; split; lra.
Qed.

Lemma expireBlock_hit (g : Game) (b : SaberBlock) :
  hit (snd (expireBlock g b)) = hit b.
Proof.
  unfold expireBlock. destruct (Qlt_bool (z b) (-250)); [|reflexivity].
  destruct (negb (hit b) && negb (is_bomb (type b))); reflexivity.
Qed.

(** X16: the notes of a session are cut on their own side of the screen.
    When the note callback cuts a red note the left hand is left of the
    centre line by more than 100 pixels, and when it cuts a blue note the
    right hand is right of it by more than 100 pixels (and in both cases
    less than 1400 pixels away from the line). *)
Theorem cut_on_own_side (cv : Canvas) (g : Game) (block : SaberBlock) :
  noteOK block -> hit block = false ->
  hit (snd (processBlock cv g block)) = true ->
  match color block with
  | red => width cv / 2 - 1400 < x (leftHandRef g)
           /\ x (leftHandRef g) < width cv / 2 - 100
  | blue => width cv / 2 + 100 < x (rightHandRef g)
            /\ x (rightHandRef g) < width cv / 2 + 1400
  end.
Proof.
  intros (Hr & Ht & Hlane & _) Hh. unfold processBlock. rewrite Hr.
  set (b1 := with_z block (z block - GAME_SPEED)).
  assert (H1 : hit b1 = false) by exact Hh.
  assert (T1 : type b1 = normal) by exact Ht.
  assert (C1 : color b1 = color block) by reflexivity.
  assert (X1 : gridX b1 = gridX block) by reflexivity.
  clearbody b1.
  assert (HJ : hit (snd (judgeBlock cv g b1)) = true ->
               match color block with
               | red => width cv / 2 - 1400 < x (leftHandRef g)
                        /\ x (leftHandRef g) < width cv / 2 - 100
               | blue => width cv / 2 + 100 < x (rightHandRef g)
                         /\ x (rightHandRef g) < width cv / 2 + 1400
               end).
  { unfold judgeBlock. rewrite H1, T1. cbn [negb andb is_bomb].
    destruct (Qlt_bool (z b1) HIT_WINDOW_Z_FAR) eqn:Ef; cbn [andb snd];
      [apply Qlt_bool_iff in Ef | congruence].
    destruct (Qgt_bool (z b1) HIT_WINDOW_Z_NEAR) eqn:En; cbn [snd];
      [apply Qgt_bool_iff in En | congruence].
    cbv zeta. rewrite C1.
    destruct Hlane as [(Hx & Hc) | (Hx & Hc)]; rewrite Hc;
      cbn [is_red is_blue andb].
    - destruct (hitCheck _ _ (leftHandRef g)) eqn:El; cbn [snd];
        [intros _ | congruence].
      apply (reach_side cv b1 (leftHandRef g) En Ef El). congruence.
    - destruct (hitCheck _ _ (rightHandRef g)) eqn:Er; cbn [snd];
        [intros _ | congruence].
      apply (reach_side cv b1 (rightHandRef g) En Ef Er). congruence. }
  destruct (judgeBlock cv g b1) as [g1 b2]. cbn [snd] in HJ.
  rewrite expireBlock_hit. exact HJ.
Qed.

Lemma cut_on_own_side_witness :
  let g := withLeftHand initialGame 571 727 in
  hit (snd (processBlock hd g (leftNote 122))) = true
  /\ x (leftHandRef g) < width hd / 2 - 100.
Proof.
  cbv zeta.
  assert (Hok : noteOK (leftNote 122)).
  { unfold noteOK, leftNote; cbn.
    split; [reflexivity|]. split; [reflexivity|].
    split; [left; split; reflexivity|]. split; [lia|].
    split; [discriminate | unfold SPAWN_Z; discriminate]. }
  assert (Hcut : hit (snd (processBlock hd (withLeftHand initialGame 571 727)
                                        (leftNote 122))) = true)
    by (vm_compute; reflexivity).
  split; [exact Hcut|].
  exact (proj2 (cut_on_own_side hd (withLeftHand initialGame 571 727)
                  (leftNote 122) Hok eq_refl Hcut)).
Defined.

(** ** Within a level *)

Lemma levelKept_refl (g : Game) : levelKept g g.
Proof. unfold levelKept. repeat split; try lia. intro H; exact H. Qed.

Lemma levelKept_trans (g g1 g2 : Game) :
  levelKept g g1 -> levelKept g1 g2 -> levelKept g g2.
Proof.
  unfold levelKept.
  intros (A1 & A2 & A3 & A4 & A5) (B1 & B2 & B3 & B4 & B5).
  split; [congruence|]. split; [intro H; apply A2, B2, H|]. lia.
Qed.

Lemma levelKept_exclusive (g g' : Game) :
  levelKept g g' -> exclusive g -> exclusive g'.
Proof.
  unfold exclusive. intros (A1 & A2 & _) H Hb. rewrite A1. apply H, A2, Hb.
Qed.

Lemma rewarded_kept (g : Game) : levelKept g (rewarded g).
Proof.
  unfold levelKept, rewarded.
  cbn [timerIDRef userAudioBufferRef scoreRef hitNotesRef totalNotesRef
       set_session].
  split; [reflexivity|]. split; [intro H; exact H|].
  destruct (comboRef g >? 10)%Z; lia.
Qed.

Lemma penalised_kept (g : Game) (penalty : Z) :
  levelKept g (penalised g penalty).
Proof.
  unfold levelKept, penalised. cbv zeta.
  destruct (_ <=? _)%Z; unfold finishGame; cbv zeta;
    cbn [timerIDRef userAudioBufferRef scoreRef hitNotesRef totalNotesRef
         set_session set_playing set_audio];
    (split; [reflexivity|]); (split; [intro H; try exact H; discriminate H|]);
    lia.
Qed.

Lemma processBlock_kept (cv : Canvas) (g : Game) (block : SaberBlock) :
  levelKept g (fst (processBlock cv g block)).
Proof.
  rewrite processBlock_by_outcome.
  destruct (outcome _ _);
    [apply rewarded_kept | apply penalised_kept | apply penalised_kept
    | apply levelKept_refl].
Qed.

Lemma forEachBlock_kept (cv : Canvas) (blocks : list SaberBlock) :
  forall g, levelKept g (fst (forEachBlock cv g blocks)).
Proof.
  induction blocks as [|b rest IH]; intro g; cbn [forEachBlock];
    [apply levelKept_refl|].
  pose proof (processBlock_kept cv g b) as Hb.
  destruct (processBlock cv g b) as [g1 b1]. cbn [fst] in Hb.
  pose proof (IH g1) as Hr.
  destruct (forEachBlock cv g1 rest) as [g2 rest1]. cbn [fst] in *.
  exact (levelKept_trans g g1 g2 Hb Hr).
Qed.

Lemma forEachObstacle_kept (obstacles : list Obstacle) :
  forall g, levelKept g (fst (forEachObstacle g obstacles)).
Proof.
  induction obstacles as [|o rest IH]; intro g; cbn [forEachObstacle];
    [apply levelKept_refl|].
  assert (Ho : levelKept g (fst (processObstacle g o))).
  { unfold processObstacle. cbv zeta. cbn [fst].
    destruct (_ && obstacleCollides g o); [|apply levelKept_refl].
    unfold levelKept.
    cbn [timerIDRef userAudioBufferRef scoreRef hitNotesRef totalNotesRef
         set_session].
    split; [reflexivity|]. split; [intro H; exact H | lia]. }
  destruct (processObstacle g o) as [g1 o1]. cbn [fst] in Ho.
  pose proof (IH g1) as Hr.
  destruct (forEachObstacle g1 rest) as [g2 rest1]. cbn [fst] in *.
  exact (levelKept_trans g g1 g2 Ho Hr).
Qed.

Lemma spawnBlock_kept (g : Game) (i : string) (dir : Q) (gx gy : Z)
  (c : BlockColor) (t : BlockType) :
  levelKept g (spawnBlock g i dir gx gy c t).
Proof.
  unfold levelKept, spawnBlock.
  destruct t;
    cbn [timerIDRef userAudioBufferRef scoreRef hitNotesRef totalNotesRef
         set_entities is_bomb];
    (split; [reflexivity|]); (split; [intro H; exact H|]); lia.
Qed.

Lemma schedulerSpawns_kept (beat : Z) (d : Draws) (g : Game) :
  levelKept g (schedulerSpawns beat d g)
  /\ scoreRef (schedulerSpawns beat d g) = scoreRef g
  /\ hitNotesRef (schedulerSpawns beat d g) = hitNotesRef g.
Proof.
  unfold schedulerSpawns. cbv zeta.
  repeat match goal with
         | |- context [if ?c then _ else _] => destruct c
         end;
    (split; [|split; reflexivity]);
    repeat first
      [ apply levelKept_refl
      | eapply levelKept_trans; [|apply spawnBlock_kept]
      | eapply levelKept_trans;
        [|unfold spawnWall, levelKept;
          cbn [timerIDRef userAudioBufferRef scoreRef hitNotesRef
               totalNotesRef set_entities];
          split; [reflexivity|]; split; [intro H; exact H | lia]] ].
Qed.

Lemma schedulerLoop_kept (fuel : nat) (now : float) (bpm : Z)
  (draws : nat -> Draws) :
  forall i g g' es,
  schedulerLoop fuel now bpm draws i g = Some (g', es) ->
  levelKept g g' /\ scoreRef g' = scoreRef g
  /\ hitNotesRef g' = hitNotesRef g.
Proof.
  induction fuel as [|fuel IH]; intros i g g' es; cbn [schedulerLoop].
  - destruct (PrimFloat.ltb _ _); [discriminate|].
    intro H; injection H as <- _.
    split; [apply levelKept_refl | split; reflexivity].
  - destruct (PrimFloat.ltb _ _).
    + assert (H1 : levelKept g (fst (schedulerBody bpm (draws i) g))
                   /\ scoreRef (fst (schedulerBody bpm (draws i) g))
                      = scoreRef g
                   /\ hitNotesRef (fst (schedulerBody bpm (draws i) g))
                      = hitNotesRef g).
      { unfold schedulerBody. cbv zeta. cbn [fst].
        destruct (schedulerSpawns_kept (current16thNoteRef g) (draws i) g)
          as (K & S1 & S2).
        split; [|split; assumption].
        eapply levelKept_trans; [exact K|].
        unfold levelKept.
        cbn [timerIDRef userAudioBufferRef scoreRef hitNotesRef
             totalNotesRef set_clock].
        split; [reflexivity|]. split; [intro H; exact H | lia]. }
      destruct (schedulerBody bpm (draws i) g) as [g1 e]. cbn [fst] in H1.
      destruct (schedulerLoop fuel now bpm draws (Datatypes.S i) g1)
        as [[g2 es2]|] eqn:E; [|discriminate].
      intro H; injection H as <- _.
      destruct (IH _ _ _ _ E) as (K2 & S3 & S4).
      destruct H1 as (K1 & S1 & S2).
      split; [exact (levelKept_trans g g1 g2 K1 K2)|]. split; congruence.
    + intro H; injection H as <- _.
      split; [apply levelKept_refl | split; reflexivity].
Qed.

Lemma analyzeAndSpawn_kept (freq : list Q) (perfNow : Q) (d : Draws)
  (g : Game) :
  levelKept g (analyzeAndSpawn freq perfNow d g).
Proof.
  unfold analyzeAndSpawn.
  destruct (negb (analyserRef g)); [apply levelKept_refl|]. cbv zeta.
  set (g0 := set_analysis g _ _).
  assert (H0 : levelKept g g0)
    by (unfold levelKept; subst g0;
        cbn [timerIDRef userAudioBufferRef scoreRef hitNotesRef
             totalNotesRef set_analysis];
        split; [reflexivity|]; split; [intro H; exact H | lia]).
  clearbody g0.
  destruct (Qgt_bool _ 600); [|exact H0].
  destruct (_ && _); [|exact H0].
  set (g1 := spawnBlock g0 _ _ 2 0 blue normal).
  assert (H1 : levelKept g g1)
    by (eapply levelKept_trans; [exact H0 | apply spawnBlock_kept]).
  clearbody g1.
  set (g2 := if Qgt_bool (r_chance d) _ then _ else g1).
  assert (H2 : levelKept g g2)
    by (subst g2; destruct (Qgt_bool (r_chance d) _); [|exact H1];
        eapply levelKept_trans; [exact H1 | apply spawnBlock_kept]).
  clearbody g2.
  eapply levelKept_trans; [exact H2|].
  unfold levelKept.
  cbn [timerIDRef userAudioBufferRef scoreRef hitNotesRef totalNotesRef
       set_analysis].
  split; [reflexivity|]. split; [intro H; exact H | lia].
Qed.

Lemma set_entities_kept (g : Game) (bs : list SaberBlock)
  (os : list Obstacle) :
  levelKept g (set_entities g (totalNotesRef g) bs os).
Proof.
  unfold levelKept.
  cbn [timerIDRef userAudioBufferRef scoreRef hitNotesRef totalNotesRef
       set_entities].
  split; [reflexivity|]. split; [intro H; exact H | lia].
Qed.

Lemma updateLevel_kept (cv : Canvas) (freq : list Q) (perfNow : Q)
  (d : Draws) (g : Game) :
  levelKept g (updateLevel cv freq perfNow d g).
Proof.
  unfold updateLevel.
  set (g0 := if userAudioBufferRef g then _ else g).
  assert (H0 : levelKept g g0)
    by (subst g0; destruct (userAudioBufferRef g);
        [apply analyzeAndSpawn_kept | apply levelKept_refl]).
  clearbody g0.
  pose proof (forEachBlock_kept cv (blocksRef g0) g0) as H1.
  destruct (forEachBlock cv g0 (blocksRef g0)) as [g1 blocks].
  cbn [fst] in H1.
  set (g2 := set_entities g1 _ _ _).
  assert (H2 : levelKept g g2)
    by (eapply levelKept_trans; [exact H0|];
        eapply levelKept_trans; [exact H1 | apply set_entities_kept]).
  clearbody g2.
  pose proof (forEachObstacle_kept (obstaclesRef g2) g2) as H3.
  destruct (forEachObstacle g2 (obstaclesRef g2)) as [g3 obstacles].
  cbn [fst] in H3.
  eapply levelKept_trans; [exact H2|].
  eapply levelKept_trans; [exact H3 | apply set_entities_kept].
Qed.

Lemma updateTracking_kept (cv : Canvas) (pose : option (list Landmark))
  (g : Game) :
  levelKept g (updateTracking cv pose g)
  /\ isPlayingRef (updateTracking cv pose g) = isPlayingRef g.
Proof.
  unfold updateTracking.
  destruct pose; (split; [|reflexivity]);
    [|apply levelKept_refl].
  unfold levelKept. cbv zeta.
  cbn [timerIDRef userAudioBufferRef scoreRef hitNotesRef totalNotesRef
       set_tracking].
  split; [reflexivity|]. split; [intro H; exact H | lia].
Qed.

(** X17: while a level is played nothing takes points away.  An animation
    frame of a playing session, a firing of the interval timer, the end of
    the uploaded track and the deactivation of the component never lower
    the score, the number of notes cut or the number of notes spawned:
    misses, hazards and walls cost energy and combo only. *)
Theorem counters_never_decrease (e : Event) (g g' : Game) :
  inLevel e = true -> isPlayingRef g = true -> step e g = Some g' ->
  (scoreRef g <= scoreRef g')%Z
  /\ (hitNotesRef g <= hitNotesRef g')%Z
  /\ (totalNotesRef g <= totalNotesRef g')%Z.
Proof.
  intros He Hp.
  assert (Hk : forall g1, levelKept g g1 ->
               (scoreRef g <= scoreRef g1)%Z
               /\ (hitNotesRef g <= hitNotesRef g1)%Z
               /\ (totalNotesRef g <= totalNotesRef g1)%Z)
    by (intros g1 (_ & _ & H); exact H).
  destruct e; cbn [step inLevel] in *; try discriminate He.
  - intro E; injection E as <-. apply Hk. unfold updateGame.
    destruct (updateTracking_kept (f_canvas f) (f_pose f) g) as (K & P).
    rewrite P, Hp.
    eapply levelKept_trans; [exact K | apply updateLevel_kept].
  - unfold schedulerTick. destruct (timerIDRef g) as [bpm|].
    + unfold scheduler.
      destruct (schedulerLoop _ _ _ _ _ _) as [[g1 es]|] eqn:E;
        [|discriminate].
      intro E'; injection E' as <-. apply Hk.
      exact (proj1 (schedulerLoop_kept _ _ _ _ _ _ _ _ E)).
    + intro E; injection E as <-. apply Hk, levelKept_refl.
  - intro E; injection E as <-.
    destruct (userSourceRef g); [|apply Hk, levelKept_refl].
    unfold finishGame. cbv zeta.
    cbn [scoreRef hitNotesRef totalNotesRef set_playing set_audio]. lia.
  - intro E; injection E as <-.
    cbn [scoreRef hitNotesRef totalNotesRef set_audio]. lia.
Qed.

Lemma counters_never_decrease_witness :
  let g := startLevel true 0 120 "Cyber Storm" initialGame in
  exists g', step (Timer 10 1 (fun _ => quietDraws)) g = Some g'
             /\ (totalNotesRef g <= totalNotesRef g')%Z
             /\ (scoreRef g <= scoreRef g')%Z.
Proof.
  cbv zeta.
  destruct (step (Timer 10 1 (fun _ => quietDraws))
                 (startLevel true 0 120 "Cyber Storm" initialGame))
    as [g'|] eqn:E; [|vm_compute in E; discriminate E].
  exists g'. split; [reflexivity|].
  destruct (counters_never_decrease (Timer 10 1 (fun _ => quietDraws))
              (startLevel true 0 120 "Cyber Storm" initialGame) g'
              eq_refl eq_refl E)
    as (Hs & _ & Ht).
  split; assumption.
Defined.

(** ** The two sources of notes *)

Lemma initAudioContext_exclusive (supported : bool) (g : Game) :
  let r := initAudioContext supported g in
  levelKept g (fst r)
  /\ (snd r = true -> audioCtxRef (fst r) = true)
  /\ userAudioBufferRef (fst r) = userAudioBufferRef g.
Proof.
  cbv zeta. unfold initAudioContext.
  destruct (audioCtxRef g) eqn:Ea; [|destruct supported]; cbn [fst snd];
    (split; [|split; [|reflexivity]]);
    try apply levelKept_refl; try (intro; assumption);
    try reflexivity; try discriminate.
  unfold levelKept.
  cbn [timerIDRef userAudioBufferRef scoreRef hitNotesRef totalNotesRef
       set_audio].
  split; [reflexivity|]. split; [intro H; exact H | lia].
Qed.

(** [startLevel] leaves one source in charge: when it goes through, the
    timer is armed exactly when no uploaded track is loaded. *)
Lemma startLevel_exclusive (supported : bool) (currentTime : float) (bpm : Z)
  (name : string) (g : Game) :
  exclusive g \/ audioCtxRef g = true ->
  exclusive (startLevel supported currentTime bpm name g).
Proof.
  intro H. unfold startLevel.
  pose proof (initAudioContext_exclusive supported (set_trackName g name))
    as (K & Hctx & Hbuf). cbv zeta in K, Hctx, Hbuf.
  assert (Hfail : snd (initAudioContext supported (set_trackName g name))
                  = false -> exclusive g).
  { unfold initAudioContext. cbn [audioCtxRef set_trackName].
    destruct H as [H | H]; [intros _; exact H|].
    rewrite H. cbn [snd]. discriminate. }
  destruct (initAudioContext supported (set_trackName g name)) as [g1 ok].
  cbn [fst snd] in *. destruct ok; cbn [negb].
  - cbv zeta.
    cbn [userAudioBufferRef set_audio set_entities set_session].
    unfold exclusive.
    destruct (userAudioBufferRef g1);
      cbn [userAudioBufferRef timerIDRef set_audio set_entities set_session
           set_clock set_playing];
      [reflexivity | discriminate].
  - apply (levelKept_exclusive (set_trackName g name)); [exact K|].
    exact (Hfail eq_refl).
Qed.

Lemma menuCard_exclusive (cv : Canvas) (timestamp : Q) (supported : bool)
  (currentTime : float) (idx : nat) (track : Track) (g : Game)
  (item : option string) :
  exclusive g ->
  exclusive (fst (menuCard cv timestamp supported currentTime idx track
                           (g, item))).
Proof.
  intro H. unfold menuCard.
  destruct (_ && same_id _ _); [|exact H].
  cbv zeta. destruct (Qge_bool _ 1); [|exact H].
  pose proof (initAudioContext_exclusive supported g) as (K & _).
  cbv zeta in K.
  destruct (initAudioContext supported g) as [g1 ok]. cbn [fst] in K.
  pose proof (levelKept_exclusive g g1 K H) as H1.
  destruct (Qgt_bool _ 1600); [exact H1|].
  destruct (t_type track); cbn [fst].
  - apply startLevel_exclusive. left; exact H1.
  - exact H1.
Qed.

Lemma forEachTrack_exclusive (cv : Canvas) (timestamp : Q) (supported : bool)
  (currentTime : float) (tracks : list Track) :
  forall idx g item,
  exclusive g ->
  exclusive (fst (forEachTrack cv timestamp supported currentTime idx tracks
                               (g, item))).
Proof.
  induction tracks as [|t rest IH]; intros idx g item H;
    cbn [forEachTrack]; [exact H|].
  pose proof (menuCard_exclusive cv timestamp supported currentTime idx t g
                item H) as H1.
  destruct (menuCard cv timestamp supported currentTime idx t (g, item))
    as [g1 item1]. cbn [fst] in H1.
  apply IH. exact H1.
Qed.

Lemma updateMenu_exclusive (cv : Canvas) (timestamp : Q) (supported : bool)
  (currentTime : float) (g : Game) :
  exclusive g -> exclusive (updateMenu cv timestamp supported currentTime g).
Proof.
  intro H. unfold updateMenu.
  pose proof (forEachTrack_exclusive cv timestamp supported currentTime
                TRACK_LIST 0%nat g None H) as H1.
  destruct (forEachTrack cv timestamp supported currentTime 0 TRACK_LIST
                         (g, None)) as [g1 item]. cbn [fst] in H1.
  destruct item as [item|]; [destruct (same_id _ _)|]; exact H1.
Qed.

Lemma handleFileUpload_exclusive (supported decoded : bool)
  (currentTime : float)
  (name : string) (g : Game) :
  exclusive g ->
  exclusive (handleFileUpload supported decoded currentTime name g).
Proof.
  intro H. unfold handleFileUpload.
  pose proof (initAudioContext_exclusive supported g) as (K & Hctx & _).
  cbv zeta in K, Hctx.
  destruct (initAudioContext supported g) as [g1 ok]. cbn [fst snd] in *.
  pose proof (levelKept_exclusive g g1 K H) as H1.
  destruct ok; cbn [negb]; [|exact H1].
  destruct decoded; [|exact H1].
  apply startLevel_exclusive. right.
  cbn [audioCtxRef set_audio]. exact (Hctx eq_refl).
Qed.

Lemma step_exclusive (e : Event) (g g' : Game) :
  exclusive g -> step e g = Some g' -> exclusive g'.
Proof.
  intro H. destruct e; cbn [step].
  - intro E; injection E as <-. unfold updateGame.
    destruct (updateTracking_kept (f_canvas f) (f_pose f) g) as (K & _).
    pose proof (levelKept_exclusive _ _ K H) as H0.
    destruct (isPlayingRef _).
    + exact (levelKept_exclusive _ _ (updateLevel_kept _ _ _ _ _) H0).
    + apply updateMenu_exclusive; exact H0.
  - unfold schedulerTick. destruct (timerIDRef g) as [bpm|] eqn:Et.
    + unfold scheduler.
      destruct (schedulerLoop _ _ _ _ _ _) as [[g1 es]|] eqn:E;
        [|discriminate].
      intro E'; injection E' as <-.
      exact (levelKept_exclusive _ _
               (proj1 (schedulerLoop_kept _ _ _ _ _ _ _ _ E)) H).
    + intro E; injection E as <-. exact H.
  - intro E; injection E as <-. apply handleFileUpload_exclusive; exact H.
  - intro E; injection E as <-.
    destruct (userSourceRef g); [|exact H].
    unfold exclusive, finishGame. cbv zeta.
    cbn [userAudioBufferRef set_audio]. discriminate.
  - intro E; injection E as <-. exact H.
  - intro E; injection E as <-. unfold exclusive.
    cbn [timerIDRef set_audio]. reflexivity.
Qed.

Lemma reachable_exclusive (g : Game) : reachable g -> exclusive g.
Proof.
  intros [events Hrun].
  assert (Hall : forall es g0 g1,
                 exclusive g0 -> run es g0 = Some g1 -> exclusive g1).
  { induction es as [|e rest IH]; intros g0 g1 H0; cbn [run].
    - intro E; injection E as <-. exact H0.
    - destruct (step e g0) as [g2|] eqn:E; [|discriminate].
      apply IH. exact (step_exclusive e g0 g2 H0 E). }
  apply (Hall events initialGame g); [|exact Hrun].
  unfold exclusive. cbn. discriminate.
Qed.

(** X18: a level has one source of notes.  In every reachable state with
    an uploaded track loaded the interval timer is not armed, so a timer
    firing changes nothing and the notes come from the analysis of the
    track only; and in every reachable state with the timer armed no
    uploaded track is loaded, so no animation frame spawns a note. *)
Theorem one_note_source (g : Game) :
  reachable g ->
  (userAudioBufferRef g = true ->
   timerIDRef g = None
   /\ forall passes now draws, schedulerTick passes now draws g = Some g)
  /\ (timerIDRef g <> None ->
      userAudioBufferRef g = false
      /\ forall cv freq perfNow d,
           totalNotesRef (updateLevel cv freq perfNow d g) = totalNotesRef g).
Proof.
  intro Hr. pose proof (reachable_exclusive g Hr) as Hx. split.
  - intro Hb. pose proof (Hx Hb) as Ht. split; [exact Ht|].
    intros passes now draws. unfold schedulerTick. rewrite Ht. reflexivity.
  - intro Ht.
    assert (Hb : userAudioBufferRef g = false)
      by (destruct (userAudioBufferRef g) eqn:Eb; [|reflexivity];
          contradiction Ht; apply Hx; exact Eb).
    split; [exact Hb|].
    intros cv freq perfNow d. unfold updateLevel. rewrite Hb.
    destruct (forEachBlock_counters cv (blocksRef g) g) as (_ & _ & T1).
    cbv zeta in T1.
    destruct (forEachBlock cv g (blocksRef g)) as [g1 blocks].
    cbn [fst snd] in T1.
    set (g2 := set_entities g1 _ _ _).
    destruct (forEachObstacle_counters (obstaclesRef g2) g2)
      as (_ & T2 & _). cbv zeta in T2.
    destruct (forEachObstacle g2 (obstaclesRef g2)) as [g3 obstacles].
    cbn [fst] in T2.
    cbn [totalNotesRef set_entities]. rewrite T2. subst g2.
    cbn [totalNotesRef set_entities]. exact T1.
Qed.

Lemma one_note_source_witness :
  exists g, run [Activate; FileChosen true true 0 "song.mp3"] initialGame
            = Some g
            /\ userAudioBufferRef g = true /\ timerIDRef g = None.
Proof.
  destruct (run [Activate; FileChosen true true 0 "song.mp3"] initialGame)
    as [g|] eqn:E; [|vm_compute in E; discriminate E].
  exists g. split; [reflexivity|].
  assert (Hr : reachable g)
    by (exists [Activate; FileChosen true true 0 "song.mp3"]; exact E).
  assert (Hb : userAudioBufferRef g = true)
    by (vm_compute in E; injection E as <-; reflexivity).
  split; [exact Hb|].
  exact (proj1 (proj1 (one_note_source g Hr) Hb)).
Defined.

(** ** Starting a level *)

Lemma penalised_ctx (g : Game) (penalty : Z) :
  audioCtxRef (penalised g penalty) = audioCtxRef g.
Proof. unfold penalised. cbv zeta. destruct (_ <=? _)%Z; reflexivity. Qed.

Lemma processBlock_ctx (cv : Canvas) (g : Game) (block : SaberBlock) :
  audioCtxRef (fst (processBlock cv g block)) = audioCtxRef g.
Proof.
  rewrite processBlock_by_outcome.
  destruct (outcome _ _); try apply penalised_ctx; reflexivity.
Qed.

Lemma forEachBlock_ctx (cv : Canvas) (blocks : list SaberBlock) :
  forall g, audioCtxRef (fst (forEachBlock cv g blocks)) = audioCtxRef g.
Proof.
  induction blocks as [|b rest IH]; intro g; cbn [forEachBlock];
    [reflexivity|].
  pose proof (processBlock_ctx cv g b) as Hb.
  destruct (processBlock cv g b) as [g1 b1]. cbn [fst] in Hb.
  pose proof (IH g1) as Hr.
  destruct (forEachBlock cv g1 rest) as [g2 rest1]. cbn [fst] in *.
  congruence.
Qed.

Lemma forEachObstacle_ctx (obstacles : list Obstacle) :
  forall g, audioCtxRef (fst (forEachObstacle g obstacles)) = audioCtxRef g.
Proof.
  induction obstacles as [|o rest IH]; intro g; cbn [forEachObstacle];
    [reflexivity|].
  assert (Ho : audioCtxRef (fst (processObstacle g o)) = audioCtxRef g)
    by (unfold processObstacle; cbv zeta; cbn [fst];
        destruct (_ && obstacleCollides g o); reflexivity).
  destruct (processObstacle g o) as [g1 o1]. cbn [fst] in Ho.
  pose proof (IH g1) as Hr.
  destruct (forEachObstacle g1 rest) as [g2 rest1]. cbn [fst] in *.
  congruence.
Qed.

Lemma analyzeAndSpawn_ctx (freq : list Q) (perfNow : Q) (d : Draws)
  (g : Game) :
  audioCtxRef (analyzeAndSpawn freq perfNow d g) = audioCtxRef g.
Proof.
  unfold analyzeAndSpawn.
  destruct (negb (analyserRef g)); [reflexivity|]. cbv zeta.
  destruct (Qgt_bool _ 600); [|reflexivity].
  destruct (_ && _); [|reflexivity].
  destruct (Qgt_bool (r_chance d) _); reflexivity.
Qed.

Lemma updateLevel_ctx (cv : Canvas) (freq : list Q) (perfNow : Q)
  (d : Draws) (g : Game) :
  audioCtxRef (updateLevel cv freq perfNow d g) = audioCtxRef g.
Proof.
  unfold updateLevel.
  set (g0 := if userAudioBufferRef g then _ else g).
  assert (H0 : audioCtxRef g0 = audioCtxRef g)
    by (subst g0; destruct (userAudioBufferRef g);
        [apply analyzeAndSpawn_ctx | reflexivity]).
  clearbody g0.
  pose proof (forEachBlock_ctx cv (blocksRef g0) g0) as H1.
  destruct (forEachBlock cv g0 (blocksRef g0)) as [g1 blocks].
  cbn [fst] in H1.
  set (g2 := set_entities g1 _ _ _).
  assert (H2 : audioCtxRef g2 = audioCtxRef g1) by reflexivity.
  clearbody g2.
  pose proof (forEachObstacle_ctx (obstaclesRef g2) g2) as H3.
  destruct (forEachObstacle g2 (obstaclesRef g2)) as [g3 obstacles].
  cbn [fst] in H3. cbn [audioCtxRef set_entities]. congruence.
Qed.

Lemma schedulerLoop_ctx (fuel : nat) (now : float) (bpm : Z)
  (draws : nat -> Draws) :
  forall i g g' es,
  schedulerLoop fuel now bpm draws i g = Some (g', es) ->
  audioCtxRef g' = audioCtxRef g.
Proof.
  induction fuel as [|fuel IH]; intros i g g' es; cbn [schedulerLoop].
  - destruct (PrimFloat.ltb _ _); [discriminate|].
    intro H; injection H as <- _. reflexivity.
  - destruct (PrimFloat.ltb _ _).
    + assert (H1 : audioCtxRef (fst (schedulerBody bpm (draws i) g))
                   = audioCtxRef g).
      { unfold schedulerBody. cbv zeta. cbn [fst audioCtxRef set_clock].
        unfold schedulerSpawns. cbv zeta.
        repeat match goal with
               | |- context [if ?c then _ else _] => destruct c
               end; reflexivity. }
      destruct (schedulerBody bpm (draws i) g) as [g1 e]. cbn [fst] in H1.
      destruct (schedulerLoop fuel now bpm draws (Datatypes.S i) g1)
        as [[g2 es2]|] eqn:E; [|discriminate].
      intro H; injection H as <- _.
      rewrite (IH _ _ _ _ E). exact H1.
    + intro H; injection H as <- _. reflexivity.
Qed.

(** What [initAudioContext] returns, and what it leaves alone. *)
Lemma initAudioContext_cases (supported : bool) (g : Game) :
  (audioCtxRef g || supported = true
   /\ snd (initAudioContext supported g) = true
   /\ audioCtxRef (fst (initAudioContext supported g)) = true
   /\ timerIDRef (fst (initAudioContext supported g)) = timerIDRef g
   /\ userAudioBufferRef (fst (initAudioContext supported g))
      = userAudioBufferRef g)
  \/ (audioCtxRef g = false /\ supported = false
      /\ initAudioContext supported g = (g, false)).
Proof.
  unfold initAudioContext.
  destruct (audioCtxRef g) eqn:Ea; [|destruct supported].
  - left. repeat split. exact Ea.
  - left. repeat split.
  - right. repeat split.
Qed.

(** [startLevel] either gets its audio context, and then the session is
    fresh and playing, or it has only set the track name. *)
Lemma startLevel_cases (supported : bool) (currentTime : float) (bpm : Z)
  (trackName : string) (g : Game) :
  let g' := startLevel supported currentTime bpm trackName g in
  (audioCtxRef g || supported = true
   /\ freshSession g' /\ isPlayingRef g' = true /\ audioCtxRef g' = true)
  \/ (audioCtxRef g = false /\ supported = false
      /\ g' = set_trackName g trackName).
Proof.
  cbv zeta. unfold startLevel.
  destruct (initAudioContext_cases supported (set_trackName g trackName))
    as [(Hc & Hok & Hctx & _) | (Ha & Hs & Hinit)].
  - left. split; [exact Hc|].
    destruct (initAudioContext supported (set_trackName g trackName))
      as [g1 ok]. cbn [fst snd] in *. subst ok. cbn [negb]. cbv zeta.
    cbn [userAudioBufferRef set_audio set_entities set_session].
    destruct (userAudioBufferRef g1); unfold freshSession;
      cbn [scoreRef comboRef energyRef hitNotesRef totalNotesRef blocksRef
           obstaclesRef isPlayingRef audioCtxRef set_audio set_entities
           set_session set_clock set_playing];
      repeat split; exact Hctx.
  - right. rewrite Hinit. cbn [negb]. repeat split; assumption.
Qed.

Lemma audioOrPristine_of_ctx (g g' : Game) :
  audioCtxRef g' = audioCtxRef g ->
  audioCtxRef g = true -> audioOrPristine g'.
Proof. intros E H. left. congruence. Qed.

Lemma startLevel_keeps (supported : bool) (currentTime : float) (bpm : Z)
  (trackName : string) (g : Game) :
  audioOrPristine g ->
  audioOrPristine (startLevel supported currentTime bpm trackName g).
Proof.
  intro H.
  destruct (startLevel_cases supported currentTime bpm trackName g)
    as [(_ & _ & _ & Hctx) | (_ & _ & ->)].
  - left. exact Hctx.
  - exact H.
Qed.

Lemma initAudioContext_keeps (supported : bool) (g : Game) :
  audioOrPristine g ->
  audioOrPristine (fst (initAudioContext supported g)).
Proof.
  intro H.
  destruct (initAudioContext_cases supported g)
    as [(_ & _ & Hctx & _) | (_ & _ & ->)].
  - left. exact Hctx.
  - exact H.
Qed.

Lemma menuCard_keeps_audio (cv : Canvas) (timestamp : Q) (supported : bool)
  (currentTime : float) (idx : nat) (track : Track) (g : Game)
  (item : option string) :
  audioOrPristine g ->
  audioOrPristine (fst (menuCard cv timestamp supported currentTime idx track
                                 (g, item))).
Proof.
  intro H. unfold menuCard.
  destruct (_ && same_id _ _); [|exact H].
  cbv zeta. destruct (Qge_bool _ 1); [|exact H].
  pose proof (initAudioContext_keeps supported g H) as H1.
  destruct (initAudioContext supported g) as [g1 ok]. cbn [fst] in H1.
  destruct (Qgt_bool _ 1600); [exact H1|].
  destruct (t_type track); cbn [fst].
  - apply startLevel_keeps. exact H1.
  - exact H1.
Qed.

Lemma updateMenu_keeps_audio (cv : Canvas) (timestamp : Q) (supported : bool)
  (currentTime : float) (g : Game) :
  audioOrPristine g ->
  audioOrPristine (updateMenu cv timestamp supported currentTime g).
Proof.
  intro H. unfold updateMenu.
  assert (Hall : forall tracks idx g0 item,
            audioOrPristine g0 ->
            audioOrPristine
              (fst (forEachTrack cv timestamp supported currentTime idx
                                 tracks (g0, item)))).
  { induction tracks as [|t rest IH]; intros idx g0 item H0;
      cbn [forEachTrack]; [exact H0|].
    pose proof (menuCard_keeps_audio cv timestamp supported currentTime idx
                  t g0 item H0) as H1.
    destruct (menuCard cv timestamp supported currentTime idx t (g0, item))
      as [g1 item1]. cbn [fst] in H1.
    apply IH. exact H1. }
  pose proof (Hall TRACK_LIST 0%nat g None H) as H1.
  destruct (forEachTrack cv timestamp supported currentTime 0 TRACK_LIST
                         (g, None)) as [g1 item]. cbn [fst] in H1.
  destruct item as [item|]; [destruct (same_id _ _)|]; exact H1.
Qed.

(** A frame of a level that has nothing in play and no track to analyse
    changes nothing in the session. *)
Lemma updateLevel_pristine (cv : Canvas) (freq : list Q) (perfNow : Q)
  (d : Draws) (g : Game) :
  freshSession g -> userAudioBufferRef g = false ->
  let g' := updateLevel cv freq perfNow d g in
  freshSession g' /\ timerIDRef g' = timerIDRef g
  /\ userAudioBufferRef g' = false /\ audioCtxRef g' = audioCtxRef g.
Proof.
  intros (F1 & F2 & F3 & F4 & F5 & F6 & F7) Hb. cbv zeta.
  unfold updateLevel. rewrite Hb, F6. cbn [forEachBlock filter].
  cbn [obstaclesRef set_entities]. rewrite F7.
  cbn [forEachObstacle filter]. unfold freshSession.
  cbn [scoreRef comboRef energyRef hitNotesRef totalNotesRef blocksRef
       obstaclesRef timerIDRef userAudioBufferRef audioCtxRef set_entities].
  repeat split; assumption.
Qed.

Lemma step_keeps_audio (e : Event) (g g' : Game) :
  e <> Deactivate -> audioOrPristine g -> step e g = Some g' ->
  audioOrPristine g'.
Proof.
  intros He H. destruct e; cbn [step]; try (contradiction He; reflexivity).
  - intro E; injection E as <-. unfold updateGame.
    assert (H0 : audioOrPristine (updateTracking (f_canvas f) (f_pose f) g))
      by (unfold updateTracking; destruct (f_pose f); exact H).
    set (g0 := updateTracking (f_canvas f) (f_pose f) g) in *. clearbody g0.
    destruct (isPlayingRef g0).
    + destruct H0 as [Hctx | (Hf & Ht & Hb)].
      * left. rewrite updateLevel_ctx. exact Hctx.
      * destruct (updateLevel_pristine (f_canvas f) (f_freq f) (f_perfNow f)
                    (f_draws f) g0 Hf Hb) as (Hf' & Ht' & Hb' & _).
        right. split; [exact Hf'|]. split; [congruence | exact Hb'].
    + apply updateMenu_keeps_audio. exact H0.
  - unfold schedulerTick. destruct (timerIDRef g) as [bpm|] eqn:Et.
    + unfold scheduler.
      destruct (schedulerLoop _ _ _ _ _ _) as [[g1 es]|] eqn:E;
        [|discriminate].
      intro E'; injection E' as <-.
      destruct H as [Hctx | (_ & Ht & _)]; [|congruence].
      left. rewrite (schedulerLoop_ctx _ _ _ _ _ _ _ _ E). exact Hctx.
    + intro E; injection E as <-. exact H.
  - intro E; injection E as <-. unfold handleFileUpload.
    destruct (initAudioContext_cases supported g)
      as [(_ & Hok & Hctx & _) | (_ & _ & Hinit)].
    + destruct (initAudioContext supported g) as [g1 ok].
      cbn [fst snd] in *. subst ok. cbn [negb].
      destruct decoded; [|left; exact Hctx].
      apply startLevel_keeps. left. exact Hctx.
    + rewrite Hinit. cbn [negb]. exact H.
  - intro E; injection E as <-.
    destruct (userSourceRef g); [|exact H].
    destruct H as [Hctx | (Hf & Ht & Hb)]; [left; exact Hctx|].
    right. split; [exact Hf|]. split; [exact Ht | reflexivity].
  - intro E; injection E as <-.
    destruct H as [Hctx | ((F1 & F2 & F3 & F4 & F5 & F6 & F7) & Ht & Hb)];
      [left; exact Hctx|].
    right. unfold freshSession.
    cbn [scoreRef comboRef energyRef hitNotesRef totalNotesRef blocksRef
         obstaclesRef timerIDRef userAudioBufferRef set_session set_playing].
    repeat split; assumption.
Qed.

Lemma run_keeps_audio (events : list Event) :
  forall g g',
  noDeactivate events = true -> audioOrPristine g ->
  run events g = Some g' -> audioOrPristine g'.
Proof.
  induction events as [|e rest IH]; intros g g' Hn H; cbn [run].
  - intro E; injection E as <-. exact H.
  - cbn [noDeactivate forallb] in Hn. apply andb_true_iff in Hn.
    destruct Hn as [He Hrest].
    destruct (step e g) as [g1|] eqn:E; [|discriminate].
    apply (IH g1 g' Hrest).
    apply (step_keeps_audio e g g1); [|exact H | exact E].
    intros ->. discriminate He.
Qed.

(** C10: a level that starts, starts fresh.  For every bpm, track name and
    previous state, when [startLevel] gets its audio context (one exists or
    one can be created) it leaves score 0, combo 0, energy 50, both note
    counters 0 and no active note or obstacle, and the level is playing.
    It starts no level only when no audio context can be had, and then it
    has done nothing but set the track name.  In a session in which the
    component was never deactivated the refs are fresh after [startLevel]
    in either case: as long as no audio context could be had, nothing has
    touched them. *)
Theorem startLevel_resets (supported : bool) (currentTime : float) (bpm : Z)
  (trackName : string) (g : Game) :
  let g' := startLevel supported currentTime bpm trackName g in
  (audioCtxRef g = true \/ supported = true ->
   freshSession g' /\ isPlayingRef g' = true)
  /\ (audioCtxRef g = false -> supported = false ->
      g' = set_trackName g trackName)
  /\ (forall events,
      noDeactivate events = true -> run events initialGame = Some g ->
      freshSession g').
Proof.
  cbv zeta.
  pose proof (startLevel_cases supported currentTime bpm trackName g) as Hc.
  cbv zeta in Hc.
  split; [|split].
  - intro Hctx.
    destruct Hc as [(_ & Hf & Hp & _) | (Ha & Hs & _)];
      [split; assumption|].
    destruct Hctx; congruence.
  - intros Ha Hs.
    destruct Hc as [(Hor & _) | (_ & _ & E)]; [|exact E].
    rewrite Ha, Hs in Hor. discriminate Hor.
  - intros events Hn Hrun.
    destruct Hc as [(_ & Hf & _) | (Ha & _ & E)]; [exact Hf|].
    rewrite E.
    assert (H0 : audioOrPristine initialGame)
      by (right; unfold freshSession; repeat split).
    destruct (run_keeps_audio events initialGame g Hn H0 Hrun)
      as [Hctx | (Hf & _)]; [congruence | exact Hf].
Qed.

Lemma startLevel_resets_witness :
  (audioCtxRef afterSession = true \/ true = true)
  /\ energyRef (startLevel true 0 105 "Neon Pulse" afterSession) = 50%Z
  /\ startLevel false 0 105 "Neon Pulse" afterSession
     = set_trackName afterSession "Neon Pulse"
  /\ exists g, run neverAudio initialGame = Some g
               /\ freshSession (startLevel false 0 130 "Cyber Storm" g).
Proof.
  split; [right; reflexivity|].
  destruct (startLevel_resets true 0 105 "Neon Pulse" afterSession)
    as (Hstart & _).
  destruct (Hstart (or_intror eq_refl)) as ((_ & _ & He & _) & _).
  split; [exact He|].
  destruct (startLevel_resets false 0 105 "Neon Pulse" afterSession)
    as (_ & Hnone & _).
  split; [exact (Hnone eq_refl eq_refl)|].
  destruct (run neverAudio initialGame) as [g|] eqn:E;
    [|vm_compute in E; discriminate E].
  exists g. split; [reflexivity|].
  destruct (startLevel_resets false 0 130 "Cyber Storm" g)
    as (_ & _ & Hrun).
  exact (Hrun neverAudio eq_refl E).
Defined.

(** ** The menu cursor between targets *)

Section Pointing.

Variable T : Type.
Variable T_eqb : T -> T -> bool.

Lemma dwellingSince_snoc (passes : list (Q * App.Pointing T)) (s : Q)
  (c0 : T) (pass : Q * App.Pointing T) :
  dwellingSince T T_eqb passes s c0 -> keepsDwell T T_eqb c0 pass ->
  dwellingSince T T_eqb (passes ++ [pass]) s c0.
Proof.
  intros (before & during & -> & Hall) Hk.
  exists before, (during ++ [pass]). split.
  - rewrite <- app_assoc. reflexivity.
  - apply Forall_app. split; [exact Hall | constructor; [exact Hk|constructor]].
Qed.

Lemma same_item_true (c : T) (cur : option T) :
  App.same_item T T_eqb c cur = true ->
  exists c0, cur = Some c0 /\ T_eqb c c0 = true.
Proof.
  unfold App.same_item. destruct cur as [c0|]; [|discriminate].
  intro H. exists c0. split; [reflexivity | exact H].
Qed.

Lemma started_some (h : App.Hover T) (s : Q) :
  App.started T h = Some s -> App.hoverStartTimeRef T h = Some s.
Proof.
  unfold App.started. destruct (App.hoverStartTimeRef T h) as [t|];
    [|discriminate].
  destruct (Qeq_bool t 0); [discriminate|]. intro H; exact H.
Qed.

(** One pass keeps the link between the state and the passes made. *)
Lemma pointStep_tracks (passes : list (Q * App.Pointing T)) (now : Q)
  (p : App.Pointing T) (h : App.Hover T) :
  tracksDwell T T_eqb passes h ->
  tracksDwell T T_eqb (passes ++ [(now, p)])
              (App.after T (App.pointStep T T_eqb now p h)).
Proof.
  intro Hd. unfold tracksDwell in *.
  assert (Hreset : forall c0 s,
    App.currentItem T (App.resetHoverLogic T h) = Some c0 ->
    App.hoverStartTimeRef T (App.resetHoverLogic T h) = Some s ->
    dwellingSince T T_eqb (passes ++ [(now, p)]) s c0).
  { unfold App.resetHoverLogic. intros c0 s.
    destruct (App.currentItem T h) eqn:E; cbn; [discriminate|].
    rewrite E. discriminate. }
  destruct p as [| |[c|]]; cbn [App.pointStep App.after];
    try exact Hreset.
  - intros c0 s Hc Hs. apply dwellingSince_snoc; [apply Hd; assumption|].
    exact I.
  - unfold App.handleHoverLogic.
    destruct (App.same_item T T_eqb c (App.currentItem T h)) eqn:Esame.
    + apply same_item_true in Esame. destruct Esame as (c1 & Hc1 & Heq).
      assert (Hkeep : forall c0 s,
        App.currentItem T h = Some c0 ->
        App.hoverStartTimeRef T h = Some s ->
        dwellingSince T T_eqb (passes ++ [(now, App.Over T (Some c))]) s c0).
      { intros c0 s Hc Hs. apply dwellingSince_snoc;
          [apply Hd; assumption|].
        unfold keepsDwell. cbn [snd]. congruence. }
      destruct (App.started T h) as [start|]; [|exact Hkeep].
      destruct (Qge_bool _ 100); cbn [App.after];
        [intros c0 s; cbn; discriminate | exact Hkeep].
    + cbn [App.after]. intros c0 s.
      cbn [App.currentItem App.hoverStartTimeRef].
      intros Hc Hs. injection Hc as <-. injection Hs as <-.
      exists passes, []. split; [reflexivity | constructor].
Qed.

(** A completion ends an unbroken dwell of at least 1500 ms. *)
Lemma pointStep_completes (passes : list (Q * App.Pointing T)) (now : Q)
  (p : App.Pointing T) (h : App.Hover T) (d : T) :
  tracksDwell T T_eqb passes h ->
  App.completed T (App.pointStep T T_eqb now p h) = Some d ->
  p = App.Over T (Some d)
  /\ exists s c0, dwellingSince T T_eqb passes s c0
                  /\ T_eqb d c0 = true /\ 1500 <= now - s.
Proof.
  intro Hd.
  destruct p as [| |[c|]]; cbn [App.pointStep App.completed];
    try discriminate.
  unfold App.handleHoverLogic.
  destruct (App.same_item T T_eqb c (App.currentItem T h)) eqn:Esame;
    [|discriminate].
  apply same_item_true in Esame. destruct Esame as (c0 & Hc0 & Heq).
  destruct (App.started T h) as [start|] eqn:Est; [|discriminate].
  apply started_some in Est.
  destruct (Qge_bool _ 100) eqn:Efull; cbn [App.completed]; [|discriminate].
  intro H; injection H as <-. split; [reflexivity|].
  exists start, c0. split; [apply Hd; assumption|].
  split; [exact Heq|]. apply progressOf_full. exact Efull.
Qed.

Lemma pointRun_commits (rest : list (Q * App.Pointing T)) :
  forall (passes : list (Q * App.Pointing T)) (h : App.Hover T) (t : Q)
         (c : T),
  tracksDwell T T_eqb passes h ->
  In (t, c) (snd (App.pointRun T T_eqb rest h)) ->
  exists s c0 done after,
    passes ++ rest = done ++ (t, App.Over T (Some c)) :: after
    /\ dwellingSince T T_eqb done s c0
    /\ T_eqb c c0 = true /\ 1500 <= t - s.
Proof.
  induction rest as [|[now p] rest IH]; intros passes h t c Hd;
    cbn [App.pointRun snd]; [intros []|].
  pose proof (pointStep_tracks passes now p h Hd) as Hd'.
  pose proof (pointStep_completes passes now p h) as Hc.
  specialize (IH (passes ++ [(now, p)])
                 (App.after T (App.pointStep T T_eqb now p h)) t c Hd').
  destruct (App.pointRun T T_eqb rest
              (App.after T (App.pointStep T T_eqb now p h))) as [h' cs].
  cbn [snd] in *.
  assert (Hlater : In (t, c) cs ->
    exists s c0 done after,
      passes ++ (now, p) :: rest = done ++ (t, App.Over T (Some c)) :: after
      /\ dwellingSince T T_eqb done s c0
      /\ T_eqb c c0 = true /\ 1500 <= t - s).
  { intro Hin. destruct (IH Hin) as (s & c0 & done & after & E & R).
    exists s, c0, done, after. split; [|exact R].
    rewrite <- E, <- app_assoc. reflexivity. }
  destruct (App.completed T (App.pointStep T T_eqb now p h)) as [d|];
    [|exact Hlater].
  intros [Hhead | Hin]; [|exact (Hlater Hin)].
  injection Hhead as <- <-.
  destruct (Hc d Hd eq_refl) as (-> & s & c0 & Hsince & Heq & Hlong).
  exists s, c0, passes, rest. repeat split; assumption.
Qed.

End Pointing.

(** X19: the menu cursor commits a target only at the end of an unbroken
    dwell of at least 1500 ms.  In any series of passes of the motion loop
    from the idle state, a completion at clock value [t] with target [c] is
    made by a pass with the cursor over [c], and the passes before it end in
    a dwell that began at some [s] with [t - s >= 1500], on a target equal
    to [c], and that was broken by nothing since: every pass in between had
    the cursor over that target again or found no pose at all.  A pass with
    the cursor elsewhere or with no visible hand ends the dwell. *)
Theorem commit_needs_unbroken_dwell (T : Type) (T_eqb : T -> T -> bool)
  (passes : list (Q * App.Pointing T)) (t : Q) (c : T) :
  In (t, c) (snd (App.pointRun T T_eqb passes (App.idle T))) ->
  exists s c0 done after,
    passes = done ++ (t, App.Over T (Some c)) :: after
    /\ dwellingSince T T_eqb done s c0
    /\ T_eqb c c0 = true /\ 1500 <= t - s.
Proof.
  intro Hin.
  apply (pointRun_commits T T_eqb passes [] (App.idle T) t c);
    [|exact Hin].
  intros c0 s Hc. discriminate Hc.
Qed.

Lemma commit_needs_unbroken_dwell_witness :
  In (2600, RETRY)
     (snd (App.pointRun Action Action_eqb retryPasses (App.idle Action)))
  /\ exists s c0 done after,
       retryPasses = done ++ (2600, App.Over Action (Some RETRY)) :: after
       /\ dwellingSince Action Action_eqb done s c0
       /\ Action_eqb RETRY c0 = true /\ 1500 <= 2600 - s.
Proof.
  assert (Hin : In (2600, RETRY)
                   (snd (App.pointRun Action Action_eqb retryPasses
                                      (App.idle Action))))
    by (vm_compute; left; reflexivity).
  split; [exact Hin|].
  exact (commit_needs_unbroken_dwell Action Action_eqb retryPasses 2600
           RETRY Hin).
Defined.

(** ** The smoothed cursor *)

Lemma shrink_range (n : nat) : 0 < shrink n /\ shrink n <= 1.
Proof.
  induction n as [|n (IH1 & IH2)]; cbn [shrink]; split; lra.
Qed.

(** X20: while the pose stays the same the cursor closes in on the hand
    geometrically.  After [n] passes that find the same visible hand, the
    gap between the cursor and the hand's point in the window is (4/5)^n
    times the gap at the start, on both axes: the cursor never overshoots
    and never moves away. *)
Theorem cursor_closes_in (w : App.Window) (l20 l19 hand : Landmark)
  (c : App.Cursor) (n : nat) :
  App.activeHand l20 l19 = Some hand ->
  let c' := cursorAfter n w (l20, l19) c in
  App.c_x c' - fst (targetOf w hand)
  == shrink n * (App.c_x c - fst (targetOf w hand))
  /\ App.c_y c' - snd (targetOf w hand)
     == shrink n * (App.c_y c - snd (targetOf w hand))
  /\ 0 < shrink n /\ shrink n <= 1.
Proof.
  intro Hhand. cbv zeta.
  refine ((fun H => conj (proj1 H) (conj (proj2 H) (shrink_range n))) _).
  induction n as [|n IH].
  - cbn [cursorAfter shrink]. split; ring.
  - cbn [cursorAfter]. destruct IH as (IHx & IHy).
    set (cn := cursorAfter n w (l20, l19) c) in *.
    cbn [shrink]. unfold App.updateCursor. rewrite Hhand.
    unfold App.smoothCursor, App.smoothing, targetOf in *. cbv zeta.
    cbn [App.c_x App.c_y fst snd] in *.
    split.
    + setoid_replace
        (App.c_x cn + ((1 - lm_x hand) * App.innerWidth w - App.c_x cn)
                      * (2 # 10) - (1 - lm_x hand) * App.innerWidth w)
        with ((4 # 5) * (App.c_x cn - (1 - lm_x hand) * App.innerWidth w))
        by ring.
      rewrite IHx. ring.
    + setoid_replace
        (App.c_y cn + (lm_y hand * App.innerHeight w - App.c_y cn)
                      * (2 # 10) - lm_y hand * App.innerHeight w)
        with ((4 # 5) * (App.c_y cn - lm_y hand * App.innerHeight w))
        by ring.
      rewrite IHy. ring.
Qed.

Lemma cursor_closes_in_witness :
  let w := App.mkWindow 1920 1080 in
  let hand := fst steadyPose in
  let c' := cursorAfter 3 w (hand, snd steadyPose) App.initialCursor in
  App.activeHand hand (snd steadyPose) = Some hand
  /\ App.c_x c' - fst (targetOf w hand)
     == shrink 3 * (App.c_x App.initialCursor - fst (targetOf w hand)).
Proof.
  cbv zeta.
  assert (Hhand : App.activeHand (fst steadyPose) (snd steadyPose)
                  = Some (fst steadyPose)) by reflexivity.
  split; [exact Hhand|].
  exact (proj1 (cursor_closes_in (App.mkWindow 1920 1080) (fst steadyPose)
                  (snd steadyPose) (fst steadyPose) App.initialCursor 3
                  Hhand)).
Defined.
